(** * Agent orchestration engine: registry, workflow engine, message bus,
      health monitor.

    A shallow embedding of [core/communication.py] and
    [core/agent_manager.py] (with the parts of [agents/base_agent.py] and
    [core/exceptions.py] they use), of the class [BaseAgent] of
    [agents/base_agent.py] and of the error factory of
    [core/exceptions.py], followed by the properties of the
    orchestration layer and of these.

    Python dictionaries are finite maps ([gmap]), Python sets are finite
    sets ([gset]); mutation of objects held in a dictionary is an update of
    the dictionary entry.  The construction of a pydantic model checks
    the fields whose values the embedding leaves untyped.  Every coroutine is a computation in a state and
    exception monad over the object it is a method of, threaded together
    with the [World] (clock, identifier supply, log).  Agents are foreign
    code: an agent instance is a record of oracles indexed by the clock.

    A loop over a dictionary or a set visits its keys in the order of
    [map_to_list] and [elements]; Python's own order (insertion order
    for a dictionary, unspecified for a set) is not modelled, and no
    statement below depends on it.  Calls of the loggers below warning
    level are left out. *)

From Stdlib Require Floats.
From stdpp Require Import gmap strings list fin_maps pretty.

Local Open Scope string_scope.
Local Open Scope list_scope.
Local Set Warnings "-register-all".
Local Set Warnings "-clear-no-such-hyp".

(** ** Python values *)

(** The [Any] of the type annotations: what a payload, a declared
    dependency or a dictionary entry can hold. *)
Inductive Value :=
| VNone
| VBool (b : bool)
| VInt (z : Z)
| VStr (s : string)
| VList (l : list Value)
| VDict (d : list (string * Value)).

(** [isinstance(v, int)]: [bool] is a subclass of [int]. *)
Definition isinstance_int (v : Value) : bool :=
  match v with
  | VInt _ | VBool _ => true
  | _ => false
  end.

(** The integer an [int] instance denotes ([True] is 1, [False] is 0). *)
Definition int_value (v : Value) : Z :=
  match v with
  | VInt z => z
  | VBool true => 1
  | _ => 0
  end.

(** A dictionary literal with string keys, as returned by foreign code. *)
Definition Dict := list (string * Value).

Fixpoint dict_lookup (k : string) (d : Dict) : option Value :=
  match d with
  | [] => None
  | (k', v) :: d' => if String.eqb k k' then Some v else dict_lookup k d'
  end.

(** [d.get(k, dflt)] *)
Definition dict_get_default (k : string) (dflt : Value) (d : Dict) : Value :=
  default dflt (dict_lookup k d).

(** Truthiness of an [Optional[str]]: [None] and the empty string are
    falsy. *)
Definition truthy_opt_str (o : option string) : bool :=
  match o with
  | None => false
  | Some s => negb (String.eqb s "")
  end.

(** [f"{o}"] for an [Optional[str]]. *)
Definition format_opt_str (o : option string) : string :=
  match o with
  | None => "None"
  | Some s => s
  end.

(** ** Exceptions ([core/exceptions.py] and the builtins that occur) *)

Inductive Exc :=
| Exception (msg : string)
| KeyError (key : string)
| TimeoutError
| ForeignError (cls msg : string)
| AgentError (message : string)
| AgentCommunicationError (message : string)
| AgentTimeoutError (message : string) (timeout_seconds : Z)
                    (details : list (string * string))
| ResourceNotFoundError (message : string) (resource_type resource_id : string).

(** [repr(s)] for a string.  The quote is the apostrophe, unless the
    string holds an apostrophe and no double quote; the quote and the
    backslash are escaped, and so are the control characters.  A string
    is its sequence of bytes: those above 127 belong to characters
    that are taken to be printable, which [repr] copies. *)
Definition hex_digit (n : N) : Ascii.ascii :=
  nth (N.to_nat n) (String.list_ascii_of_string "0123456789abcdef") (Ascii.ascii_of_nat 48).

Definition apostrophe : Ascii.ascii := Ascii.ascii_of_nat 39.
Definition double_quote : Ascii.ascii := Ascii.ascii_of_nat 34.
Definition backslash : Ascii.ascii := Ascii.ascii_of_nat 92.

Definition repr_char (quote c : Ascii.ascii) : string :=
  let n := Ascii.N_of_ascii c in
  if Ascii.eqb c quote || Ascii.eqb c backslash then String backslash (String c EmptyString)
  else if (n =? 9)%N then "\t"
  else if (n =? 10)%N then "\n"
  else if (n =? 13)%N then "\r"
  else if (n <? 32)%N || (n =? 127)%N then
    String backslash
      (String (Ascii.ascii_of_nat 120)
         (String (hex_digit (n / 16)) (String (hex_digit (n mod 16)) EmptyString)))
  else String c EmptyString.

Fixpoint contains (c : Ascii.ascii) (s : string) : bool :=
  match s with
  | EmptyString => false
  | String c' s' => Ascii.eqb c c' || contains c s'
  end.

Fixpoint repr_chars (quote : Ascii.ascii) (s : string) : string :=
  match s with
  | EmptyString => EmptyString
  | String c s' => repr_char quote c +:+ repr_chars quote s'
  end.

Definition repr_str (s : string) : string :=
  let quote :=
    if contains apostrophe s && negb (contains double_quote s) then double_quote
    else apostrophe in
  String quote (repr_chars quote s +:+ String quote EmptyString).

Fixpoint repr_items (d : list (string * string)) : string :=
  match d with
  | [] => ""
  | [(k, v)] => repr_str k +:+ ": " +:+ repr_str v
  | (k, v) :: d' => repr_str k +:+ ": " +:+ repr_str v +:+ ", " +:+ repr_items d'
  end.

(** [AgentSystemError.__str__] *)
Definition AgentSystemError_str (message : string) (details : list (string * string)) : string :=
  match details with
  | [] => message
  | _ => message +:+ " - Details: {" +:+ repr_items details +:+ "}"
  end.

(** [str(e)] *)
Definition str_exc (e : Exc) : string :=
  match e with
  | Exception msg => msg
  | KeyError key => repr_str key
  | TimeoutError => ""
  | ForeignError _ msg => msg
  | AgentError message => AgentSystemError_str message []
  | AgentCommunicationError message => AgentSystemError_str message []
  | AgentTimeoutError message _ details => AgentSystemError_str message details
  | ResourceNotFoundError message _ _ => AgentSystemError_str message []
  end.

(** ** Validation by pydantic

    The models of the program are pydantic models, and constructing one
    checks the values given for its fields. *)

(** The [ValidationError] pydantic raises when it refuses the value
    given for the field [field] of the model [model].  The text of its
    report is not modelled: [str] gives the model and the field. *)
Definition pydantic_ValidationError (model field : string) : Exc :=
  ForeignError "ValidationError" ("validation error for " +:+ model +:+ ": " +:+ field).

(** What a field annotated [Dict[str, Any]] accepts. *)
Definition is_dict (v : Value) : bool :=
  match v with
  | VDict _ => true
  | _ => false
  end.

(** What a field annotated [List[str]] accepts. *)
Definition is_list_of_str (v : Value) : bool :=
  match v with
  | VList l => forallb (λ x, match x with VStr _ => true | _ => false end) l
  | _ => false
  end.

(** ** The world outside the objects *)

Record LogEntry := {
  log_level : string;
  log_event : string;
  log_fields : list (string * Value)
}.

(** [clock] is the logical time [datetime.utcnow()] reads; it advances
    at every suspension on foreign code or on a timer, and stands still
    in between, where the wall clock of the program may move on: two
    readings that the model makes equal are, in the program, a first
    and a later one.  [uuid_counter] is the supply [uuid4()] draws
    from.  [log] is what the structlog loggers have emitted at warning
    level or above. *)
Record World := {
  clock : nat;
  uuid_counter : nat;
  log : list LogEntry
}.

Definition world0 : World := {| clock := 0; uuid_counter := 0; log := [] |}.

Definition tick (w : World) : World :=
  {| clock := S (clock w); uuid_counter := uuid_counter w; log := log w |}.

Definition emit (e : LogEntry) (w : World) : World :=
  {| clock := clock w; uuid_counter := uuid_counter w; log := log w ++ [e] |}.

Definition next_uuid (w : World) : World :=
  {| clock := clock w; uuid_counter := S (uuid_counter w); log := log w |}.

(** [str(uuid4())]: the [n]-th identifier drawn.  The model's assumption
    on [uuid4] is that it never repeats. *)
Definition uuid_str (n : nat) : string := "uuid-" +:+ pretty n.

(** ** The monad of coroutines *)

(** What awaiting a coroutine of this program yields: a value, a raised
    exception, or no answer within the fuel given to its loops. *)
Inductive Result (A : Type) :=
| Ok (a : A)
| Raise (e : Exc)
| OutOfFuel.
Arguments Ok {A} a.
Arguments Raise {A} e.
Arguments OutOfFuel {A}.

(** What awaiting foreign code yields. *)
Inductive Outcome (A : Type) :=
| Returns (a : A)
| Throws (e : Exc).
Arguments Returns {A} a.
Arguments Throws {A} e.

Definition M (S A : Type) : Type := World → S → Result A * World * S.

Definition ret {S A} (a : A) : M S A := λ w s, (Ok a, w, s).

Definition raise {S A} (e : Exc) : M S A := λ w s, (Raise e, w, s).

Definition out_of_fuel {S A} : M S A := λ w s, (OutOfFuel, w, s).

Definition bind {S A B} (m : M S A) (k : A → M S B) : M S B :=
  λ w s,
    match m w s with
    | (Ok a, w', s') => k a w' s'
    | (Raise e, w', s') => (Raise e, w', s')
    | (OutOfFuel, w', s') => (OutOfFuel, w', s')
    end.

Declare Scope coro_scope.
Delimit Scope coro_scope with coro.
Notation "x <- m ;; k" := (bind m (λ x, k))
  (at level 100, m at next level, right associativity) : coro_scope.
Notation "m ;;; k" := (bind m (λ _, k))
  (at level 100, right associativity) : coro_scope.
Local Open Scope coro_scope.

(** [try: m except Exception as e: h e] *)
Definition try_except {S A} (m : M S A) (h : Exc → M S A) : M S A :=
  λ w s,
    match m w s with
    | (Raise e, w', s') => h e w' s'
    | r => r
    end.

Definition get {S} : M S S := λ w s, (Ok s, w, s).

Definition modify {S} (f : S → S) : M S unit := λ w s, (Ok tt, w, f s).

(** [datetime.utcnow()] *)
Definition utcnow {S} : M S nat := λ w s, (Ok (clock w), w, s).

(** [str(uuid4())] *)
Definition uuid4 {S} : M S string :=
  λ w s, (Ok (uuid_str (uuid_counter w)), next_uuid w, s).

Definition logger {S} (level event : string) (fields : list (string * Value)) : M S unit :=
  λ w s,
    (Ok tt, emit {| log_level := level; log_event := event; log_fields := fields |} w, s).

(** [await] on foreign code: the oracle is asked at the current clock,
    and the clock advances. *)
Definition await {S A} (f : nat → Outcome A) : M S A :=
  λ w s,
    match f (clock w) with
    | Returns a => (Ok a, tick w, s)
    | Throws e => (Raise e, tick w, s)
    end.

(** [await asyncio.sleep(_)] *)
Definition sleep {S} : M S unit := λ w s, (Ok tt, tick w, s).

(** [d[k]] on a dictionary with string keys. *)
Definition subscript {S V} (d : gmap string V) (k : string) : M S V :=
  match d !! k with
  | Some v => ret v
  | None => raise (KeyError k)
  end.

(** [for x in l: body x], with the loop-carried locals as accumulator. *)
Fixpoint for_each {S A B} (l : list A) (body : B → A → M S B) (acc : B) : M S B :=
  match l with
  | [] => ret acc
  | x :: l' => acc' <- body acc x ;; for_each l' body acc'
  end.

(** [del d[k]] *)
Definition del_item {S V} (d : gmap string V) (k : string) : M S (gmap string V) :=
  match d !! k with
  | Some _ => ret (delete k d)
  | None => raise (KeyError k)
  end.

(** * [core/communication.py] *)

Module communication.

Inductive MessageType :=
| TASK_REQUEST | TASK_RESPONSE | TASK_UPDATE | TASK_COMPLETE | TASK_FAILED
| COORDINATION_REQUEST | COORDINATION_RESPONSE
| WORKFLOW_START | WORKFLOW_STEP | WORKFLOW_COMPLETE
| STATUS_UPDATE | HEALTH_CHECK | CAPABILITY_QUERY | CAPABILITY_RESPONSE
| DATA_REQUEST | DATA_RESPONSE | RESOURCE_REQUEST | RESOURCE_RESPONSE
| ERROR_NOTIFICATION | EXCEPTION_REPORT
| SYSTEM_SHUTDOWN | AGENT_REGISTRATION | AGENT_DEREGISTRATION.

Inductive MessagePriority := LOW | NORMAL | HIGH | URGENT | CRITICAL.

Record Message := {
  message_id : string;
  sender_id : string;
  recipient_id : option string;
  message_type : MessageType;
  priority : MessagePriority;
  timestamp : nat;
  correlation_id : option string;
  payload : Value;
  metadata : Value
}.

(** [m = message.copy(); m.recipient_id = r] *)
Definition copy_to (r : string) (m : Message) : Message :=
  {| message_id := message_id m; sender_id := sender_id m;
     recipient_id := Some r; message_type := message_type m;
     priority := priority m; timestamp := timestamp m;
     correlation_id := correlation_id m; payload := payload m;
     metadata := metadata m |}.

(** A handler is foreign code. *)
Record MessageHandler := {
  handle_message : nat → Message → Outcome (option Message)
}.

(** The state of a [CommunicationManager] ([_message_handlers], which
    no method reads, is left out).  An [asyncio.Queue] is the list of
    the messages it holds, oldest first; the consumer task attached to
    a queue is a concurrent activity and is not part of the state. *)
Record CommunicationManager := {
  agents : gmap string MessageHandler;
  message_queues : gmap string (list Message);
  subscriptions : gmap string (gset string);
  running : bool
}.

Definition init : CommunicationManager :=
  {| agents := ∅; message_queues := ∅; subscriptions := ∅; running := false |}.

Definition set_agents (f : gmap string MessageHandler → gmap string MessageHandler)
    (cm : CommunicationManager) : CommunicationManager :=
  {| agents := f (agents cm); message_queues := message_queues cm;
     subscriptions := subscriptions cm; running := running cm |}.

Definition set_message_queues (f : gmap string (list Message) → gmap string (list Message))
    (cm : CommunicationManager) : CommunicationManager :=
  {| agents := agents cm; message_queues := f (message_queues cm);
     subscriptions := subscriptions cm; running := running cm |}.

Definition set_subscriptions (f : gmap string (gset string) → gmap string (gset string))
    (cm : CommunicationManager) : CommunicationManager :=
  {| agents := agents cm; message_queues := message_queues cm;
     subscriptions := f (subscriptions cm); running := running cm |}.

(** [await self.message_queues[agent_id].put(m)]: the queues are
    unbounded, so [put] never waits. *)
Definition queue_put (agent_id : string) (m : Message) : M CommunicationManager unit :=
  cm <- get ;;
  q <- subscript (message_queues cm) agent_id ;;
  modify (set_message_queues (<[agent_id := q ++ [m]]>)).

(** The body of the two delivery loops,
    [for agent_id in ...: m = message.copy(); m.recipient_id = agent_id;
    await self.message_queues[agent_id].put(m)], under the guard [p] of
    the loop ([publish_event] skips the sender, a broadcast skips
    nobody). *)
Definition deliver (p : string → bool) (f : string → Message) (_ : unit) (agent_id : string)
    : M CommunicationManager unit :=
  if p agent_id then queue_put agent_id (f agent_id) else ret tt.

Definition register_agent (agent_id : string) (handler : MessageHandler)
    : M CommunicationManager unit :=
  cm <- get ;;
  if bool_decide (agent_id ∈ dom (agents cm)) then
    raise (AgentCommunicationError ("Agent " +:+ agent_id +:+ " is already registered"))
  else
    modify (set_agents (<[agent_id := handler]>)) ;;;
    modify (set_message_queues (<[agent_id := []]>)).

(** One pass of the loop over [list(self.subscriptions.keys())]. *)
Definition drop_subscriber (agent_id : string) (_ : unit) (event_type : string)
    : M CommunicationManager unit :=
  cm <- get ;;
  subs <- subscript (subscriptions cm) event_type ;;
  let subs' := subs ∖ {[agent_id]} in
  modify (set_subscriptions (<[event_type := subs']>)) ;;;
  if bool_decide (subs' = ∅) then
    cm' <- get ;;
    d <- del_item (subscriptions cm') event_type ;;
    modify (set_subscriptions (λ _, d))
  else ret tt.

Definition unregister_agent (agent_id : string) : M CommunicationManager unit :=
  cm <- get ;;
  if bool_decide (agent_id ∈ dom (agents cm)) then
    a <- del_item (agents cm) agent_id ;;
    modify (set_agents (λ _, a)) ;;;
    q <- del_item (message_queues cm) agent_id ;;
    modify (set_message_queues (λ _, q)) ;;;
    for_each (elements (dom (subscriptions cm))) (drop_subscriber agent_id) tt
  else ret tt.

Definition send_message (message : Message) : M CommunicationManager bool :=
  try_except
    (if truthy_opt_str (recipient_id message) then
       let rid := default "" (recipient_id message) in
       cm <- get ;;
       if bool_decide (rid ∈ dom (agents cm)) then
         queue_put rid message ;;;
         ret true
       else
         logger "warning" "Recipient not found"
           [("recipient_id", VStr rid); ("message_id", VStr (message_id message))] ;;;
         ret false
     else
       cm <- get ;;
       for_each (elements (dom (agents cm)))
         (deliver (λ _, true) (λ agent_id, copy_to agent_id message)) tt ;;;
       ret true)
    (λ e,
       logger "error" "Failed to send message"
         [("message_id", VStr (message_id message)); ("error", VStr (str_exc e))] ;;;
       ret false).

(** The [Message(...)] that [publish_event] constructs. *)
Definition event_message (mid : string) (now : nat) (event_type : string) (data : Value)
    (sender : string) : Message :=
  {| message_id := mid; sender_id := sender; recipient_id := None;
     message_type := STATUS_UPDATE; priority := NORMAL; timestamp := now;
     correlation_id := None;
     payload := VDict [("event_type", VStr event_type); ("data", data)];
     metadata := VDict [("is_event", VBool true)] |}.

Definition publish_event (event_type : string) (data : Value) (sender : string)
    : M CommunicationManager unit :=
  cm <- get ;;
  match subscriptions cm !! event_type with
  | None => ret tt
  | Some subscribers =>
      mid <- uuid4 ;;
      now <- utcnow ;;
      let message := event_message mid now event_type data sender in
      for_each (elements subscribers)
        (deliver (λ agent_id, bool_decide (agent_id ≠ sender))
                 (λ agent_id, copy_to agent_id message)) tt
  end.

Definition subscribe_to_event (agent_id event_type : string) : M CommunicationManager unit :=
  modify (set_subscriptions (λ subs,
    <[event_type := {[agent_id]} ∪ default ∅ (subs !! event_type)]> subs)).

Definition unsubscribe_from_event (agent_id event_type : string) : M CommunicationManager unit :=
  cm <- get ;;
  match subscriptions cm !! event_type with
  | Some subs =>
      let subs' := subs ∖ {[agent_id]} in
      if bool_decide (subs' = ∅) then
        modify (set_subscriptions (delete event_type))
      else
        modify (set_subscriptions (<[event_type := subs']>))
  | None => ret tt
  end.

Definition set_running (v : bool) (cm : CommunicationManager) : CommunicationManager :=
  {| agents := agents cm; message_queues := message_queues cm;
     subscriptions := subscriptions cm; running := v |}.

(** [_start_agent_message_processor]: the task it creates is a
    concurrent activity; what is left of the method on the state is the
    subscript by which the task is attached to the queue object. *)
Definition _start_agent_message_processor (_ : unit) (agent_id : string)
    : M CommunicationManager unit :=
  cm <- get ;;
  if bool_decide (agent_id ∈ dom (agents cm)) then
    _ <- subscript (message_queues cm) agent_id ;;
    ret tt
  else ret tt.

Definition start : M CommunicationManager unit :=
  modify (set_running true) ;;;
  cm <- get ;;
  for_each (elements (dom (agents cm))) _start_agent_message_processor tt.

(** [stop]: cancelling the processor tasks changes nothing in the
    state. *)
Definition stop : M CommunicationManager unit :=
  modify (set_running false).

(** One turn of the [while self.running] loop of
    [_process_agent_messages], run for [agent_id] with the handler the
    coroutine looked up when it started.  The queue object the
    coroutine holds is the entry of [message_queues]; when it is empty
    [wait_for(queue.get(), timeout=1.0)] times out and the loop
    continues. *)
Definition process_next (agent_id : string) (handler : MessageHandler)
    : M CommunicationManager unit :=
  cm <- get ;;
  match default [] (message_queues cm !! agent_id) with
  | [] => sleep
  | message :: rest =>
      modify (set_message_queues (<[agent_id := rest]>)) ;;;
      try_except
        (response <- await (λ t, handle_message handler t message) ;;
         match response with
         | Some r => send_message r ;;; ret tt
         | None => ret tt
         end)
        (λ e,
           logger "error" "Error processing message"
             [("agent_id", VStr agent_id); ("message_id", VStr (message_id message));
              ("error", VStr (str_exc e))])
  end.

(** [while self.running: ...]; [fuel] bounds the number of turns. *)
Fixpoint processor_loop (fuel : nat) (agent_id : string) (handler : MessageHandler)
    : M CommunicationManager unit :=
  match fuel with
  | O => out_of_fuel
  | S fuel' =>
      cm <- get ;;
      if running cm then
        process_next agent_id handler ;;;
        processor_loop fuel' agent_id handler
      else ret tt
  end.

Definition _process_agent_messages (fuel : nat) (agent_id : string)
    : M CommunicationManager unit :=
  cm <- get ;;
  if bool_decide (agent_id ∈ dom (agents cm)) then
    handler <- subscript (agents cm) agent_id ;;
    _ <- subscript (message_queues cm) agent_id ;;
    processor_loop fuel agent_id handler
  else ret tt.

(** The dictionary [get_system_status] returns. *)
Record SystemStatus := {
  status_running : bool;
  registered_agents : list string;
  active_subscriptions : gmap string (list string);
  queue_sizes : gmap string nat
}.

Definition get_system_status (cm : CommunicationManager) : SystemStatus :=
  {| status_running := running cm;
     registered_agents := elements (dom (agents cm));
     active_subscriptions := elements <$> subscriptions cm;
     queue_sizes := length <$> message_queues cm |}.

End communication.

(** * [agents/base_agent.py]: the agent contract *)

Module base_agent.

Module AgentConfig.
Record t := {
  agent_id : string;
  name : string;
  timeout : Z
}.
End AgentConfig.

Module AgentResponse.
Record t := {
  success : bool;
  data : option Value;
  error : option string;
  agent_id : string
}.
End AgentResponse.

(** An agent instance.  Its methods are foreign code: each is an oracle
    asked at the clock of the call.  [process_request] also tells how
    long the answer takes, which is what a deadline is compared with. *)
Record BaseAgent := {
  config : AgentConfig.t;
  process_request : nat → Value → option Value → nat * Outcome AgentResponse.t;
  health_check : nat → Outcome Dict;
  get_capabilities : nat → Outcome Dict;
  shutdown : nat → Outcome unit;
  handle_message : nat → communication.Message → Outcome (option communication.Message)
}.

Definition as_handler (a : BaseAgent) : communication.MessageHandler :=
  {| communication.handle_message := handle_message a |}.

End base_agent.

(** [await asyncio.wait_for(coro, timeout=timeout)]: the answer of the
    awaited coroutine if it comes within the deadline, [TimeoutError]
    otherwise. *)
Definition wait_for {S A} (coro : nat → nat * Outcome A) (timeout : Z) : M S A :=
  λ w s,
    let '(duration, outcome) := coro (clock w) in
    if bool_decide (timeout ≤ 0 ∨ timeout < Z.of_nat duration)%Z then
      (Raise TimeoutError, tick w, s)
    else
      match outcome with
      | Returns a => (Ok a, tick w, s)
      | Throws e => (Raise e, tick w, s)
      end.

(** * [core/agent_manager.py] *)

Module agent_manager.

Import base_agent.
Import communication(CommunicationManager).

Module AgentRegistration.
Record t := {
  agent_id : string;
  agent_type : string;
  agent_instance : BaseAgent;
  config : AgentConfig.t;
  capabilities : Value;
  registered_at : nat;
  last_heartbeat : nat;
  status : string
}.

Definition set_status (v : string) (r : t) : t :=
  {| agent_id := agent_id r; agent_type := agent_type r;
     agent_instance := agent_instance r; config := config r;
     capabilities := capabilities r; registered_at := registered_at r;
     last_heartbeat := last_heartbeat r; status := v |}.

Definition set_last_heartbeat (v : nat) (r : t) : t :=
  {| agent_id := agent_id r; agent_type := agent_type r;
     agent_instance := agent_instance r; config := config r;
     capabilities := capabilities r; registered_at := registered_at r;
     last_heartbeat := v; status := status r |}.

(** [AgentRegistration(agent_id=..., agent_type=..., agent_instance=...,
    config=..., capabilities=...)]: [capabilities] is checked to be a
    list of strings, [registered_at] and [last_heartbeat] are each a
    reading of the clock, [status] is ["active"]. *)
Definition new {S} (agent_id agent_type : string) (agent_instance : BaseAgent)
    (config : AgentConfig.t) (capabilities : Value) : M S t :=
  if is_list_of_str capabilities then
    registered_at <- utcnow ;;
    last_heartbeat <- utcnow ;;
    ret {| agent_id := agent_id; agent_type := agent_type;
           agent_instance := agent_instance; config := config;
           capabilities := capabilities; registered_at := registered_at;
           last_heartbeat := last_heartbeat; status := "active" |}
  else raise (pydantic_ValidationError "AgentRegistration" "capabilities").
End AgentRegistration.

Module WorkflowStep.
Record t := {
  step_id : string;
  agent_type : string;
  task : string;
  data : Value;
  dependencies : list string;
  status : string;
  result : option Value;
  error : option string;
  started_at : option nat;
  completed_at : option nat
}.

Definition set_status (v : string) (s : t) : t :=
  {| step_id := step_id s; agent_type := agent_type s; task := task s;
     data := data s; dependencies := dependencies s; status := v;
     result := result s; error := error s; started_at := started_at s;
     completed_at := completed_at s |}.

Definition set_result (v : option Value) (s : t) : t :=
  {| step_id := step_id s; agent_type := agent_type s; task := task s;
     data := data s; dependencies := dependencies s; status := status s;
     result := v; error := error s; started_at := started_at s;
     completed_at := completed_at s |}.

Definition set_error (v : option string) (s : t) : t :=
  {| step_id := step_id s; agent_type := agent_type s; task := task s;
     data := data s; dependencies := dependencies s; status := status s;
     result := result s; error := v; started_at := started_at s;
     completed_at := completed_at s |}.

Definition set_started_at (v : option nat) (s : t) : t :=
  {| step_id := step_id s; agent_type := agent_type s; task := task s;
     data := data s; dependencies := dependencies s; status := status s;
     result := result s; error := error s; started_at := v;
     completed_at := completed_at s |}.

Definition set_completed_at (v : option nat) (s : t) : t :=
  {| step_id := step_id s; agent_type := agent_type s; task := task s;
     data := data s; dependencies := dependencies s; status := status s;
     result := result s; error := error s; started_at := started_at s;
     completed_at := v |}.

(** [WorkflowStep(step_id=..., agent_type=..., task=..., data=...,
    dependencies=...)]: [data] is checked to be a dictionary; the step
    is pending, without result, error or times. *)
Definition new {S} (step_id agent_type task : string) (data : Value)
    (dependencies : list string) : M S t :=
  if is_dict data then
    ret {| step_id := step_id; agent_type := agent_type; task := task;
           data := data; dependencies := dependencies; status := "pending";
           result := None; error := None; started_at := None;
           completed_at := None |}
  else raise (pydantic_ValidationError "WorkflowStep" "data").
End WorkflowStep.

Module Workflow.
Record t := {
  workflow_id : string;
  name : string;
  description : string;
  steps : list WorkflowStep.t;
  status : string;
  created_at : nat;
  started_at : option nat;
  completed_at : option nat;
  metadata : Value
}.

Definition set_steps (f : list WorkflowStep.t → list WorkflowStep.t) (x : t) : t :=
  {| workflow_id := workflow_id x; name := name x; description := description x;
     steps := f (steps x); status := status x; created_at := created_at x;
     started_at := started_at x; completed_at := completed_at x;
     metadata := metadata x |}.

Definition set_status (v : string) (x : t) : t :=
  {| workflow_id := workflow_id x; name := name x; description := description x;
     steps := steps x; status := v; created_at := created_at x;
     started_at := started_at x; completed_at := completed_at x;
     metadata := metadata x |}.

Definition set_started_at (v : option nat) (x : t) : t :=
  {| workflow_id := workflow_id x; name := name x; description := description x;
     steps := steps x; status := status x; created_at := created_at x;
     started_at := v; completed_at := completed_at x;
     metadata := metadata x |}.

Definition set_completed_at (v : option nat) (x : t) : t :=
  {| workflow_id := workflow_id x; name := name x; description := description x;
     steps := steps x; status := status x; created_at := created_at x;
     started_at := started_at x; completed_at := v;
     metadata := metadata x |}.
End Workflow.

(** One entry of a workflow definition: the dictionary with the keys
    ["agent"], ["task"], ["data"] and ["dependencies"], each of which
    may be missing.  The values of ["agent"] and ["task"] are strings
    and that of ["dependencies"] is a list, as the annotations of
    [WorkflowStep] and the loop over the dependencies ask; the value of
    ["data"] is any value. *)
Module StepDef.
Record t := {
  agent : option string;
  task : option string;
  data : option Value;
  dependencies : option (list Value)
}.
End StepDef.

(** Ghost record of one dispatch of [execute_workflow]: the position of
    the step, the steps of the workflow and the local [completed_steps]
    as they were when the step was found ready, and what [query_agent]
    answered. *)
Record Dispatch := {
  ev_workflow_id : string;
  ev_index : nat;
  ev_steps : list WorkflowStep.t;
  ev_completed : gset string;
  ev_outcome : Result AgentResponse.t
}.

Record AgentManager := {
  agents : gmap string AgentRegistration.t;
  agent_types : gmap string (gset string);
  workflows : gmap string Workflow.t;
  communication_manager : CommunicationManager;
  running : bool;
  (* ghost: the dispatches made so far, oldest first *)
  dispatched : list Dispatch
}.

Definition init : AgentManager :=
  {| agents := ∅; agent_types := ∅; workflows := ∅;
     communication_manager := communication.init; running := false;
     dispatched := [] |}.

Definition set_agents (f : gmap string AgentRegistration.t → gmap string AgentRegistration.t)
    (m : AgentManager) : AgentManager :=
  {| agents := f (agents m); agent_types := agent_types m; workflows := workflows m;
     communication_manager := communication_manager m; running := running m;
     dispatched := dispatched m |}.

Definition set_agent_types (f : gmap string (gset string) → gmap string (gset string))
    (m : AgentManager) : AgentManager :=
  {| agents := agents m; agent_types := f (agent_types m); workflows := workflows m;
     communication_manager := communication_manager m; running := running m;
     dispatched := dispatched m |}.

Definition set_workflows (f : gmap string Workflow.t → gmap string Workflow.t)
    (m : AgentManager) : AgentManager :=
  {| agents := agents m; agent_types := agent_types m; workflows := f (workflows m);
     communication_manager := communication_manager m; running := running m;
     dispatched := dispatched m |}.

Definition set_communication_manager (c : CommunicationManager)
    (m : AgentManager) : AgentManager :=
  {| agents := agents m; agent_types := agent_types m; workflows := workflows m;
     communication_manager := c; running := running m;
     dispatched := dispatched m |}.

Definition set_dispatched (f : list Dispatch → list Dispatch)
    (m : AgentManager) : AgentManager :=
  {| agents := agents m; agent_types := agent_types m; workflows := workflows m;
     communication_manager := communication_manager m; running := running m;
     dispatched := f (dispatched m) |}.

(** A call on [self.communication_manager]. *)
Definition on_communication_manager {A} (m : M CommunicationManager A) : M AgentManager A :=
  λ w mgr,
    let '(r, w', cm') := m w (communication_manager mgr) in
    (r, w', set_communication_manager cm' mgr).

(** Ghost: run [m] and record what it answered. *)
Definition traced (workflow_id : string) (i : nat) (snapshot : list WorkflowStep.t)
    (completed_steps : gset string) (m : M AgentManager AgentResponse.t)
    : M AgentManager AgentResponse.t :=
  λ w mgr,
    let '(r, w', mgr') := m w mgr in
    (r, w',
     set_dispatched (λ d, d ++ [{| ev_workflow_id := workflow_id; ev_index := i;
                                   ev_steps := snapshot; ev_completed := completed_steps;
                                   ev_outcome := r |}]) mgr').

(** ** Registration *)

Definition register_agent (agent : BaseAgent) (agent_type : string) : M AgentManager string :=
  let agent_id := AgentConfig.agent_id (config agent) in
  mgr <- get ;;
  if bool_decide (agent_id ∈ dom (agents mgr)) then
    raise (AgentError ("Agent " +:+ agent_id +:+ " is already registered"))
  else
    capabilities <- await (get_capabilities agent) ;;
    registration <- AgentRegistration.new agent_id agent_type agent (config agent)
                      (dict_get_default "supported_operations" (VList []) capabilities) ;;
    modify (set_agents (<[agent_id := registration]>)) ;;;
    modify (set_agent_types (λ types,
      let types' :=
        if bool_decide (agent_type ∈ dom types) then types
        else <[agent_type := ∅]> types in
      alter (λ ids, {[agent_id]} ∪ ids) agent_type types')) ;;;
    on_communication_manager (communication.register_agent agent_id (as_handler agent)) ;;;
    ret agent_id.

Definition unregister_agent (agent_id : string) : M AgentManager unit :=
  mgr <- get ;;
  match agents mgr !! agent_id with
  | None => ret tt
  | Some registration =>
      let agent_type := AgentRegistration.agent_type registration in
      modify (set_agent_types (λ types,
        match types !! agent_type with
        | Some ids =>
            let ids' := ids ∖ {[agent_id]} in
            if bool_decide (ids' = ∅) then delete agent_type types
            else <[agent_type := ids']> types
        | None => types
        end)) ;;;
      on_communication_manager (communication.unregister_agent agent_id) ;;;
      await (shutdown (AgentRegistration.agent_instance registration)) ;;;
      mgr' <- get ;;
      a <- del_item (agents mgr') agent_id ;;
      modify (set_agents (λ _, a))
  end.

(** ** Routing *)

Definition query_agent (agent_type : string) (query : Value) (context : option Value)
    (timeout : option Z) : M AgentManager AgentResponse.t :=
  mgr <- get ;;
  match agent_types mgr !! agent_type with
  | Some members =>
      match elements members with
      | selected_agent_id :: _ =>
          registration <- subscript (agents mgr) selected_agent_id ;;
          let agent := AgentRegistration.agent_instance registration in
          let timeout := default (AgentConfig.timeout (config agent)) timeout in
          try_except
            (response <- wait_for (λ t, process_request agent t query context) timeout ;;
             now <- utcnow ;;
             modify (set_agents
               (alter (AgentRegistration.set_last_heartbeat now) selected_agent_id)) ;;;
             ret response)
            (λ e,
               match e with
               | TimeoutError =>
                   raise (AgentTimeoutError
                     ("Agent query timed out after " +:+ pretty timeout +:+ " seconds")
                     timeout
                     [("agent_id", selected_agent_id); ("agent_type", agent_type)])
               | _ => raise e
               end)
      | [] =>
          raise (ResourceNotFoundError
            ("No agents of type '" +:+ agent_type +:+ "' available") "agent_type" agent_type)
      end
  | None =>
      raise (ResourceNotFoundError
        ("No agents of type '" +:+ agent_type +:+ "' available") "agent_type" agent_type)
  end.

(** ** Workflow construction *)

(** The body of [for dep_idx in step_def["dependencies"]]. *)
Definition add_dependency (i total : nat) (step_ids : list string)
    (dependencies : list string) (dep_idx : Value) : M AgentManager (list string) :=
  if isinstance_int dep_idx && bool_decide (0 ≤ int_value dep_idx < Z.of_nat i)%Z then
    match step_ids !! Z.to_nat (int_value dep_idx) with
    | Some id => ret (dependencies ++ [id])
    | None => raise (ForeignError "IndexError" "list index out of range")
    end
  else
    logger "warning" "Invalid dependency index"
      [("step_index", VInt (Z.of_nat i)); ("dependency_index", dep_idx);
       ("total_steps", VInt (Z.of_nat total))] ;;;
    ret dependencies.

(** [step_def[k]] for a key that may be missing. *)
Definition required {S} (k : string) (o : option string) : M S string :=
  match o with
  | Some v => ret v
  | None => raise (KeyError k)
  end.

(** The body of [for i, step_def in enumerate(workflow_definition)]; the
    locals [steps] and [step_ids] are the accumulator. *)
Definition add_step (total : nat) (acc : list WorkflowStep.t * list string)
    (x : nat * StepDef.t) : M AgentManager (list WorkflowStep.t * list string) :=
  let '(steps, step_ids) := acc in
  let '(i, step_def) := x in
  step_id <- uuid4 ;;
  let step_ids := step_ids ++ [step_id] in
  dependencies <-
    match StepDef.dependencies step_def with
    | Some declared => for_each declared (add_dependency i total step_ids) []
    | None => ret []
    end ;;
  agent <- required "agent" (StepDef.agent step_def) ;;
  task <- required "task" (StepDef.task step_def) ;;
  step <- WorkflowStep.new step_id agent task
            (default (VDict []) (StepDef.data step_def)) dependencies ;;
  ret (steps ++ [step], step_ids).

Definition enumerate {A} (l : list A) : list (nat * A) := imap pair l.

Definition create_workflow (workflow_definition : list StepDef.t) : M AgentManager Workflow.t :=
  acc <- for_each (enumerate workflow_definition)
           (add_step (length workflow_definition)) ([], []) ;;
  let steps := acc.1 in
  workflow_id <- uuid4 ;;
  now <- utcnow ;;
  created_at <- utcnow ;;
  let workflow :=
    {| Workflow.workflow_id := workflow_id;
       Workflow.name := "Workflow_" +:+ pretty now;
       Workflow.description := "Generated workflow";
       Workflow.steps := steps;
       Workflow.status := "pending";
       Workflow.created_at := created_at;
       Workflow.started_at := None;
       Workflow.completed_at := None;
       Workflow.metadata := VDict [] |} in
  modify (set_workflows (<[workflow_id := workflow]>)) ;;;
  ret workflow.

(** ** Workflow execution *)

(** The steps of the stored workflow [workflow_id] (none if absent). *)
Definition steps_of (workflow_id : string) (mgr : AgentManager) : list WorkflowStep.t :=
  match workflows mgr !! workflow_id with
  | Some workflow => Workflow.steps workflow
  | None => []
  end.

(** Assignment to attributes of the workflow object, and of its
    [i]-th step object: both live in [self.workflows]. *)
Definition update_workflow (workflow_id : string) (f : Workflow.t → Workflow.t)
    : M AgentManager unit :=
  modify (set_workflows (alter f workflow_id)).

Definition update_step (workflow_id : string) (i : nat) (f : WorkflowStep.t → WorkflowStep.t)
    : M AgentManager unit :=
  update_workflow workflow_id (Workflow.set_steps (alter f i)).

(** The locals [results] and [completed_steps]. *)
Definition Locals : Type := gmap string (option Value) * gset string.

(** The guard of the [if] inside the scan. *)
Definition ready (step : WorkflowStep.t) (completed_steps : gset string) : bool :=
  bool_decide (WorkflowStep.step_id step ∉ completed_steps)
  && String.eqb (WorkflowStep.status step) "pending"
  && forallb (λ dep, bool_decide (dep ∈ completed_steps)) (WorkflowStep.dependencies step).

(** The body of [for step in workflow.steps], for the step at position [i]. *)
Definition run_step (workflow_id : string) (loc : Locals) (i : nat) : M AgentManager Locals :=
  mgr <- get ;;
  match steps_of workflow_id mgr !! i with
  | None => ret loc
  | Some step =>
      let '(results, completed_steps) := loc in
      if ready step completed_steps then
        now <- utcnow ;;
        update_step workflow_id i
          (WorkflowStep.set_started_at (Some now) ∘ WorkflowStep.set_status "running") ;;;
        results' <-
          try_except
            (response <-
               traced workflow_id i (steps_of workflow_id mgr) completed_steps
                 (query_agent (WorkflowStep.agent_type step)
                    (VStr (WorkflowStep.task step)) (Some (WorkflowStep.data step)) None) ;;
             if AgentResponse.success response then
               update_step workflow_id i
                 (WorkflowStep.set_result (AgentResponse.data response)
                  ∘ WorkflowStep.set_status "completed") ;;;
               ret (<[WorkflowStep.step_id step := AgentResponse.data response]> results)
             else
               update_step workflow_id i
                 (WorkflowStep.set_error (AgentResponse.error response)
                  ∘ WorkflowStep.set_status "failed") ;;;
               raise (Exception
                 ("Step failed: " +:+ format_opt_str (AgentResponse.error response))))
            (λ e,
               now <- utcnow ;;
               update_step workflow_id i
                 (WorkflowStep.set_completed_at (Some now)
                  ∘ WorkflowStep.set_error (Some (str_exc e))
                  ∘ WorkflowStep.set_status "failed") ;;;
               raise e) ;;
        now <- utcnow ;;
        update_step workflow_id i (WorkflowStep.set_completed_at (Some now)) ;;;
        ret (results', {[WorkflowStep.step_id step]} ∪ completed_steps)
      else ret loc
  end.

(** One execution of the body of the [while] loop's [for]: a full scan. *)
Definition scan (workflow_id : string) (loc : Locals) : M AgentManager Locals :=
  mgr <- get ;;
  for_each (seq 0 (length (steps_of workflow_id mgr))) (run_step workflow_id) loc.

(** [while len(completed_steps) < len(workflow.steps): ...]; [fuel]
    bounds the number of times the loop condition is evaluated. *)
Fixpoint run_loop (fuel : nat) (workflow_id : string) (loc : Locals) : M AgentManager Locals :=
  match fuel with
  | O => out_of_fuel
  | S fuel' =>
      mgr <- get ;;
      if bool_decide (size loc.2 < length (steps_of workflow_id mgr)) then
        loc' <- scan workflow_id loc ;;
        if bool_decide (size loc'.2 = 0) then
          raise (Exception "Workflow deadlock detected - no progress possible")
        else
          sleep ;;;
          run_loop fuel' workflow_id loc'
      else ret loc
  end.

Definition execute_workflow (fuel : nat) (workflow_id : string)
    : M AgentManager (gmap string (option Value)) :=
  mgr <- get ;;
  if bool_decide (workflow_id ∈ dom (workflows mgr)) then
    now <- utcnow ;;
    update_workflow workflow_id
      (Workflow.set_started_at (Some now) ∘ Workflow.set_status "running") ;;;
    try_except
      (loc <- run_loop fuel workflow_id (∅, ∅) ;;
       now <- utcnow ;;
       update_workflow workflow_id
         (Workflow.set_completed_at (Some now) ∘ Workflow.set_status "completed") ;;;
       ret loc.1)
      (λ e,
         now <- utcnow ;;
         update_workflow workflow_id
           (Workflow.set_completed_at (Some now) ∘ Workflow.set_status "failed") ;;;
         logger "error" "Workflow execution failed"
           [("workflow_id", VStr workflow_id); ("error", VStr (str_exc e))] ;;;
         raise e)
  else
    raise (ResourceNotFoundError
      ("Workflow " +:+ workflow_id +:+ " not found") "workflow" workflow_id).

(** ** Health monitoring *)

(** [health_status["status"] == "healthy"] *)
Definition is_healthy (v : Value) : bool :=
  match v with
  | VStr s => String.eqb s "healthy"
  | _ => false
  end.

Definition update_registration (agent_id : string)
    (f : AgentRegistration.t → AgentRegistration.t) : M AgentManager unit :=
  modify (set_agents (alter f agent_id)).

(** The body of [for agent_id, registration in self.agents.items()]. *)
Definition check_agent (_ : unit) (item : string * AgentRegistration.t)
    : M AgentManager unit :=
  let '(agent_id, registration) := item in
  try_except
    (health_status <- await (health_check (AgentRegistration.agent_instance registration)) ;;
     match dict_lookup "status" health_status with
     | None => raise (KeyError "status")
     | Some st =>
         if is_healthy st then
           now <- utcnow ;;
           update_registration agent_id
             (AgentRegistration.set_last_heartbeat now ∘ AgentRegistration.set_status "active")
         else
           update_registration agent_id (AgentRegistration.set_status "error") ;;;
           logger "warning" "Agent health check failed"
             [("agent_id", VStr agent_id); ("status", st)]
     end)
    (λ e,
       update_registration agent_id (AgentRegistration.set_status "error") ;;;
       logger "error" "Agent health check error"
         [("agent_id", VStr agent_id); ("error", VStr (str_exc e))]).

(** One cycle of the monitor: the [for] loop over all registrations. *)
Definition health_check_cycle : M AgentManager unit :=
  mgr <- get ;;
  for_each (map_to_list (agents mgr)) check_agent tt.

(** [while self.running: ...]; [fuel] bounds the number of cycles. *)
Fixpoint _health_check_loop (fuel : nat) : M AgentManager unit :=
  match fuel with
  | O => out_of_fuel
  | S fuel' =>
      mgr <- get ;;
      if running mgr then
        try_except
          (health_check_cycle ;;; sleep)
          (λ e,
             logger "error" "Health check loop error" [("error", VStr (str_exc e))] ;;;
             sleep) ;;;
        _health_check_loop fuel'
      else ret tt
  end.

(** ** Start and stop *)

Definition set_running (v : bool) (m : AgentManager) : AgentManager :=
  {| agents := agents m; agent_types := agent_types m; workflows := workflows m;
     communication_manager := communication_manager m; running := v;
     dispatched := dispatched m |}.

(** [start]: the health-check task it creates is a concurrent
    activity. *)
Definition start : M AgentManager unit :=
  modify (set_running true) ;;;
  on_communication_manager communication.start.

(** [stop]: cancelling the health-check task changes nothing in the
    state; the loop is over [list(self.agents.keys())]. *)
Definition stop : M AgentManager unit :=
  modify (set_running false) ;;;
  mgr <- get ;;
  for_each (elements (dom (agents mgr))) (λ _ agent_id, unregister_agent agent_id) tt ;;;
  on_communication_manager communication.stop.

(** ** Status reports *)

(** [t.isoformat()]: the text of a reading of the clock. *)
Definition isoformat (t : nat) : string := pretty t.

(** The dictionary [get_agent_status] returns. *)
Record AgentStatus := {
  status_agent_id : string;
  status_agent_type : string;
  status_status : string;
  status_capabilities : Value;
  status_registered_at : string;
  status_last_heartbeat : string;
  status_config : AgentConfig.t
}.

Definition get_agent_status (agent_id : string) : M AgentManager (option AgentStatus) :=
  mgr <- get ;;
  if bool_decide (agent_id ∈ dom (agents mgr)) then
    registration <- subscript (agents mgr) agent_id ;;
    ret (Some
      {| status_agent_id := agent_id;
         status_agent_type := AgentRegistration.agent_type registration;
         status_status := AgentRegistration.status registration;
         status_capabilities := AgentRegistration.capabilities registration;
         status_registered_at := isoformat (AgentRegistration.registered_at registration);
         status_last_heartbeat := isoformat (AgentRegistration.last_heartbeat registration);
         status_config := AgentRegistration.config registration |})
  else ret None.

(** [w.status in ["pending", "running"]] *)
Definition is_active (workflow : Workflow.t) : bool :=
  bool_decide (Workflow.status workflow ∈ ["pending"; "running"]).

(** The dictionary [get_system_status] returns. *)
Record SystemStatus := {
  status_running : bool;
  total_agents : nat;
  agent_type_counts : gmap string nat;
  active_workflows : nat;
  communication_status : communication.SystemStatus
}.

Definition get_system_status : M AgentManager SystemStatus :=
  mgr <- get ;;
  ret {| status_running := running mgr;
         total_agents := size (agents mgr);
         agent_type_counts := size <$> agent_types mgr;
         active_workflows := length (filter is_active (map_to_list (workflows mgr)).*2);
         communication_status :=
           communication.get_system_status (communication_manager mgr) |}.

End agent_manager.

(** * [agents/base_agent.py]: the methods of the class [BaseAgent] *)

(** [bool(v)] *)
Definition truthy (v : Value) : bool :=
  match v with
  | VNone => false
  | VBool b => b
  | VInt z => negb (z =? 0)%Z
  | VStr s => negb (String.eqb s "")
  | VList l => match l with [] => false | _ => true end
  | VDict d => match d with [] => false | _ => true end
  end.

(** [type(e).__name__] *)
Definition type_name (e : Exc) : string :=
  match e with
  | Exception _ => "Exception"
  | KeyError _ => "KeyError"
  | TimeoutError => "TimeoutError"
  | ForeignError cls _ => cls
  | AgentError _ => "AgentError"
  | AgentCommunicationError _ => "AgentCommunicationError"
  | AgentTimeoutError _ _ _ => "AgentTimeoutError"
  | ResourceNotFoundError _ _ _ => "ResourceNotFoundError"
  end.

(** [ValidationError(message)] of [core/exceptions.py]: its [str] is
    the message, since it carries no details. *)
Definition ValidationError (message : string) : Exc :=
  ForeignError "ValidationError" message.

(** [float(n)] for a count [n]: the nearest double. *)
Definition float_of_nat (n : nat) : PrimFloat.float :=
  FloatOps.SF2Prim
    (SpecFloat.binary_normalize FloatOps.prec FloatOps.emax (Z.of_nat n) 0 false).

(** [(t' - t).total_seconds()], a unit of the clock taken as a second. *)
Definition total_seconds (t t' : nat) : PrimFloat.float := float_of_nat (t' - t).

Module agent_class.

(** The fields of [AgentConfig] that the methods of the class read. *)
Module AgentConfig.
Record t := {
  agent_id : string;
  name : string;
  description : string;
  model : string;
  enabled : bool;
  version : string
}.
End AgentConfig.

Module AgentResponse.
Record t := {
  success : bool;
  data : option Dict;
  error : option string;
  metadata : Dict;
  timestamp : nat;
  agent_id : string;
  processing_time : option PrimFloat.float
}.

(** [AgentResponse(success=..., data=..., error=..., metadata=...,
    agent_id=..., processing_time=...)]: [data] is checked to be a
    dictionary or [None]; [timestamp] is a reading of the clock. *)
Definition new {S} (success : bool) (data : Value) (error : option string)
    (metadata : Dict) (agent_id : string) (processing_time : PrimFloat.float) : M S t :=
  match data with
  | VNone | VDict _ =>
      timestamp <- utcnow ;;
      ret {| success := success;
             data := match data with VDict d => Some d | _ => None end;
             error := error; metadata := metadata; timestamp := timestamp;
             agent_id := agent_id; processing_time := Some processing_time |}
  | _ => raise (pydantic_ValidationError "AgentResponse" "data")
  end.
End AgentResponse.

(** [self.stats]: the counters start at 0 and are only incremented. *)
Module Stats.
Record t := {
  total_requests : nat;
  successful_requests : nat;
  failed_requests : nat;
  average_response_time : PrimFloat.float;
  last_request_time : option nat
}.

Definition set_total_requests (f : nat → nat) (s : t) : t :=
  {| total_requests := f (total_requests s);
     successful_requests := successful_requests s;
     failed_requests := failed_requests s;
     average_response_time := average_response_time s;
     last_request_time := last_request_time s |}.

Definition set_successful_requests (f : nat → nat) (s : t) : t :=
  {| total_requests := total_requests s;
     successful_requests := f (successful_requests s);
     failed_requests := failed_requests s;
     average_response_time := average_response_time s;
     last_request_time := last_request_time s |}.

Definition set_failed_requests (f : nat → nat) (s : t) : t :=
  {| total_requests := total_requests s;
     successful_requests := successful_requests s;
     failed_requests := f (failed_requests s);
     average_response_time := average_response_time s;
     last_request_time := last_request_time s |}.

Definition set_average_response_time (v : PrimFloat.float) (s : t) : t :=
  {| total_requests := total_requests s;
     successful_requests := successful_requests s;
     failed_requests := failed_requests s;
     average_response_time := v;
     last_request_time := last_request_time s |}.

Definition set_last_request_time (v : option nat) (s : t) : t :=
  {| total_requests := total_requests s;
     successful_requests := successful_requests s;
     failed_requests := failed_requests s;
     average_response_time := average_response_time s;
     last_request_time := v |}.
End Stats.

(** What a subclass provides: the abstract methods and the hook
    [_cleanup], all foreign code, asked at the clock of the call.
    [_process_request_impl] may answer any value, whatever its
    annotation says.  The methods are taken to leave the attributes of
    the base class ([config], [stats], [_is_healthy]) alone. *)
Record Subclass := {
  class_name : string;
  _process_request_impl : nat → Value → option Value → Outcome Value;
  _get_supported_operations : list string;
  _cleanup : nat → Outcome unit
}.

(** The attributes of an instance. *)
Record Agent := {
  config : AgentConfig.t;
  stats : Stats.t;
  _is_healthy : bool
}.

Definition set_stats (f : Stats.t → Stats.t) (a : Agent) : Agent :=
  {| config := config a; stats := f (stats a); _is_healthy := _is_healthy a |}.

Definition set__is_healthy (v : bool) (a : Agent) : Agent :=
  {| config := config a; stats := stats a; _is_healthy := v |}.

Definition __init__ (config : AgentConfig.t) : Agent :=
  {| config := config;
     stats := {| Stats.total_requests := 0; Stats.successful_requests := 0;
                 Stats.failed_requests := 0;
                 Stats.average_response_time := PrimFloat.zero;
                 Stats.last_request_time := None |};
     _is_healthy := true |}.

Definition start : M Agent unit := modify (set__is_healthy true).

Definition _validate_request (request : Value) (context : option Value) : M Agent Value :=
  if truthy request then ret request
  else raise (ValidationError "Request cannot be empty").

Definition _update_stats (success : bool) (start_time : nat) : M Agent unit :=
  modify (set_stats (Stats.set_total_requests S)) ;;;
  (if success then modify (set_stats (Stats.set_successful_requests S))
   else modify (set_stats (Stats.set_failed_requests S))) ;;;
  now <- utcnow ;;
  modify (set_stats (Stats.set_last_request_time (Some now))) ;;;
  now <- utcnow ;;
  let processing_time := total_seconds start_time now in
  a <- get ;;
  let current_avg := Stats.average_response_time (stats a) in
  let total_requests := Stats.total_requests (stats a) in
  modify (set_stats (Stats.set_average_response_time
    (PrimFloat.div
       (PrimFloat.add (PrimFloat.mul current_avg (float_of_nat (total_requests - 1)))
          processing_time)
       (float_of_nat total_requests)))).

Definition process_request (sub : Subclass) (request : Value) (context : option Value)
    : M Agent AgentResponse.t :=
  start_time <- utcnow ;;
  request_id <- uuid4 ;;
  try_except
    (validated_request <- _validate_request request context ;;
     result <- await (λ t, _process_request_impl sub t validated_request context) ;;
     _update_stats true start_time ;;;
     a <- get ;;
     now <- utcnow ;;
     AgentResponse.new true result None
       [("request_id", VStr request_id);
        ("agent_version", VStr (AgentConfig.version (config a)));
        ("model_used", VStr (AgentConfig.model (config a)))]
       (AgentConfig.agent_id (config a)) (total_seconds start_time now))
    (λ e,
       _update_stats false start_time ;;;
       logger "error" "Request processing failed"
         [("request_id", VStr request_id); ("error", VStr (str_exc e));
          ("error_type", VStr (type_name e))] ;;;
       a <- get ;;
       now <- utcnow ;;
       AgentResponse.new false VNone (Some (str_exc e))
         [("request_id", VStr request_id);
          ("error_type", VStr (type_name e));
          ("agent_version", VStr (AgentConfig.version (config a)))]
         (AgentConfig.agent_id (config a)) (total_seconds start_time now)).

(** The dictionary [health_check] returns. *)
Record HealthReport := {
  health_agent_id : string;
  health_name : string;
  health_status : string;
  health_enabled : bool;
  health_version : string;
  health_stats : Stats.t;
  health_timestamp : string
}.

Definition health_check : M Agent HealthReport :=
  a <- get ;;
  now <- utcnow ;;
  ret {| health_agent_id := AgentConfig.agent_id (config a);
         health_name := AgentConfig.name (config a);
         health_status := if _is_healthy a then "healthy" else "unhealthy";
         health_enabled := AgentConfig.enabled (config a);
         health_version := AgentConfig.version (config a);
         health_stats := stats a;
         health_timestamp := agent_manager.isoformat now |}.

(** The dictionary [get_capabilities] returns. *)
Record Capabilities := {
  capabilities_agent_id : string;
  capabilities_name : string;
  capabilities_description : string;
  supported_operations : list string;
  capabilities_version : string
}.

Definition get_capabilities (sub : Subclass) : M Agent Capabilities :=
  a <- get ;;
  ret {| capabilities_agent_id := AgentConfig.agent_id (config a);
         capabilities_name := AgentConfig.name (config a);
         capabilities_description := AgentConfig.description (config a);
         supported_operations := _get_supported_operations sub;
         capabilities_version := AgentConfig.version (config a) |}.

Definition shutdown (sub : Subclass) : M Agent unit :=
  modify (set__is_healthy false) ;;;
  await (_cleanup sub).

Definition __str__ (sub : Subclass) (a : Agent) : string :=
  class_name sub +:+ "(" +:+ AgentConfig.name (config a) +:+ ")".

End agent_class.

(** * [core/exceptions.py]: the classes of [ERROR_MAPPING] and [create_error] *)

Module exceptions.

Inductive ErrorClass :=
| AgentError
| AgentTimeoutError
| AgentCommunicationError
| AgentInitializationError
| AgentConfigurationError
| ValidationError
| DataSourceError
| WorkflowError
| WorkflowTimeoutError
| WorkflowValidationError
| AuthenticationError
| AuthorizationError
| RateLimitError
| ResourceNotFoundError
| DatabaseError
| ExternalServiceError
| ModelError
| ConfigurationError
| SerializationError.

(** The class attribute [ERROR_CODE]. *)
Definition ERROR_CODE (cls : ErrorClass) : string :=
  match cls with
  | AgentError => "AGENT_ERROR"
  | AgentTimeoutError => "AGENT_TIMEOUT"
  | AgentCommunicationError => "AGENT_COMMUNICATION_ERROR"
  | AgentInitializationError => "AGENT_INITIALIZATION_ERROR"
  | AgentConfigurationError => "AGENT_CONFIGURATION_ERROR"
  | ValidationError => "VALIDATION_ERROR"
  | DataSourceError => "DATA_SOURCE_ERROR"
  | WorkflowError => "WORKFLOW_ERROR"
  | WorkflowTimeoutError => "WORKFLOW_TIMEOUT"
  | WorkflowValidationError => "WORKFLOW_VALIDATION_ERROR"
  | AuthenticationError => "AUTHENTICATION_ERROR"
  | AuthorizationError => "AUTHORIZATION_ERROR"
  | RateLimitError => "RATE_LIMIT_ERROR"
  | ResourceNotFoundError => "RESOURCE_NOT_FOUND"
  | DatabaseError => "DATABASE_ERROR"
  | ExternalServiceError => "EXTERNAL_SERVICE_ERROR"
  | ModelError => "MODEL_ERROR"
  | ConfigurationError => "CONFIGURATION_ERROR"
  | SerializationError => "SERIALIZATION_ERROR"
  end.

(** An instance: what [AgentSystemError.__init__] sets, and the
    attributes the [__init__] of the class adds. *)
Record Instance := {
  __class__ : ErrorClass;
  message : string;
  details : Value;
  error_code : string;
  attributes : gmap string Value
}.

Definition setattr (name : string) (value : Value) (self : Instance) : Instance :=
  {| __class__ := __class__ self; message := message self; details := details self;
     error_code := error_code self;
     attributes := <[name := value]> (attributes self) |}.

(** [AgentSystemError.__init__(self, message, details)]; every class of
    [ERROR_MAPPING] has an [ERROR_CODE], so that [getattr] finds it. *)
Definition AgentSystemError__init__ (cls : ErrorClass) (message : string) (details : Value)
    : Instance :=
  {| __class__ := cls;
     message := message;
     details := if truthy details then details else VDict [];
     error_code := ERROR_CODE cls;
     attributes := ∅ |}.

(** [WorkflowError.__init__(self, message, workflow_id, step)] *)
Definition WorkflowError__init__ (cls : ErrorClass) (message : string)
    (workflow_id step : Value) : Instance :=
  setattr "step" step
    (setattr "workflow_id" workflow_id (AgentSystemError__init__ cls message VNone)).

(** The parameters of the [__init__] a class has or inherits, after
    [self] and [message]: the name, and whether it has a default (which
    is [None] for each that has one). *)
Definition parameters (cls : ErrorClass) : list (string * bool) :=
  match cls with
  | AgentError | AgentCommunicationError | AgentInitializationError
  | AgentConfigurationError => [("details", true)]
  | AgentTimeoutError => [("timeout_seconds", false); ("details", true)]
  | ValidationError => [("field", true); ("value", true)]
  | DataSourceError => [("source", false); ("details", true)]
  | WorkflowError | WorkflowValidationError => [("workflow_id", false); ("step", true)]
  | WorkflowTimeoutError => [("workflow_id", false); ("timeout_seconds", false)]
  | AuthenticationError => [("user_id", true)]
  | AuthorizationError => [("user_id", false); ("required_permission", false)]
  | RateLimitError => [("retry_after", true)]
  | ResourceNotFoundError => [("resource_type", false); ("resource_id", false)]
  | DatabaseError => [("operation", false); ("table", true)]
  | ExternalServiceError => [("service", false); ("status_code", true)]
  | ModelError => [("model", false); ("operation", false)]
  | ConfigurationError => [("config_key", true)]
  | SerializationError => [("data_type", false); ("operation", false)]
  end.

(** The body of the [__init__] of a class, [arg] giving the value bound
    to each parameter. *)
Definition __init__ (cls : ErrorClass) (message : string) (arg : string → Value) : Instance :=
  match cls with
  | AgentError | AgentCommunicationError | AgentInitializationError
  | AgentConfigurationError =>
      AgentSystemError__init__ cls message (arg "details")
  | AgentTimeoutError =>
      setattr "timeout_seconds" (arg "timeout_seconds")
        (AgentSystemError__init__ cls message (arg "details"))
  | ValidationError =>
      setattr "value" (arg "value")
        (setattr "field" (arg "field") (AgentSystemError__init__ cls message VNone))
  | DataSourceError =>
      setattr "source" (arg "source") (AgentSystemError__init__ cls message (arg "details"))
  | WorkflowError | WorkflowValidationError =>
      WorkflowError__init__ cls message (arg "workflow_id") (arg "step")
  | WorkflowTimeoutError =>
      setattr "timeout_seconds" (arg "timeout_seconds")
        (WorkflowError__init__ cls message (arg "workflow_id") VNone)
  | AuthenticationError =>
      setattr "user_id" (arg "user_id") (AgentSystemError__init__ cls message VNone)
  | AuthorizationError =>
      setattr "required_permission" (arg "required_permission")
        (setattr "user_id" (arg "user_id") (AgentSystemError__init__ cls message VNone))
  | RateLimitError =>
      setattr "retry_after" (arg "retry_after") (AgentSystemError__init__ cls message VNone)
  | ResourceNotFoundError =>
      setattr "resource_id" (arg "resource_id")
        (setattr "resource_type" (arg "resource_type")
           (AgentSystemError__init__ cls message VNone))
  | DatabaseError =>
      setattr "table" (arg "table")
        (setattr "operation" (arg "operation") (AgentSystemError__init__ cls message VNone))
  | ExternalServiceError =>
      setattr "status_code" (arg "status_code")
        (setattr "service" (arg "service") (AgentSystemError__init__ cls message VNone))
  | ModelError =>
      setattr "operation" (arg "operation")
        (setattr "model" (arg "model") (AgentSystemError__init__ cls message VNone))
  | ConfigurationError =>
      setattr "config_key" (arg "config_key") (AgentSystemError__init__ cls message VNone)
  | SerializationError =>
      setattr "operation" (arg "operation")
        (setattr "data_type" (arg "data_type") (AgentSystemError__init__ cls message VNone))
  end.

(** What [create_error] raises: [ValueError] with its text, or the
    [TypeError] of a call whose arguments do not fit the parameters. *)
Inductive Raised :=
| ValueError (msg : string)
| TypeError.

(** Whether the keywords of a call fit the parameters: each names a
    parameter, and each parameter without default is named. *)
Definition fits (params : list (string * bool)) (kwargs : gmap string Value) : bool :=
  bool_decide (dom kwargs ⊆ list_to_set params.*1)
  && forallb (λ p : string * bool, p.2 || bool_decide (is_Some (kwargs !! p.1))) params.

(** The call [cls(message, **kwargs)]. *)
Definition new (cls : ErrorClass) (message : string) (kwargs : gmap string Value)
    : Raised + Instance :=
  if fits (parameters cls) kwargs then
    inr (__init__ cls message (λ name, default VNone (kwargs !! name)))
  else inl TypeError.

Definition ERROR_MAPPING : gmap string ErrorClass :=
  list_to_map
    [("AGENT_ERROR", AgentError);
     ("AGENT_TIMEOUT", AgentTimeoutError);
     ("AGENT_COMMUNICATION_ERROR", AgentCommunicationError);
     ("AGENT_INITIALIZATION_ERROR", AgentInitializationError);
     ("AGENT_CONFIGURATION_ERROR", AgentConfigurationError);
     ("VALIDATION_ERROR", ValidationError);
     ("DATA_SOURCE_ERROR", DataSourceError);
     ("WORKFLOW_ERROR", WorkflowError);
     ("WORKFLOW_TIMEOUT", WorkflowTimeoutError);
     ("WORKFLOW_VALIDATION_ERROR", WorkflowValidationError);
     ("AUTHENTICATION_ERROR", AuthenticationError);
     ("AUTHORIZATION_ERROR", AuthorizationError);
     ("RATE_LIMIT_ERROR", RateLimitError);
     ("RESOURCE_NOT_FOUND", ResourceNotFoundError);
     ("DATABASE_ERROR", DatabaseError);
     ("EXTERNAL_SERVICE_ERROR", ExternalServiceError);
     ("MODEL_ERROR", ModelError);
     ("CONFIGURATION_ERROR", ConfigurationError);
     ("SERIALIZATION_ERROR", SerializationError)].

(** [create_error(error_code, message, **kwargs)].  A keyword named
    like one of the two parameters is refused by the call itself. *)
Definition create_error (error_code message : string) (kwargs : gmap string Value)
    : Raised + Instance :=
  if bool_decide (is_Some (kwargs !! "error_code") ∨ is_Some (kwargs !! "message")) then
    inl TypeError
  else
    match ERROR_MAPPING !! error_code with
    | None => inl (ValueError ("Unknown error code: " +:+ error_code))
    | Some exception_class => new exception_class message kwargs
    end.

End exceptions.

(** * Well-formedness conditions and example inputs *)

Section specification.

Import communication.

(** Every registered endpoint has its inbound queue, and conversely. *)
Definition endpoints_have_queues (cm : CommunicationManager) : Prop :=
  dom (agents cm) = dom (message_queues cm).

(** A handler that answers nothing. *)
Definition silent_handler : MessageHandler :=
  {| handle_message := λ _ _, Returns None |}.

(** The bus after registering the endpoints [ids] in turn. *)
Definition bus_of (ids : list string) : CommunicationManager :=
  (for_each ids (λ _ a, register_agent a silent_handler) tt world0 init).2.

Definition example_message (sender : string) (recipient : option string) : Message :=
  {| message_id := "m-1"; sender_id := sender; recipient_id := recipient;
     message_type := TASK_REQUEST; priority := NORMAL; timestamp := 0;
     correlation_id := None; payload := VDict []; metadata := VDict [] |}.

(** Three endpoints, two of them subscribed to the topic ["t"]. *)
Definition bus_with_topic : CommunicationManager :=
  ((subscribe_to_event "a" "t" ;;; subscribe_to_event "b" "t")
     world0 (bus_of ["a"; "b"; "c"])).2.

(** A fresh bus on which ["ghost"], never registered as an endpoint,
    subscribed to the topic ["t"]. *)
Definition bus_with_ghost : CommunicationManager :=
  (subscribe_to_event "ghost" "t" world0 init).2.

End specification.

Section registry_specification.

Import base_agent agent_manager.

(** The category index only lists registered agents, each under its own
    category. *)
Definition registry_consistent (mgr : AgentManager) : Prop :=
  ∀ category members a,
    agent_types mgr !! category = Some members → a ∈ members →
    ∃ registration,
      agents mgr !! a = Some registration
      ∧ AgentRegistration.agent_type registration = category.

(** The members of a category, as the index has them. *)
Definition category_members (mgr : AgentManager) (agent_type : string) : gset string :=
  default ∅ (agent_types mgr !! agent_type).

(** The error [query_agent] raises when it finds no agent. *)
Definition no_agents_error (agent_type : string) : Exc :=
  ResourceNotFoundError
    ("No agents of type '" +:+ agent_type +:+ "' available") "agent_type" agent_type.


(** The effect of one health check, answered [o], on a registration;
    [now] is the time just after the answer. *)
Definition health_transition (o : Outcome Dict) (now : nat) (r : AgentRegistration.t)
    : AgentRegistration.t :=
  match o with
  | Returns health_status =>
      match dict_lookup "status" health_status with
      | Some st =>
          if is_healthy st
          then AgentRegistration.set_last_heartbeat now
                 (AgentRegistration.set_status "active" r)
          else AgentRegistration.set_status "error" r
      | None => AgentRegistration.set_status "error" r
      end
  | Throws _ => AgentRegistration.set_status "error" r
  end.

(** An agent of the test suite: it fails the task ["fail"] and succeeds
    at every other one, takes one second to answer, and reports the
    health it is given. *)
Definition test_agent (id : string) (health : string) : BaseAgent :=
  {| config := {| AgentConfig.agent_id := id; AgentConfig.name := id;
                  AgentConfig.timeout := 60 |};
     process_request := λ _ query _,
       (1%nat,
        Returns
          match query with
          | VStr "fail" =>
              {| AgentResponse.success := false; AgentResponse.data := None;
                 AgentResponse.error := Some "boom"; AgentResponse.agent_id := id |}
          | _ =>
              {| AgentResponse.success := true; AgentResponse.data := Some (VDict []);
                 AgentResponse.error := None; AgentResponse.agent_id := id |}
          end);
     health_check := λ _, Returns [("agent_id", VStr id); ("status", VStr health)];
     get_capabilities := λ _, Returns [("supported_operations", VList [VStr "ok"])];
     shutdown := λ _, Returns tt;
     handle_message := λ _ _, Throws (ForeignError "AttributeError" "handle_message") |}.

(** The world and the manager after the coroutine [m] ran from the
    initial ones. *)
Definition after {A} (m : M AgentManager A) : World * AgentManager :=
  let '(_, w, mgr) := m world0 init in (w, mgr).

(** One agent of category ["x"], healthy. *)
Definition one_agent : World * AgentManager :=
  after (register_agent (test_agent "a1" "healthy") "x").


(** The agent of [one_agent] registered, then unregistered. *)
Definition one_agent_gone : World * AgentManager :=
  after (register_agent (test_agent "a1" "healthy") "x" ;;; unregister_agent "a1").

End registry_specification.

Section workflow_specification.

Import base_agent agent_manager.

(** A declared dependency of the step at position [i] is taken when it
    is an integer [d] with [0 ≤ d < i]. *)
Definition valid_index (i : nat) (v : Value) : bool :=
  isinstance_int v && bool_decide (0 ≤ int_value v < Z.of_nat i)%Z.

(** The id a declared dependency resolves to, given the ids of all the
    steps of the workflow in order. *)
Definition resolve (ids : list string) (i : nat) (v : Value) : option string :=
  if valid_index i v then ids !! Z.to_nat (int_value v) else None.

Definition resolved (ids : list string) (i : nat) (declared : list Value) : list string :=
  omap (resolve ids i) declared.

Definition invalid_dependency_warning (i total : nat) (v : Value) : LogEntry :=
  {| log_level := "warning"; log_event := "Invalid dependency index";
     log_fields := [("step_index", VInt (Z.of_nat i)); ("dependency_index", v);
                    ("total_steps", VInt (Z.of_nat total))] |}.

(** The warnings for the declared dependencies that are not taken. *)
Definition dropped_warnings (i total : nat) (declared : list Value) : list LogEntry :=
  invalid_dependency_warning i total
    <$> filter (λ v, valid_index i v = false) declared.

Definition declared_dependencies (step_def : StepDef.t) : list Value :=
  default [] (StepDef.dependencies step_def).

(** A definition entry that has the keys ["agent"] and ["task"]. *)
Definition has_keys (step_def : StepDef.t) : Prop :=
  is_Some (StepDef.agent step_def) ∧ is_Some (StepDef.task step_def).

#[global] Instance has_keys_dec step_def : Decision (has_keys step_def).
Proof. unfold has_keys. apply _. Defined.

(** The value given for the [data] of the step built from an entry:
    that of the key ["data"], or the empty dictionary. *)
Definition given_data (step_def : StepDef.t) : Value :=
  default (VDict []) (StepDef.data step_def).

(** A definition entry from which a step can be built: it has the two
    keys, and its ["data"], if any, is a dictionary. *)
Definition well_formed (step_def : StepDef.t) : Prop :=
  has_keys step_def ∧ is_dict (given_data step_def) = true.

#[global] Instance well_formed_dec step_def : Decision (well_formed step_def).
Proof. unfold well_formed. apply _. Defined.

(** The step built from the entry at position [i]. *)
Definition expected_step (ids : list string) (i : nat) (step_def : StepDef.t)
    : WorkflowStep.t :=
  {| WorkflowStep.step_id := default "" (ids !! i);
     WorkflowStep.agent_type := default "" (StepDef.agent step_def);
     WorkflowStep.task := default "" (StepDef.task step_def);
     WorkflowStep.data := default (VDict []) (StepDef.data step_def);
     WorkflowStep.dependencies := resolved ids i (declared_dependencies step_def);
     WorkflowStep.status := "pending";
     WorkflowStep.result := None;
     WorkflowStep.error := None;
     WorkflowStep.started_at := None;
     WorkflowStep.completed_at := None |}.

(** The world after [n] identifiers were drawn and [es] was logged. *)
Definition drawn_and_logged (n : nat) (es : list LogEntry) (w : World) : World :=
  {| clock := clock w; uuid_counter := uuid_counter w + n; log := log w ++ es |}.

(** The identifiers of the next [n] draws. *)
Definition fresh_ids (w : World) (n : nat) : list string :=
  uuid_str <$> seq (uuid_counter w) n.

(** All the warnings of a definition whose first entry is at position [n]. *)
Definition all_dropped_warnings (n total : nat) (l : list StepDef.t) : list LogEntry :=
  concat (imap (λ j step_def, dropped_warnings (n + j) total
                                (declared_dependencies step_def)) l).

(** The workflow built from a definition in the world [w]. *)
Definition expected_workflow (w : World) (defs : list StepDef.t) : Workflow.t :=
  {| Workflow.workflow_id := uuid_str (uuid_counter w + length defs);
     Workflow.name := "Workflow_" +:+ pretty (clock w);
     Workflow.description := "Generated workflow";
     Workflow.steps := imap (expected_step (fresh_ids w (length defs))) defs;
     Workflow.status := "pending";
     Workflow.created_at := clock w;
     Workflow.started_at := None;
     Workflow.completed_at := None;
     Workflow.metadata := VDict [] |}.

(** The ids of the steps of a workflow, in order. *)
Definition step_ids_of (workflow : Workflow.t) : list string :=
  WorkflowStep.step_id <$> Workflow.steps workflow.

Definition step_def (agent task : string) (dependencies : option (list Value)) : StepDef.t :=
  {| StepDef.agent := Some agent; StepDef.task := Some task; StepDef.data := None;
     StepDef.dependencies := dependencies |}.



(** A definition with every kind of declared dependency: taken ([0]
    and [1] at position 2, [False] at position 1), own position, out of
    range, negative, not an integer. *)
Definition lenient_definition : list StepDef.t :=
  [ step_def "x" "ok" (Some [VInt 0; VInt 1]);
    step_def "x" "ok" (Some [VBool false; VInt 1; VStr "0"]);
    step_def "x" "ok" (Some [VInt 0; VInt 1; VInt 2; VInt 7; VInt (-1); VNone]) ].

End workflow_specification.

Section execution_specification.

Import base_agent agent_manager.

(** The exception a coroutine ended with, if any. *)
Definition raised {A} (r : Result A) : option Exc :=
  match r with
  | Raise e => Some e
  | _ => None
  end.

(** The exception a dispatch ends the step with: the one [query_agent]
    raised, or the one made from a response without success. *)
Definition dispatch_exception (q : Result AgentResponse.t) : option Exc :=
  match q with
  | Ok response =>
      if AgentResponse.success response then None
      else Some (Exception ("Step failed: "
                            +:+ format_opt_str (AgentResponse.error response)))
  | Raise e => Some e
  | OutOfFuel => None
  end.

(** A dispatch whose step failed. *)
Definition failed_dispatch (ev : Dispatch) : Prop :=
  is_Some (dispatch_exception (ev_outcome ev)).

(** The step object after its dispatch at time [t] was answered [q] at
    time [t']. *)
Definition settled_step (q : Result AgentResponse.t) (t t' : nat) (step : WorkflowStep.t)
    : WorkflowStep.t :=
  let running :=
    WorkflowStep.set_started_at (Some t) (WorkflowStep.set_status "running" step) in
  match q with
  | Ok response =>
      if AgentResponse.success response then
        WorkflowStep.set_completed_at (Some t')
          (WorkflowStep.set_result (AgentResponse.data response)
             (WorkflowStep.set_status "completed" running))
      else
        WorkflowStep.set_completed_at (Some t')
          (WorkflowStep.set_error
             (Some ("Step failed: " +:+ format_opt_str (AgentResponse.error response)))
             (WorkflowStep.set_status "failed"
                (WorkflowStep.set_error (AgentResponse.error response)
                   (WorkflowStep.set_status "failed" running))))
  | Raise e =>
      WorkflowStep.set_completed_at (Some t')
        (WorkflowStep.set_error (Some (str_exc e))
           (WorkflowStep.set_status "failed" running))
  | OutOfFuel => running
  end.

(** What [run_step] returns after a dispatch answered [q]. *)
Definition step_result (q : Result AgentResponse.t) (step : WorkflowStep.t) (loc : Locals)
    : Result Locals :=
  match q with
  | Ok response =>
      if AgentResponse.success response then
        Ok (<[WorkflowStep.step_id step := AgentResponse.data response]> loc.1,
            {[WorkflowStep.step_id step]} ∪ loc.2)
      else
        Raise (Exception ("Step failed: "
                          +:+ format_opt_str (AgentResponse.error response)))
  | Raise e => Raise e
  | OutOfFuel => OutOfFuel
  end.

(** Every id in [completed_steps] is the id of a step whose status is
    ["completed"]. *)
Definition completed_are_completed (steps : list WorkflowStep.t)
    (completed_steps : gset string) : Prop :=
  ∀ d, d ∈ completed_steps →
    ∃ j s, steps !! j = Some s
           ∧ WorkflowStep.step_id s = d
           ∧ WorkflowStep.status s = "completed".

(** A dispatch made under the guard of the scan. *)
Definition dispatch_ok (workflow_id : string) (ev : Dispatch) : Prop :=
  ev_workflow_id ev = workflow_id
  ∧ (∃ step,
       ev_steps ev !! ev_index ev = Some step
       ∧ ready step (ev_completed ev) = true)
  ∧ completed_are_completed (ev_steps ev) (ev_completed ev).

(** No step of [steps] passes the guard of the scan. *)
Definition none_ready (steps : list WorkflowStep.t) (completed_steps : gset string) : bool :=
  forallb (λ step, negb (ready step completed_steps)) steps.

(** What holds between the manager before and after a piece of an
    execution of the workflow [workflow_id] that ended with the
    exception [x] (or without one): the dispatches it made were made
    under the guard; a step at a position without a dispatch is as it
    was; and a failed dispatch is the last, is what the piece raised,
    and left the steps as they were at that dispatch but for the failed
    step. *)
Definition run_post (workflow_id : string) (mgr : AgentManager) (x : option Exc)
    (mgr' : AgentManager) : Prop :=
  ∃ evs,
    dispatched mgr' = dispatched mgr ++ evs
    ∧ dom (workflows mgr') = dom (workflows mgr)
    ∧ Forall (dispatch_ok workflow_id) evs
    ∧ (∀ j, (∀ ev, ev ∈ evs → ev_index ev ≠ j) →
            steps_of workflow_id mgr' !! j = steps_of workflow_id mgr !! j)
    ∧ ∀ ev, ev ∈ evs → failed_dispatch ev →
        last evs = Some ev
        ∧ x = dispatch_exception (ev_outcome ev)
        ∧ ∃ t t',
            steps_of workflow_id mgr'
            = alter (settled_step (ev_outcome ev) t t') (ev_index ev) (ev_steps ev).

(** The steps of a workflow that was never executed: distinct ids, all
    pending, dependencies on earlier steps only. *)
Definition fresh_steps (steps : list WorkflowStep.t) : Prop :=
  NoDup (WorkflowStep.step_id <$> steps)
  ∧ ∀ i step,
      steps !! i = Some step →
      WorkflowStep.status step = "pending"
      ∧ ∀ d, d ∈ WorkflowStep.dependencies step →
          ∃ j earlier,
            j < i ∧ steps !! j = Some earlier ∧ WorkflowStep.step_id earlier = d.

(** The state of the first scan of such a workflow when it reaches
    position [k]: the steps before [k] are completed and are the
    members of [completed_steps], the others are as they were. *)
Definition scanned_to (k : nat) (steps : list WorkflowStep.t)
    (completed_steps : gset string) : Prop :=
  size completed_steps = k
  ∧ (∀ d, d ∈ completed_steps ↔
          ∃ j s, j < k ∧ steps !! j = Some s ∧ WorkflowStep.step_id s = d)
  ∧ NoDup (WorkflowStep.step_id <$> steps)
  ∧ ∀ i s,
      steps !! i = Some s →
      ((k ≤ i)%nat → WorkflowStep.status s = "pending")
      ∧ (i < k → WorkflowStep.status s = "completed")
      ∧ ∀ d, d ∈ WorkflowStep.dependencies s →
          ∃ j s', j < i ∧ steps !! j = Some s' ∧ WorkflowStep.step_id s' = d.

(** The abort-on-failure scenario: three steps, the second fails, the
    third depends on the second. *)
Definition abort_definition : list StepDef.t :=
  [ step_def "x" "ok" None; step_def "x" "fail" None; step_def "x" "ok" (Some [VInt 1]) ].

Definition abort_scenario : World * AgentManager :=
  after (register_agent (test_agent "a1" "healthy") "x" ;;;
         create_workflow abort_definition).

(** Its workflow is the one with the fourth identifier drawn. *)
Definition abort_run : Result (gmap string (option Value)) * World * AgentManager :=
  execute_workflow 3 (uuid_str 3) abort_scenario.1 abort_scenario.2.

(** The retry scenario: the first step fails, the third depends on
    it; the workflow is executed once, which fails. *)
Definition retry_definition : list StepDef.t :=
  [ step_def "x" "fail" None; step_def "x" "ok" None; step_def "x" "ok" (Some [VInt 0]) ].

Definition retry_scenario : World * AgentManager :=
  after (register_agent (test_agent "a1" "healthy") "x" ;;;
         create_workflow retry_definition ;;;
         try_except (execute_workflow 2 (uuid_str 3) ;;; ret tt) (λ _, ret tt)).

(** The second execution of its workflow, as it enters the loop, and
    the first scan of that loop with the locals it ends with. *)
Definition retry_running : AgentManager :=
  set_workflows
    (alter (Workflow.set_started_at (Some (clock retry_scenario.1))
            ∘ Workflow.set_status "running") (uuid_str 3)) retry_scenario.2.

Definition retry_first_scan : Result Locals * World * AgentManager :=
  scan (uuid_str 3) (∅, ∅) retry_scenario.1 retry_running.

Definition retry_locals : Locals :=
  match retry_first_scan.1.1 with
  | Ok loc => loc
  | _ => (∅, ∅)
  end.

(** The error of the deadlock check. *)
Definition deadlock_error : Exc :=
  Exception "Workflow deadlock detected - no progress possible".

End execution_specification.

Section bus_specification.

Import communication.

(** No topic is left with an empty set of subscribers. *)
Definition no_empty_topic (cm : CommunicationManager) : Prop :=
  ∀ event_type subs, subscriptions cm !! event_type = Some subs → subs ≠ ∅.

Definition bus_invariant (cm : CommunicationManager) : Prop :=
  endpoints_have_queues cm ∧ no_empty_topic cm.

(** A call of a method of the bus, or one turn of a processor. *)
Inductive BusCall :=
| call_register (agent_id : string) (handler : MessageHandler)
| call_unregister (agent_id : string)
| call_send (message : Message)
| call_publish (event_type : string) (data : Value) (sender : string)
| call_subscribe (agent_id event_type : string)
| call_unsubscribe (agent_id event_type : string)
| call_start
| call_stop
| call_process (agent_id : string) (handler : MessageHandler).

Definition bus_call (c : BusCall) : M CommunicationManager unit :=
  match c with
  | call_register agent_id handler => register_agent agent_id handler
  | call_unregister agent_id => unregister_agent agent_id
  | call_send message => send_message message ;;; ret tt
  | call_publish event_type data sender => publish_event event_type data sender
  | call_subscribe agent_id event_type => subscribe_to_event agent_id event_type
  | call_unsubscribe agent_id event_type => unsubscribe_from_event agent_id event_type
  | call_start => start
  | call_stop => stop
  | call_process agent_id handler => process_next agent_id handler
  end.

(** The world and the bus after the calls [calls], each made where the
    one before ended, whatever it answered. *)
Fixpoint bus_after (calls : list BusCall) (w : World) (cm : CommunicationManager)
    : World * CommunicationManager :=
  match calls with
  | [] => (w, cm)
  | c :: calls' => let '(_, w', cm') := bus_call c w cm in bus_after calls' w' cm'
  end.

(** What is left of a set of subscribers when [agent_id] leaves it: the
    entry of the topic goes when nobody is left. *)
Definition without (agent_id : string) (subs : gset string) : option (gset string) :=
  if decide (subs ∖ {[agent_id]} = ∅) then None else Some (subs ∖ {[agent_id]}).

(** Between [cm] and [cm'] nothing happened but deliveries: every queue
    of [cm'] is the queue of [cm] with at most one message appended. *)
Definition only_delivered (cm cm' : CommunicationManager) : Prop :=
  agents cm' = agents cm
  ∧ subscriptions cm' = subscriptions cm
  ∧ running cm' = running cm
  ∧ ∀ a, ∃ new,
      (length new ≤ 1)%nat
      ∧ message_queues cm' !! a = (λ q, q ++ new) <$> message_queues cm !! a.

(** [send_message] for each message of [ms] in turn, with the answers
    collected. *)
Definition send_all (ms : list Message) : M CommunicationManager (list bool) :=
  for_each ms (λ answers m, b <- send_message m ;; ret (answers ++ [b])) [].

(** The log entry of the processor for a handler that raised [e]. *)
Definition processing_error (agent_id : string) (message : Message) (e : Exc) : LogEntry :=
  {| log_level := "error"; log_event := "Error processing message";
     log_fields := [("agent_id", VStr agent_id); ("message_id", VStr (message_id message));
                    ("error", VStr (str_exc e))] |}.

(** The handler of the base class [MessageHandler]. *)
Definition abstract_handler : MessageHandler :=
  {| handle_message := λ _ _,
       Throws (ForeignError "NotImplementedError" "Subclasses must implement handle_message") |}.

End bus_specification.

Section manager_specification.

Import base_agent agent_manager.

(** A coroutine that, whatever it answers, takes a state to one related
    to it by [R]. *)
Definition preserves {S A} (R : S → S → Prop) (m : M S A) : Prop :=
  ∀ w s r w' s', m w s = (r, w', s') → R s s'.

(** Every registered agent is listed under its category. *)
Definition registry_complete (mgr : AgentManager) : Prop :=
  ∀ a registration,
    agents mgr !! a = Some registration →
    a ∈ category_members mgr (AgentRegistration.agent_type registration).

(** No category is left with an empty set of members. *)
Definition no_empty_category (mgr : AgentManager) : Prop :=
  ∀ category members, agent_types mgr !! category = Some members → members ≠ ∅.

(** The registered agents are the endpoints of the bus. *)
Definition bus_in_step (mgr : AgentManager) : Prop :=
  dom (agents mgr) = dom (communication.agents (communication_manager mgr)).

Definition manager_invariant (mgr : AgentManager) : Prop :=
  registry_consistent mgr
  ∧ registry_complete mgr
  ∧ no_empty_category mgr
  ∧ bus_in_step mgr
  ∧ bus_invariant (communication_manager mgr).

(** The [shutdown] of every registered agent returns. *)
Definition shutdowns_return (mgr : AgentManager) : Prop :=
  ∀ a registration t,
    agents mgr !! a = Some registration →
    shutdown (AgentRegistration.agent_instance registration) t = Returns tt.

(** [capabilities.get("supported_operations", [])] *)
Definition supported_operations_of (capabilities : Dict) : Value :=
  dict_get_default "supported_operations" (VList []) capabilities.

(** The registration [register_agent] makes of an agent that answered
    [capabilities] with a list of strings for its operations, when both
    readings of the clock give [now]. *)
Definition new_registration (agent : BaseAgent) (agent_type : string)
    (capabilities : Dict) (now : nat) : AgentRegistration.t :=
  {| AgentRegistration.agent_id := AgentConfig.agent_id (config agent);
     AgentRegistration.agent_type := agent_type;
     AgentRegistration.agent_instance := agent;
     AgentRegistration.config := config agent;
     AgentRegistration.capabilities :=
       dict_get_default "supported_operations" (VList []) capabilities;
     AgentRegistration.registered_at := now;
     AgentRegistration.last_heartbeat := now;
     AgentRegistration.status := "active" |}.

(** The category index without the agent [agent_id] of category
    [category]: the entry of the category goes with its last member. *)
Definition index_without (agent_id category : string) (types : gmap string (gset string))
    : gmap string (gset string) :=
  match types !! category with
  | Some ids =>
      if decide (ids ∖ {[agent_id]} = ∅) then delete category types
      else <[category := ids ∖ {[agent_id]}]> types
  | None => types
  end.

(** Two registrations that differ in [last_heartbeat] at most. *)
Definition heartbeat_only (r r' : AgentRegistration.t) : Prop :=
  ∃ t, r' = AgentRegistration.set_last_heartbeat t r.

(** Two registrations of the same agent under the same category. *)
Definition same_agent (r r' : AgentRegistration.t) : Prop :=
  AgentRegistration.agent_type r' = AgentRegistration.agent_type r
  ∧ AgentRegistration.agent_instance r' = AgentRegistration.agent_instance r.

(** Between [mgr] and [mgr'] nobody was registered or unregistered. *)
Definition registry_kept (mgr mgr' : AgentManager) : Prop :=
  agent_types mgr' = agent_types mgr
  ∧ communication_manager mgr' = communication_manager mgr
  ∧ ∀ a, option_Forall2 same_agent (agents mgr !! a) (agents mgr' !! a).

(** Two step objects with the same definition: they differ in status,
    result, error and times at most. *)
Definition same_definition (s s' : WorkflowStep.t) : Prop :=
  WorkflowStep.step_id s' = WorkflowStep.step_id s
  ∧ WorkflowStep.agent_type s' = WorkflowStep.agent_type s
  ∧ WorkflowStep.task s' = WorkflowStep.task s
  ∧ WorkflowStep.data s' = WorkflowStep.data s
  ∧ WorkflowStep.dependencies s' = WorkflowStep.dependencies s.

Definition same_workflow (x x' : Workflow.t) : Prop :=
  Workflow.workflow_id x' = Workflow.workflow_id x
  ∧ Workflow.name x' = Workflow.name x
  ∧ Workflow.description x' = Workflow.description x
  ∧ Workflow.created_at x' = Workflow.created_at x
  ∧ Workflow.metadata x' = Workflow.metadata x
  ∧ Forall2 same_definition (Workflow.steps x) (Workflow.steps x').

(** What an execution of the workflow [workflow_id] leaves alone. *)
Definition execution_frame (workflow_id : string) (mgr mgr' : AgentManager) : Prop :=
  agent_types mgr' = agent_types mgr
  ∧ communication_manager mgr' = communication_manager mgr
  ∧ running mgr' = running mgr
  ∧ (∀ a, option_Forall2 heartbeat_only (agents mgr !! a) (agents mgr' !! a))
  ∧ (∀ other, other ≠ workflow_id → workflows mgr' !! other = workflows mgr !! other)
  ∧ option_Forall2 same_workflow (workflows mgr !! workflow_id)
      (workflows mgr' !! workflow_id).

(** A call of a method of the manager, or a cycle of its monitor. *)
Inductive ManagerCall :=
| call_register_agent (agent : BaseAgent) (agent_type : string)
| call_unregister_agent (agent_id : string)
| call_query_agent (agent_type : string) (query : Value) (context : option Value)
    (timeout : option Z)
| call_create_workflow (workflow_definition : list StepDef.t)
| call_execute_workflow (fuel : nat) (workflow_id : string)
| call_health_check_cycle
| call_manager_start
| call_manager_stop.

Definition manager_call (c : ManagerCall) : M AgentManager unit :=
  match c with
  | call_register_agent agent agent_type => register_agent agent agent_type ;;; ret tt
  | call_unregister_agent agent_id => unregister_agent agent_id
  | call_query_agent agent_type query context timeout =>
      query_agent agent_type query context timeout ;;; ret tt
  | call_create_workflow workflow_definition =>
      create_workflow workflow_definition ;;; ret tt
  | call_execute_workflow fuel workflow_id => execute_workflow fuel workflow_id ;;; ret tt
  | call_health_check_cycle => health_check_cycle
  | call_manager_start => start
  | call_manager_stop => stop
  end.

Fixpoint manager_after (calls : list ManagerCall) (w : World) (mgr : AgentManager)
    : World * AgentManager :=
  match calls with
  | [] => (w, mgr)
  | c :: calls' => let '(_, w', mgr') := manager_call c w mgr in manager_after calls' w' mgr'
  end.

(** A call that registers no agent whose [shutdown] can raise. *)
Definition registers_quiet_agent (c : ManagerCall) : Prop :=
  match c with
  | call_register_agent agent _ => ∀ t, shutdown agent t = Returns tt
  | _ => True
  end.

(** An agent like [test_agent] whose [shutdown] raises until time 2. *)
Definition stubborn_agent (id : string) : BaseAgent :=
  {| config := config (test_agent id "healthy");
     process_request := process_request (test_agent id "healthy");
     health_check := health_check (test_agent id "healthy");
     get_capabilities := get_capabilities (test_agent id "healthy");
     shutdown := λ t, if (t <? 2)%nat then Throws (Exception "busy") else Returns tt;
     handle_message := handle_message (test_agent id "healthy") |}.

(** One such agent, of category ["x"]. *)
Definition one_stubborn_agent : World * AgentManager :=
  after (register_agent (stubborn_agent "a1") "x").

(** A session of the manager: an agent is registered, a workflow
    created and executed, and the manager stopped. *)
Definition example_session : list ManagerCall :=
  [ call_manager_start;
    call_register_agent (test_agent "a1" "healthy") "x";
    call_create_workflow abort_definition;
    call_execute_workflow 3 (uuid_str 3);
    call_health_check_cycle;
    call_manager_stop ].

(** The sum of the counts of a status report. *)
Definition sum_of_counts (counts : gmap string nat) : nat :=
  sum_list (map_to_list counts).*2.

End manager_specification.

Section workflow_execution_specification.

Import base_agent agent_manager.

(** The key whose absence makes the construction of the step fail:
    ["agent"] is read first. *)
Definition missing_key (step_def : StepDef.t) : string :=
  match StepDef.agent step_def with
  | Some _ => "task"
  | None => "agent"
  end.

(** A step the first scan of an execution cannot start: it is not
    pending, or it has a dependency. *)
Definition blocked (step : WorkflowStep.t) : Prop :=
  WorkflowStep.status step ≠ "pending" ∨ WorkflowStep.dependencies step ≠ [].

(** The stored workflow as [execute_workflow] leaves it: started at
    [t], ended at [t'] with the status [status]. *)
Definition executed (status : string) (t t' : nat) (workflow : Workflow.t) : Workflow.t :=
  Workflow.set_completed_at (Some t')
    (Workflow.set_status status
       (Workflow.set_started_at (Some t) (Workflow.set_status "running" workflow))).

(** The log entry of a failed execution. *)
Definition execution_failed (workflow_id : string) (e : Exc) : LogEntry :=
  {| log_level := "error"; log_event := "Workflow execution failed";
     log_fields := [("workflow_id", VStr workflow_id); ("error", VStr (str_exc e))] |}.

(** The local [results] holds the stored result of every step before
    position [k], under its id, and nothing else. *)
Definition results_to (k : nat) (steps : list WorkflowStep.t)
    (results : gmap string (option Value)) : Prop :=
  ∀ id v,
    results !! id = Some v ↔
    ∃ j s, j < k ∧ steps !! j = Some s
           ∧ WorkflowStep.step_id s = id ∧ WorkflowStep.result s = v.

(** A dispatch of the workflow [workflow_id] that was answered with
    success. *)
Definition succeeded (workflow_id : string) (ev : Dispatch) : Prop :=
  ev_workflow_id ev = workflow_id
  ∧ ∃ response, ev_outcome ev = Ok response ∧ AgentResponse.success response = true.

(** Between [mgr] and [mgr'] the status and the times of the workflow
    object [workflow_id] were not assigned. *)
Definition header_kept (workflow_id : string) (mgr mgr' : AgentManager) : Prop :=
  dom (workflows mgr') = dom (workflows mgr)
  ∧ Workflow.status <$> workflows mgr' !! workflow_id
    = Workflow.status <$> workflows mgr !! workflow_id
  ∧ Workflow.started_at <$> workflows mgr' !! workflow_id
    = Workflow.started_at <$> workflows mgr !! workflow_id
  ∧ Workflow.completed_at <$> workflows mgr' !! workflow_id
    = Workflow.completed_at <$> workflows mgr !! workflow_id.

(** A coroutine during which time does not go back. *)
Definition advances {S A} (m : M S A) : Prop :=
  ∀ w s r w' s', m w s = (r, w', s') → (clock w ≤ clock w')%nat.

(** The scenario of the abort, after its execution failed. *)
Definition abort_aftermath : World * AgentManager := (abort_run.1.2, abort_run.2).

(** One agent and a workflow of two steps, the second depending on the
    first, that both succeed. *)
Definition chain_definition : list StepDef.t :=
  [ step_def "x" "ok" None; step_def "x" "ok" (Some [VInt 0]) ].

Definition chain_scenario : World * AgentManager :=
  after (register_agent (test_agent "a1" "healthy") "x" ;;;
         create_workflow chain_definition).

Definition chain_run : Result (gmap string (option Value)) * World * AgentManager :=
  execute_workflow 2 (uuid_str 2) chain_scenario.1 chain_scenario.2.

End workflow_execution_specification.

Section agent_class_specification.

Import agent_class.

(** The counters of an instance add up. *)
Definition stats_add_up (a : Agent) : Prop :=
  Stats.total_requests (stats a)
  = Stats.successful_requests (stats a) + Stats.failed_requests (stats a).

(** A call of a method of an agent. *)
Inductive AgentCall :=
| call_agent_start
| call_process_request (request : Value) (context : option Value)
| call_health_check
| call_get_capabilities
| call_shutdown.

Definition agent_call (sub : Subclass) (c : AgentCall) : M Agent unit :=
  match c with
  | call_agent_start => start
  | call_process_request request context => process_request sub request context ;;; ret tt
  | call_health_check => health_check ;;; ret tt
  | call_get_capabilities => get_capabilities sub ;;; ret tt
  | call_shutdown => shutdown sub
  end.

Fixpoint agent_after (sub : Subclass) (calls : list AgentCall) (w : World) (a : Agent)
    : World * Agent :=
  match calls with
  | [] => (w, a)
  | c :: calls' =>
      let '(_, w', a') := agent_call sub c w a in agent_after sub calls' w' a'
  end.

(** Whether the last [start] or [shutdown] among the calls was a
    [start]; an agent is constructed started. *)
Definition started (calls : list AgentCall) : bool :=
  fold_left
    (λ healthy c,
       match c with
       | call_agent_start => true
       | call_shutdown => false
       | _ => healthy
       end)
    calls true.

Definition is_request (c : AgentCall) : bool :=
  match c with
  | call_process_request _ _ => true
  | _ => false
  end.

(** What [process_request] is about to do with a request: nothing if
    the request is empty, else what the implementation answers. *)
Definition attempt (sub : Subclass) (request : Value) (context : option Value) (t : nat)
    : Outcome Value :=
  if truthy request then _process_request_impl sub t request context
  else Throws (ValidationError "Request cannot be empty").

(** Between [a] and [a'] the count of the requests went up by
    [successes + failures], that of the successful ones by [successes]
    and that of the failed ones by [failures]. *)
Definition counted (successes failures : nat) (a a' : Agent) : Prop :=
  Stats.total_requests (stats a')
  = Stats.total_requests (stats a) + successes + failures
  ∧ Stats.successful_requests (stats a')
    = Stats.successful_requests (stats a) + successes
  ∧ Stats.failed_requests (stats a') = Stats.failed_requests (stats a) + failures.

(** A subclass whose implementation keeps to its annotation: it
    answers a dictionary (or [None], which the response accepts). *)
Definition answers_dictionaries (sub : Subclass) : Prop :=
  ∀ t request context result,
    _process_request_impl sub t request context = Returns result →
    result = VNone ∨ is_dict result = true.

End agent_class_specification.

(** * Properties *)

(** Unfolding of the monad's primitives. *)
Ltac unfold_coro :=
  unfold subscript, del_item, wait_for, await, sleep, logger, uuid4, utcnow,
    modify, get, try_except, bind, out_of_fuel, raise, ret in *.

Ltac coro_simpl := repeat (progress unfold_coro); cbn [fst snd] in *.

(** ** The construction of the models *)

Section construction_facts.

Import base_agent agent_manager.

Lemma AgentRegistration_new_eq {S} agent_id agent_type agent cfg capabilities w (s : S) :
  AgentRegistration.new agent_id agent_type agent cfg capabilities w s
  = if is_list_of_str capabilities then
      (Ok {| AgentRegistration.agent_id := agent_id;
             AgentRegistration.agent_type := agent_type;
             AgentRegistration.agent_instance := agent;
             AgentRegistration.config := cfg;
             AgentRegistration.capabilities := capabilities;
             AgentRegistration.registered_at := clock w;
             AgentRegistration.last_heartbeat := clock w;
             AgentRegistration.status := "active" |}, w, s)
    else (Raise (pydantic_ValidationError "AgentRegistration" "capabilities"), w, s).
Proof. unfold AgentRegistration.new. by destruct (is_list_of_str capabilities). Qed.

Lemma WorkflowStep_new_eq {S} step_id agent_type task data dependencies w (s : S) :
  WorkflowStep.new step_id agent_type task data dependencies w s
  = if is_dict data then
      (Ok {| WorkflowStep.step_id := step_id;
             WorkflowStep.agent_type := agent_type;
             WorkflowStep.task := task;
             WorkflowStep.data := data;
             WorkflowStep.dependencies := dependencies;
             WorkflowStep.status := "pending";
             WorkflowStep.result := None;
             WorkflowStep.error := None;
             WorkflowStep.started_at := None;
             WorkflowStep.completed_at := None |}, w, s)
    else (Raise (pydantic_ValidationError "WorkflowStep" "data"), w, s).
Proof. unfold WorkflowStep.new. by destruct (is_dict data). Qed.

End construction_facts.

(** ** The message bus *)

Section communication_facts.

Import communication.

Lemma queue_put_Some agent_id m w cm q :
  message_queues cm !! agent_id = Some q →
  queue_put agent_id m w cm
  = (Ok tt, w, set_message_queues (<[agent_id := q ++ [m]]>) cm).
Proof. intros Hq. unfold queue_put. coro_simpl. by rewrite Hq. Qed.

Lemma queue_put_None agent_id m w cm :
  message_queues cm !! agent_id = None →
  queue_put agent_id m w cm = (Raise (KeyError agent_id), w, cm).
Proof. intros Hq. unfold queue_put. coro_simpl. by rewrite Hq. Qed.

Lemma deliver_loop_ok p f l : ∀ w cm,
  NoDup l →
  (∀ a, a ∈ l → p a = true → is_Some (message_queues cm !! a)) →
  ∃ q',
    for_each l (deliver p f) tt w cm = (Ok tt, w, set_message_queues (λ _, q') cm)
    ∧ ∀ a, q' !! a =
        if decide (a ∈ l ∧ p a = true)
        then (λ q, q ++ [f a]) <$> message_queues cm !! a
        else message_queues cm !! a.
Proof.
  induction l as [|x l IH]; intros w cm Hnd Hq.
  - exists (message_queues cm). split.
    + by destruct cm.
    + intros a. case_decide as Ha; [|done]. destruct Ha as [Ha _]. by apply elem_of_nil in Ha.
  - apply NoDup_cons in Hnd as [Hx Hnd].
    cbn [for_each]. unfold bind at 1. unfold deliver at 1.
    destruct (p x) eqn:Hpx.
    + destruct (Hq x) as [q Hqx]; [left | done |].
      rewrite (queue_put_Some _ _ _ _ _ Hqx).
      destruct (IH w (set_message_queues (<[x := q ++ [f x]]>) cm) Hnd) as (q' & Hrun & Hq').
      { intros a Ha Hpa. cbn. destruct (decide (x = a)) as [->|Hne].
        - rewrite lookup_insert_eq. eauto.
        - rewrite lookup_insert_ne by done. apply Hq; [by right | done]. }
      exists q'. split; [by rewrite Hrun|].
      intros a. rewrite Hq'. cbn. destruct (decide (x = a)) as [->|Hne].
      * rewrite lookup_insert_eq, Hqx.
        rewrite decide_False by (intros [? _]; done).
        rewrite decide_True; [done | split; [left | done]].
      * rewrite lookup_insert_ne by done.
        destruct (decide (a ∈ l ∧ p a = true)) as [[Ha Hpa]|Hn].
        -- rewrite decide_True; [done | split; [by right | done]].
        -- rewrite decide_False; [done|].
           intros [Ha Hpa]. apply Hn. split; [|done].
           apply elem_of_cons in Ha as [->|Ha]; done.
    + unfold ret at 1.
      destruct (IH w cm Hnd) as (q' & Hrun & Hq').
      { intros a Ha Hpa. apply Hq; [by right | done]. }
      exists q'. split; [done|].
      intros a. rewrite Hq'.
      destruct (decide (a ∈ l ∧ p a = true)) as [[Ha Hpa]|Hn].
      * rewrite decide_True; [done | split; [by right | done]].
      * rewrite decide_False; [done|].
        intros [Ha Hpa]. apply Hn. split; [|done].
        apply elem_of_cons in Ha as [->|Ha]; [congruence | done].
Qed.

(** Whatever happens in a delivery loop, a recipient that [p] rejects
    keeps its queue, and only queues change. *)
Lemma deliver_loop_frame p f l : ∀ w cm r w' cm',
  for_each l (deliver p f) tt w cm = (r, w', cm') →
  w' = w ∧ agents cm' = agents cm ∧ subscriptions cm' = subscriptions cm
  ∧ ∀ a, p a = false → message_queues cm' !! a = message_queues cm !! a.
Proof.
  induction l as [|x l IH]; intros w cm r w' cm' Hrun.
  - cbn in Hrun. unfold ret in Hrun. by simplify_eq.
  - cbn [for_each] in Hrun. unfold bind at 1 in Hrun. unfold deliver at 1 in Hrun.
    destruct (p x) eqn:Hpx.
    + destruct (message_queues cm !! x) as [q|] eqn:Hqx.
      * rewrite (queue_put_Some _ _ _ _ _ Hqx) in Hrun.
        apply IH in Hrun as (-> & Hag & Hsub & Hqs).
        repeat split; [done..|].
        intros a Hpa. rewrite Hqs by done. cbn.
        apply lookup_insert_ne. congruence.
      * rewrite (queue_put_None _ _ _ _ Hqx) in Hrun. by simplify_eq.
    + unfold ret at 1 in Hrun. by apply IH in Hrun.
Qed.

(** A broadcast: every registered endpoint gets its copy. *)
Lemma broadcast_ok message w cm :
  endpoints_have_queues cm →
  truthy_opt_str (recipient_id message) = false →
  ∃ q',
    send_message message w cm = (Ok true, w, set_message_queues (λ _, q') cm)
    ∧ (∀ a, a ∈ dom (agents cm) →
         ∃ q, message_queues cm !! a = Some q
              ∧ q' !! a = Some (q ++ [copy_to a message]))
    ∧ (∀ a, a ∉ dom (agents cm) → q' !! a = message_queues cm !! a).
Proof.
  intros Hsync Hfalsy.
  destruct (deliver_loop_ok (λ _, true) (λ a, copy_to a message)
              (elements (dom (agents cm))) w cm) as (q' & Hrun & Hq').
  { apply NoDup_elements. }
  { intros a Ha _. apply elem_of_elements in Ha. rewrite Hsync in Ha.
    by apply elem_of_dom in Ha. }
  exists q'. split; [|split].
  - unfold send_message. rewrite Hfalsy.
    unfold try_except, bind at 1, get. unfold bind. rewrite Hrun. done.
  - intros a Ha. pose proof Ha as Ha'. rewrite Hsync in Ha'.
    apply elem_of_dom in Ha' as [q Hq]. exists q. split; [done|].
    rewrite Hq', Hq. rewrite decide_True; [done|].
    split; [by apply elem_of_elements | done].
  - intros a Ha. rewrite Hq'. rewrite decide_False; [done|].
    intros [Ha' _]. by apply elem_of_elements in Ha'.
Qed.

Lemma truthy_opt_str_Some rid : rid ≠ "" → truthy_opt_str (Some rid) = true.
Proof.
  intros Hne. cbn. destruct (String.eqb rid "") eqn:E; [|done].
  by apply String.eqb_eq in E.
Qed.

(** C7 (as amended): a message whose [recipient_id] is falsy ([None] or
    the empty string) is broadcast: [send_message] returns [True] and
    appends exactly one copy, with [recipient_id] rewritten to the
    endpoint's id, to the inbound queue of each registered endpoint, and
    touches nothing else; with a non-empty [recipient_id] that names no
    registered endpoint it returns [False] and leaves the manager as it
    was. *)
Theorem send_message_broadcast_or_reject message w cm :
  endpoints_have_queues cm →
  (truthy_opt_str (recipient_id message) = false →
     ∃ q',
       send_message message w cm = (Ok true, w, set_message_queues (λ _, q') cm)
       ∧ (∀ a, a ∈ dom (agents cm) →
            ∃ q, message_queues cm !! a = Some q
                 ∧ q' !! a = Some (q ++ [copy_to a message])
                 ∧ recipient_id (copy_to a message) = Some a)
       ∧ (∀ a, a ∉ dom (agents cm) → q' !! a = message_queues cm !! a))
  ∧ (∀ rid, recipient_id message = Some rid → rid ≠ "" → rid ∉ dom (agents cm) →
       ∃ w', send_message message w cm = (Ok false, w', cm)).
Proof.
  intros Hsync. split.
  - intros Hfalsy.
    destruct (broadcast_ok message w cm Hsync Hfalsy) as (q' & Hrun & Hin & Hout).
    exists q'. repeat split; [done | | done].
    intros a Ha. destruct (Hin a Ha) as (q & ? & ?). by exists q.
  - intros rid Hrid Hne Hnot.
    unfold send_message. rewrite Hrid, (truthy_opt_str_Some _ Hne). cbn [default].
    coro_simpl. rewrite bool_decide_eq_false_2 by done. eauto.
Qed.

(** The test scenario of the specification: three registered endpoints,
    one broadcast, three copies; and a direct message to an endpoint
    that was never registered. *)
Lemma send_message_broadcast_or_reject_witness :
  (∃ q',
     send_message (example_message "a" None) world0 (bus_of ["a"; "b"; "c"])
     = (Ok true, world0, set_message_queues (λ _, q') (bus_of ["a"; "b"; "c"]))
     ∧ (∀ a, a ∈ dom (agents (bus_of ["a"; "b"; "c"])) →
          ∃ q, message_queues (bus_of ["a"; "b"; "c"]) !! a = Some q
               ∧ q' !! a = Some (q ++ [copy_to a (example_message "a" None)])
               ∧ recipient_id (copy_to a (example_message "a" None)) = Some a)
     ∧ (∀ a, a ∉ dom (agents (bus_of ["a"; "b"; "c"])) →
          q' !! a = message_queues (bus_of ["a"; "b"; "c"]) !! a))
  ∧ (∃ w', send_message (example_message "a" (Some "z")) world0 (bus_of ["a"; "b"; "c"])
           = (Ok false, w', bus_of ["a"; "b"; "c"])).
Proof.
  split.
  - apply (send_message_broadcast_or_reject (example_message "a" None) world0
             (bus_of ["a"; "b"; "c"])); [by vm_compute | reflexivity].
  - apply (proj2 (send_message_broadcast_or_reject (example_message "a" (Some "z")) world0
                    (bus_of ["a"; "b"; "c"]) ltac:(by vm_compute)) "z");
      [reflexivity | done |].
    apply not_elem_of_dom. reflexivity.
Defined.

(** C7, the counterexample: the empty string is a set [recipient_id]
    that names no registered endpoint, yet [send_message] returns [True]
    and every endpoint receives a copy. *)
Lemma send_message_empty_recipient_is_broadcast :
  recipient_id (example_message "a" (Some "")) = Some ""
  ∧ ("" ∉ dom (agents (bus_of ["a"; "b"; "c"])))
  ∧ (send_message (example_message "a" (Some "")) world0 (bus_of ["a"; "b"; "c"])).1.1
    = Ok true
  ∧ (message_queues
       (send_message (example_message "a" (Some "")) world0 (bus_of ["a"; "b"; "c"])).2)
    !! "b"
    = Some [copy_to "b" (example_message "a" (Some ""))].
Proof.
  split; [reflexivity|]. split; [apply not_elem_of_dom; reflexivity|].
  split; reflexivity.
Qed.

(** [publish_event] when the topic has subscribers, each of which (the
    sender apart) has a queue. *)
Lemma publish_event_ok event_type data sender w cm subs :
  subscriptions cm !! event_type = Some subs →
  (∀ a, a ∈ subs → a ≠ sender → is_Some (message_queues cm !! a)) →
  let message :=
    event_message (uuid_str (uuid_counter w)) (clock w) event_type data sender in
  ∃ q',
    publish_event event_type data sender w cm
    = (Ok tt, next_uuid w, set_message_queues (λ _, q') cm)
    ∧ ∀ a, q' !! a =
        if decide (a ∈ subs ∧ a ≠ sender)
        then (λ q, q ++ [copy_to a message]) <$> message_queues cm !! a
        else message_queues cm !! a.
Proof.
  intros Hsubs Hq message.
  destruct (deliver_loop_ok (λ a, bool_decide (a ≠ sender)) (λ a, copy_to a message)
              (elements subs) (next_uuid w) cm) as (q' & Hrun & Hq').
  { apply NoDup_elements. }
  { intros a Ha Hpa. apply Hq; [by apply elem_of_elements|].
    by apply bool_decide_eq_true in Hpa. }
  exists q'. split.
  - unfold publish_event. unfold bind at 1, get. rewrite Hsubs.
    unfold bind, uuid4, utcnow. exact Hrun.
  - intros a. rewrite Hq'.
    destruct (decide (a ∈ subs ∧ a ≠ sender)) as [[Ha Hne]|Hn].
    + rewrite decide_True; [done|].
      split; [by apply elem_of_elements | by apply bool_decide_eq_true].
    + rewrite decide_False; [done|].
      intros [Ha Hpa]. apply Hn.
      split; [by apply elem_of_elements | by apply bool_decide_eq_true in Hpa].
Qed.

(** C9 (as amended): a broadcast reaches every registered endpoint, the
    sender included; [publish_event] never changes the sender's queue;
    when every subscriber of the topic other than the sender has an
    inbound queue it appends one copy of the event message to the queue
    of each of them and to no other queue; and when the topic has no
    subscription entry it changes nothing, not even the identifier
    supply. *)
Theorem publish_skips_sender_broadcast_does_not w cm :
  (∀ message,
     endpoints_have_queues cm →
     truthy_opt_str (recipient_id message) = false →
     sender_id message ∈ dom (agents cm) →
     ∃ q' q,
       send_message message w cm = (Ok true, w, set_message_queues (λ _, q') cm)
       ∧ message_queues cm !! sender_id message = Some q
       ∧ q' !! sender_id message = Some (q ++ [copy_to (sender_id message) message])
       ∧ (∀ a, a ∈ dom (agents cm) →
            ∃ qa, message_queues cm !! a = Some qa
                  ∧ q' !! a = Some (qa ++ [copy_to a message])))
  ∧ (∀ event_type data sender r w' cm',
       publish_event event_type data sender w cm = (r, w', cm') →
       message_queues cm' !! sender = message_queues cm !! sender)
  ∧ (∀ event_type data sender subs,
       subscriptions cm !! event_type = Some subs →
       (∀ a, a ∈ subs → a ≠ sender → is_Some (message_queues cm !! a)) →
       ∃ q',
         publish_event event_type data sender w cm
         = (Ok tt, next_uuid w, set_message_queues (λ _, q') cm)
         ∧ (∀ a, a ∈ subs → a ≠ sender →
              ∃ q, message_queues cm !! a = Some q
                   ∧ q' !! a =
                     Some (q ++ [copy_to a (event_message (uuid_str (uuid_counter w))
                                              (clock w) event_type data sender)]))
         ∧ (∀ a, ¬ (a ∈ subs ∧ a ≠ sender) → q' !! a = message_queues cm !! a))
  ∧ (∀ event_type data sender,
       subscriptions cm !! event_type = None →
       publish_event event_type data sender w cm = (Ok tt, w, cm)).
Proof.
  repeat split.
  - intros message Hsync Hfalsy Hsender.
    destruct (broadcast_ok message w cm Hsync Hfalsy) as (q' & Hrun & Hin & _).
    destruct (Hin _ Hsender) as (q & Hq & Hq').
    exists q', q. done.
  - intros event_type data sender r w' cm' Hrun.
    unfold publish_event in Hrun. unfold bind at 1, get in Hrun.
    destruct (subscriptions cm !! event_type) as [subs|].
    + unfold bind, uuid4, utcnow in Hrun.
      apply deliver_loop_frame in Hrun as (_ & _ & _ & Hqs).
      apply Hqs. apply bool_decide_eq_false. tauto.
    + unfold ret in Hrun. by simplify_eq.
  - intros event_type data sender subs Hsubs Hq.
    destruct (publish_event_ok event_type data sender w cm subs Hsubs Hq)
      as (q' & Hrun & Hq').
    exists q'. split; [done|]. split.
    + intros a Ha Hne. destruct (Hq a Ha Hne) as [q Hqa]. exists q. split; [done|].
      rewrite Hq', Hqa. by rewrite decide_True.
    + intros a Hn. rewrite Hq'. by rewrite decide_False.
  - intros event_type data sender Hnone.
    unfold publish_event. unfold bind, get. by rewrite Hnone.
Qed.

(** Two subscribers and the sender among them; and a topic nobody
    subscribed to. *)
Lemma publish_skips_sender_broadcast_does_not_witness :
  (∃ q',
     publish_event "t" VNone "a" world0 bus_with_topic
     = (Ok tt, next_uuid world0, set_message_queues (λ _, q') bus_with_topic)
     ∧ (∀ a, a ∈ ({["a"; "b"]} : gset string) → a ≠ "a" →
          ∃ q, message_queues bus_with_topic !! a = Some q
               ∧ q' !! a =
                 Some (q ++ [copy_to a (event_message (uuid_str (uuid_counter world0))
                                          (clock world0) "t" VNone "a")]))
     ∧ (∀ a, ¬ (a ∈ ({["a"; "b"]} : gset string) ∧ a ≠ "a") →
          q' !! a = message_queues bus_with_topic !! a))
  ∧ publish_event "u" VNone "a" world0 bus_with_topic = (Ok tt, world0, bus_with_topic).
Proof.
  pose proof (publish_skips_sender_broadcast_does_not world0 bus_with_topic)
    as (_ & _ & Hpub & Hnoop).
  split.
  - apply Hpub; [reflexivity|].
    intros a Ha _. apply elem_of_union in Ha as [Ha|Ha];
      apply elem_of_singleton in Ha; subst a; by eexists.
  - apply Hnoop. reflexivity.
Defined.

(** C9, the counterexample: a subscriber that is not a registered
    endpoint gets no copy; [publish_event] raises [KeyError]. *)
Lemma publish_event_unregistered_subscriber :
  subscriptions bus_with_ghost !! "t" = Some {["ghost"]}
  ∧ "ghost" ≠ "s"
  ∧ publish_event "t" VNone "s" world0 bus_with_ghost
    = (Raise (KeyError "ghost"), next_uuid world0, bus_with_ghost)
  ∧ message_queues bus_with_ghost !! "ghost" = None.
Proof. repeat split; done. Qed.

(** The condition under which broadcasts are stated is an invariant of
    the bus. *)
Lemma endpoints_have_queues_init : endpoints_have_queues init.
Proof. reflexivity. Qed.

Lemma endpoints_have_queues_register agent_id handler w cm r w' cm' :
  endpoints_have_queues cm →
  register_agent agent_id handler w cm = (r, w', cm') →
  endpoints_have_queues cm'.
Proof.
  unfold endpoints_have_queues, register_agent. intros Hsync Hrun.
  coro_simpl. case_bool_decide; simplify_eq; [done|].
  cbn. rewrite !dom_insert_L. by rewrite Hsync.
Qed.

Lemma drop_subscriber_loop_frame agent_id l : ∀ w cm r w' cm',
  for_each l (drop_subscriber agent_id) tt w cm = (r, w', cm') →
  agents cm' = agents cm ∧ message_queues cm' = message_queues cm.
Proof.
  induction l as [|x l IH]; intros w cm r w' cm' Hrun.
  - cbn in Hrun. unfold ret in Hrun. by simplify_eq.
  - cbn [for_each] in Hrun. unfold bind at 1 in Hrun.
    destruct (drop_subscriber agent_id tt x w cm) as [[r1 w1] cm1] eqn:Hstep.
    assert (agents cm1 = agents cm ∧ message_queues cm1 = message_queues cm) as [Ha Hq].
    { unfold drop_subscriber in Hstep. coro_simpl.
      destruct (subscriptions cm !! x); simplify_eq; [|done].
      case_bool_decide; cbn in Hstep; [rewrite lookup_insert_eq in Hstep|];
        by simplify_eq. }
    destruct r1 as [[]| |]; simplify_eq; [|done..].
    apply IH in Hrun as [-> ->]. done.
Qed.

Lemma endpoints_have_queues_unregister agent_id w cm r w' cm' :
  endpoints_have_queues cm →
  unregister_agent agent_id w cm = (r, w', cm') →
  endpoints_have_queues cm'.
Proof.
  unfold endpoints_have_queues, unregister_agent. intros Hsync Hrun.
  unfold bind at 1, get in Hrun.
  case_bool_decide as Hin; [|unfold ret in Hrun; by simplify_eq].
  pose proof Hin as Hin'. rewrite Hsync in Hin'.
  apply elem_of_dom in Hin as [h Hh]. apply elem_of_dom in Hin' as [q Hq].
  coro_simpl. rewrite Hh in Hrun. cbn in Hrun. rewrite Hq in Hrun.
  apply drop_subscriber_loop_frame in Hrun as [-> ->]. cbn.
  rewrite !dom_delete_L. by rewrite Hsync.
Qed.

End communication_facts.

(** ** The registry *)

Section registry_facts.

Import base_agent agent_manager.


Lemma query_agent_empty agent_type query context timeout w mgr :
  agent_types mgr !! agent_type = None ∨ agent_types mgr !! agent_type = Some ∅ →
  query_agent agent_type query context timeout w mgr
  = (Raise (no_agents_error agent_type), w, mgr).
Proof.
  intros [H|H]; unfold query_agent; coro_simpl; rewrite H; [done|].
  by rewrite elements_empty.
Qed.


Lemma on_communication_manager_frame {A} (m : M communication.CommunicationManager A)
    w mgr r w' mgr' :
  on_communication_manager m w mgr = (r, w', mgr') →
  ∃ cm', mgr' = set_communication_manager cm' mgr
         ∧ m w (communication_manager mgr) = (r, w', cm').
Proof.
  unfold on_communication_manager. intros H.
  destruct (m w (communication_manager mgr)) as [[r1 w1] cm1]. simplify_eq. eauto.
Qed.

Lemma register_agent_effect agent agent_type w mgr r w' mgr' :
  let id := AgentConfig.agent_id (config agent) in
  register_agent agent agent_type w mgr = (r, w', mgr') →
  (mgr' = mgr ∧ ∃ e, r = Raise e)
  ∨ ((id ∉ dom (agents mgr))
     ∧ (∃ registration,
          agents mgr' = <[id := registration]> (agents mgr)
          ∧ AgentRegistration.agent_type registration = agent_type
          ∧ AgentRegistration.status registration = "active")
     ∧ agent_types mgr' !! agent_type = Some ({[id]} ∪ category_members mgr agent_type)
     ∧ (∀ c, c ≠ agent_type → agent_types mgr' !! c = agent_types mgr !! c)
     ∧ workflows mgr' = workflows mgr
     ∧ (r = Ok id ∨ ∃ e, r = Raise e)).
Proof.
  intros id Hrun. unfold register_agent in Hrun. fold id in Hrun.
  coro_simpl. case_bool_decide as Hin.
  { left. simplify_eq. eauto. }
  destruct (get_capabilities agent (clock w)) as [capabilities|e].
  2:{ left. simplify_eq. eauto. }
  rewrite AgentRegistration_new_eq in Hrun.
  destruct (is_list_of_str _).
  2:{ left. simplify_eq. eauto. }
  destruct (on_communication_manager _ _ _) as [[r1 w1] mgr1] eqn:Hcm.
  apply on_communication_manager_frame in Hcm as (cm' & -> & Hcm).
  set (mgr1 := set_agent_types _ (set_agents _ mgr)) in *.
  assert (mgr' = set_communication_manager cm' mgr1
          ∧ (r = Ok id ∨ ∃ e, r = Raise e)) as [-> Hr].
  { destruct r1 as [[]|e|]; simplify_eq; eauto.
    exfalso. clear -Hcm. unfold communication.register_agent in Hcm.
    coro_simpl. case_bool_decide; simplify_eq. }
  subst mgr1. right. split; [done|]. cbn. unfold category_members.
  split; [eexists; split; [reflexivity|done]|].
  split; [|split; [|done]].
  - case_bool_decide as Hd.
    + apply elem_of_dom in Hd as [ms Hms]. by rewrite lookup_alter_eq, Hms.
    + apply not_elem_of_dom in Hd. by rewrite Hd, alter_insert_eq, lookup_insert_eq.
  - intros c Hne. case_bool_decide; rewrite lookup_alter_ne by done;
      [done | by rewrite lookup_insert_ne].
Qed.

Lemma category_members_empty mgr agent_type :
  category_members mgr agent_type = ∅
  ↔ agent_types mgr !! agent_type = None ∨ agent_types mgr !! agent_type = Some ∅.
Proof.
  unfold category_members. destruct (agent_types mgr !! agent_type); cbn.
  - split; [intros ->; by right | by intros [|[= ->]]].
  - split; [by left | done].
Qed.

Lemma unregister_agent_unknown agent_id w mgr :
  agent_id ∉ dom (agents mgr) →
  unregister_agent agent_id w mgr = (Ok tt, w, mgr).
Proof.
  intros H. apply not_elem_of_dom in H.
  unfold unregister_agent. coro_simpl. by rewrite H.
Qed.

Lemma unregister_agent_effect agent_id registration w mgr r w' mgr' :
  agents mgr !! agent_id = Some registration →
  unregister_agent agent_id w mgr = (r, w', mgr') →
  let category := AgentRegistration.agent_type registration in
  category_members mgr' category = category_members mgr category ∖ {[agent_id]}
  ∧ (∀ c, c ≠ category → agent_types mgr' !! c = agent_types mgr !! c)
  ∧ (agents mgr' = agents mgr ∨ agents mgr' = delete agent_id (agents mgr))
  ∧ (r = Ok tt → agents mgr' = delete agent_id (agents mgr))
  ∧ workflows mgr' = workflows mgr.
Proof.
  intros Hreg Hrun category. unfold unregister_agent in Hrun.
  unfold bind at 1, get in Hrun. rewrite Hreg in Hrun. fold category in Hrun.
  unfold bind at 1, modify in Hrun.
  set (mgr1 := set_agent_types _ mgr) in *.
  assert (category_members mgr1 category = category_members mgr category ∖ {[agent_id]}
          ∧ (∀ c, c ≠ category → agent_types mgr1 !! c = agent_types mgr !! c)
          ∧ agents mgr1 = agents mgr ∧ workflows mgr1 = workflows mgr)
    as (Hcat & Hother & Hag & Hwf).
  { subst mgr1. unfold category_members. cbn.
    destruct (agent_types mgr !! category) as [ids|] eqn:Hids; cbn.
    - case_bool_decide as He.
      + rewrite lookup_delete_eq. cbn. rewrite He. split; [done|].
        split; [|done]. intros c Hne. by rewrite lookup_delete_ne.
      + rewrite lookup_insert_eq. cbn. split; [done|].
        split; [|done]. intros c Hne. by rewrite lookup_insert_ne.
    - rewrite Hids. cbn. split; [by rewrite difference_disjoint_L|]. done. }
  clearbody mgr1.
  unfold bind at 1 in Hrun.
  destruct (on_communication_manager _ _ _) as [[r1 w1] mgr2] eqn:Hcm.
  apply on_communication_manager_frame in Hcm as (cm' & -> & _).
  unfold category_members in *.
  destruct r1 as [[]|e|]; simplify_eq; cbn; [|by repeat split; eauto..].
  coro_simpl. cbn in Hrun.
  destruct (shutdown _ _); simplify_eq; cbn in *; [|by repeat split; eauto].
  rewrite Hag, Hreg in Hrun. simplify_eq. cbn. by repeat split; eauto.
Qed.

(** The category index stays consistent with the registrations. *)
Lemma registry_consistent_init : registry_consistent init.
Proof.
  intros category members a H.
  change ((∅ : gmap string (gset string)) !! category = Some members) in H.
  by rewrite lookup_empty in H.
Qed.


Lemma registry_consistent_unregister agent_id w mgr r w' mgr' :
  registry_consistent mgr →
  unregister_agent agent_id w mgr = (r, w', mgr') →
  registry_consistent mgr'.
Proof.
  intros Hcons Hrun.
  destruct (agents mgr !! agent_id) as [registration|] eqn:Hreg.
  2:{ rewrite unregister_agent_unknown in Hrun by (by apply not_elem_of_dom).
      by simplify_eq. }
  pose proof (unregister_agent_effect _ _ _ _ _ _ _ Hreg Hrun) as Heff.
  cbn zeta in Heff. destruct Heff as (Hcat & Hother & Hag & _).
  set (category := AgentRegistration.agent_type registration) in *.
  assert (∀ c members a, agent_types mgr' !! c = Some members → a ∈ members →
            a ≠ agent_id ∧ ∃ r0, agents mgr !! a = Some r0
                                 ∧ AgentRegistration.agent_type r0 = c) as Hcons'.
  { intros c members a Hc Ha.
    destruct (decide (c = category)) as [Heq|Hne]; [subst c|].
    - assert (a ∈ category_members mgr' category) as Ha'.
      { unfold category_members. by rewrite Hc. }
      rewrite Hcat in Ha'. apply elem_of_difference in Ha' as [Ha' Hne].
      split; [set_solver|].
      unfold category_members in Ha'.
      destruct (agent_types mgr !! category) as [ms|] eqn:Hms; [|done].
      by apply (Hcons _ _ _ Hms).
    - rewrite Hother in Hc by done.
      destruct (Hcons _ _ _ Hc Ha) as (r0 & Hr0 & Hty). split; [|eauto].
      intros ->. simplify_eq. }
  intros c members a Hc Ha.
  destruct (Hcons' _ _ _ Hc Ha) as (Hne & r0 & Hr0 & Hty).
  exists r0. split; [|done].
  destruct Hag as [->| ->]; [done|]. by rewrite lookup_delete_ne.
Qed.






(** C8: after a successful [register_agent] of an agent that is the
    only one of its category, and [unregister_agent] of its id (whatever
    that call answers), [query_agent] for the category raises the "no
    agents available" error; and [unregister_agent] of an id that is not
    registered returns at once and changes nothing. *)
Theorem register_unregister_query w mgr :
  (∀ agent agent_type id w1 mgr1 r2 w2 mgr2 query context timeout,
     (∀ a, a ∈ category_members mgr agent_type → a = AgentConfig.agent_id (config agent)) →
     register_agent agent agent_type w mgr = (Ok id, w1, mgr1) →
     unregister_agent id w1 mgr1 = (r2, w2, mgr2) →
     query_agent agent_type query context timeout w2 mgr2
     = (Raise (no_agents_error agent_type), w2, mgr2))
  ∧ (∀ unknown,
       unknown ∉ dom (agents mgr) →
       unregister_agent unknown w mgr = (Ok tt, w, mgr)).
Proof.
  split; [|intros; by apply unregister_agent_unknown].
  intros agent agent_type id w1 mgr1 r2 w2 mgr2 query context timeout Honly Hreg Hunreg.
  apply register_agent_effect in Hreg
    as [[_ [e ?]]|(_ & (reg & Hag & Hty & _) & Hcat & _ & _ & Hr)]; [done|].
  destruct Hr as [[= ->]|[e ?]]; [|done].
  assert (agents mgr1 !! AgentConfig.agent_id (config agent) = Some reg) as Hlook.
  { rewrite Hag. apply lookup_insert_eq. }
  pose proof (unregister_agent_effect _ _ _ _ _ _ _ Hlook Hunreg) as Heff.
  cbn zeta in Heff. destruct Heff as (Hmem & _). rewrite Hty in Hmem.
  apply query_agent_empty, category_members_empty. rewrite Hmem.
  unfold category_members at 1. rewrite Hcat. cbn. set_solver.
Qed.

Lemma register_unregister_query_witness :
  query_agent "x" (VStr "ok") None None one_agent_gone.1 one_agent_gone.2
  = (Raise (no_agents_error "x"), one_agent_gone.1, one_agent_gone.2)
  ∧ unregister_agent "nobody" world0 init = (Ok tt, world0, init).
Proof.
  split.
  - apply (proj1 (register_unregister_query world0 init)
             (test_agent "a1" "healthy") "x" "a1" one_agent.1 one_agent.2 (Ok tt)).
    + intros a Ha. by apply not_elem_of_empty in Ha.
    + reflexivity.
    + reflexivity.
  - apply (proj2 (register_unregister_query world0 init)).
    apply not_elem_of_dom. reflexivity.
Defined.

End registry_facts.

(** ** The health monitor *)

Section health_facts.

Import base_agent agent_manager.

Lemma is_healthy_iff st : is_healthy st = true ↔ st = VStr "healthy".
Proof.
  destruct st; cbn; try (split; [done | intros [=]]).
  rewrite String.eqb_eq. split; [by intros -> | by intros [= ->]].
Qed.

Lemma check_agent_effect agent_id registration w mgr :
  ∃ w',
    check_agent tt (agent_id, registration) w mgr
    = (Ok tt, w',
       set_agents
         (alter (health_transition
                   (health_check (AgentRegistration.agent_instance registration) (clock w))
                   (S (clock w))) agent_id) mgr)
    ∧ clock w' = S (clock w).
Proof.
  unfold check_agent, health_transition, update_registration. coro_simpl.
  destruct (health_check _ _) as [health_status|e]; [|by eexists].
  destruct (dict_lookup "status" health_status) as [st|]; [|by eexists].
  destruct (is_healthy st); by eexists.
Qed.

Lemma set_agents_set_agents f g mgr :
  set_agents f (set_agents g mgr) = set_agents (f ∘ g) mgr.
Proof. by destruct mgr. Qed.

Lemma check_loop_effect l : ∀ w mgr,
  NoDup l.*1 →
  ∃ w' ags',
    for_each l check_agent tt w mgr = (Ok tt, w', set_agents (λ _, ags') mgr)
    ∧ clock w' = clock w + length l
    ∧ (∀ a, a ∉ l.*1 → ags' !! a = agents mgr !! a)
    ∧ (∀ k a registration, l !! k = Some (a, registration) →
         ags' !! a =
         health_transition
           (health_check (AgentRegistration.agent_instance registration) (clock w + k))
           (S (clock w + k)) <$> agents mgr !! a).
Proof.
  induction l as [|[x rx] l IH]; intros w mgr Hnd.
  - exists w, (agents mgr). cbn. split; [by destruct mgr|].
    split; [lia|]. split; [done|]. intros k a registration Hk. done.
  - cbn in Hnd. apply NoDup_cons in Hnd as [Hx Hnd].
    destruct (check_agent_effect x rx w mgr) as (w1 & Hstep & Hclock).
    destruct (IH w1 (set_agents (alter (health_transition
                (health_check (AgentRegistration.agent_instance rx) (clock w))
                (S (clock w))) x) mgr) Hnd) as (w' & ags' & Hrun & Hclock' & Hout & Hin).
    exists w', ags'. split; [|split; [|split]].
    + cbn [for_each]. unfold bind. rewrite Hstep, Hrun.
      by rewrite set_agents_set_agents.
    + rewrite Hclock', Hclock. cbn. lia.
    + intros a Ha. cbn in Ha. apply not_elem_of_cons in Ha as [Hne Ha].
      rewrite Hout by done. cbn. by rewrite lookup_alter_ne.
    + intros k a registration Hk. destruct k as [|k]; cbn in Hk.
      * simplify_eq. rewrite Hout by done. cbn.
        rewrite lookup_alter_eq. by rewrite Nat.add_0_r.
      * rewrite (Hin k a registration Hk). cbn.
        assert (x ≠ a) as Hne.
        { intros ->. apply Hx. apply list_elem_of_fmap. exists (a, registration).
          split; [done|]. by eapply list_elem_of_lookup_2. }
        rewrite lookup_alter_ne by done.
        rewrite Hclock. by replace (S (clock w) + k) with (clock w + S k) by lia.
Qed.

(** C6: a monitor cycle returns, keeps the set of registrations, and
    gives every registration the status its own agent's health check
    calls for: an answer whose ["status"] is ["healthy"] makes it
    ["active"] and sets [last_heartbeat] to the time of the answer; any
    other answer, and a raised exception, makes it ["error"] and leaves
    [last_heartbeat] as it was.  The other fields of a registration
    are kept, and the new registration of an agent is a function of
    its old registration and of its own agent's answer only. *)
Theorem health_check_cycle_spec w mgr :
  ∃ w' ags',
    health_check_cycle w mgr = (Ok tt, w', set_agents (λ _, ags') mgr)
    ∧ dom ags' = dom (agents mgr)
    ∧ ∀ agent_id registration,
        agents mgr !! agent_id = Some registration →
        ∃ t registration',
          clock w ≤ t < clock w'
          ∧ ags' !! agent_id = Some registration'
          ∧ let answer :=
              health_check (AgentRegistration.agent_instance registration) t in
            let healthy :=
              ∃ health_status,
                answer = Returns health_status
                ∧ dict_lookup "status" health_status = Some (VStr "healthy") in
            registration' = health_transition answer (S t) registration
            ∧ (healthy →
               registration'
               = AgentRegistration.set_last_heartbeat (S t)
                   (AgentRegistration.set_status "active" registration)
               ∧ AgentRegistration.status registration' = "active"
               ∧ AgentRegistration.last_heartbeat registration' = S t)
            ∧ (¬ healthy →
               registration' = AgentRegistration.set_status "error" registration
               ∧ AgentRegistration.status registration' = "error"
               ∧ AgentRegistration.last_heartbeat registration'
                 = AgentRegistration.last_heartbeat registration)
            ∧ AgentRegistration.agent_id registration'
              = AgentRegistration.agent_id registration
            ∧ AgentRegistration.agent_type registration'
              = AgentRegistration.agent_type registration
            ∧ AgentRegistration.agent_instance registration'
              = AgentRegistration.agent_instance registration
            ∧ AgentRegistration.config registration'
              = AgentRegistration.config registration
            ∧ AgentRegistration.capabilities registration'
              = AgentRegistration.capabilities registration
            ∧ AgentRegistration.registered_at registration'
              = AgentRegistration.registered_at registration.
Proof.
  destruct (check_loop_effect (map_to_list (agents mgr)) w mgr)
    as (w' & ags' & Hrun & Hclock & Hout & Hin).
  { apply NoDup_fst_map_to_list. }
  exists w', ags'. split; [by unfold health_check_cycle, bind, get|].
  assert (∀ a, is_Some (ags' !! a) ↔ is_Some (agents mgr !! a)) as Hdom.
  { intros a. destruct (agents mgr !! a) as [r|] eqn:Ha.
    - pose proof Ha as Ha'.
      apply elem_of_map_to_list, list_elem_of_lookup in Ha' as [k Hk].
      rewrite (Hin k a r Hk), Ha. cbn. split; eauto.
    - rewrite Hout; [by rewrite Ha|].
      intros Hmem. apply list_elem_of_fmap in Hmem as ([a' r] & -> & Hmem).
      apply elem_of_map_to_list in Hmem. cbn in Ha. congruence. }
  split.
  { apply set_eq. intros a. by rewrite !elem_of_dom. }
  intros agent_id registration Hreg.
  pose proof Hreg as Hk.
  apply elem_of_map_to_list, list_elem_of_lookup in Hk as [k Hk].
  exists (clock w + k), (health_transition
    (health_check (AgentRegistration.agent_instance registration) (clock w + k))
    (S (clock w + k)) registration).
  split. { apply lookup_lt_Some in Hk. lia. }
  split. { rewrite (Hin k _ _ Hk), Hreg. done. }
  cbn zeta. split; [done|]. unfold health_transition. split; [|split].
  - intros (health_status & -> & ->). done.
  - intros Hn.
    destruct (health_check _ _) as [health_status|e]; [|done].
    destruct (dict_lookup "status" health_status) as [st|] eqn:Hst; [|done].
    destruct (is_healthy st) eqn:Hh; [|done].
    apply is_healthy_iff in Hh as ->. exfalso. apply Hn. eauto.
  - destruct (health_check _ _) as [health_status|e]; [|done].
    destruct (dict_lookup "status" health_status) as [st|]; [|done].
    by destruct (is_healthy st).
Qed.

End health_facts.

(** ** Workflow construction *)

Section create_workflow_facts.

Import base_agent agent_manager.

Lemma drawn_and_logged_0 w : drawn_and_logged 0 [] w = w.
Proof. destruct w. unfold drawn_and_logged. cbn. by rewrite Nat.add_0_r, app_nil_r. Qed.

Lemma drawn_and_logged_compose n1 es1 n2 es2 w :
  drawn_and_logged n2 es2 (drawn_and_logged n1 es1 w)
  = drawn_and_logged (n1 + n2) (es1 ++ es2) w.
Proof. unfold drawn_and_logged. cbn. f_equal; [lia | by rewrite app_assoc]. Qed.

Lemma resolved_cons ids i v declared :
  resolved ids i (v :: declared)
  = match resolve ids i v with
    | Some id => id :: resolved ids i declared
    | None => resolved ids i declared
    end.
Proof. reflexivity. Qed.

Lemma dropped_warnings_cons i total v declared :
  dropped_warnings i total (v :: declared)
  = if valid_index i v then dropped_warnings i total declared
    else invalid_dependency_warning i total v :: dropped_warnings i total declared.
Proof.
  unfold dropped_warnings. rewrite filter_cons.
  destruct (valid_index i v); [by rewrite decide_False | by rewrite decide_True].
Qed.

(** The loop over the declared dependencies of one entry. *)
Lemma add_dependencies_effect i total step_ids declared : ∀ acc w mgr,
  i < length step_ids →
  for_each declared (add_dependency i total step_ids) acc w mgr
  = (Ok (acc ++ resolved step_ids i declared),
     drawn_and_logged 0 (dropped_warnings i total declared) w, mgr).
Proof.
  induction declared as [|v declared IH]; intros acc w mgr Hlen.
  - cbn. unfold ret, dropped_warnings. cbn.
    by rewrite app_nil_r, drawn_and_logged_0.
  - cbn [for_each]. unfold bind at 1. unfold add_dependency at 1.
    rewrite resolved_cons, dropped_warnings_cons. unfold resolve.
    fold (valid_index i v).
    destruct (valid_index i v) eqn:Hv.
    + apply andb_true_iff in Hv as [_ Hrange]. apply bool_decide_eq_true in Hrange.
      destruct (lookup_lt_is_Some_2 step_ids (Z.to_nat (int_value v))) as [id Hid];
        [lia|].
      rewrite Hid. unfold ret at 1. rewrite IH by done.
      by rewrite <- app_assoc.
    + unfold bind, logger, ret. rewrite IH by done.
      f_equal. f_equal.
      unfold drawn_and_logged, emit. cbn. f_equal.
      by rewrite <- app_assoc.
Qed.

Lemma resolved_app pre suf i declared :
  i < length pre →
  resolved (pre ++ suf) i declared = resolved pre i declared.
Proof.
  intros Hlen. induction declared as [|v declared IH]; [done|].
  rewrite !resolved_cons, IH.
  assert (resolve (pre ++ suf) i v = resolve pre i v) as ->; [|done].
  unfold resolve. destruct (valid_index i v) eqn:Hv; [|done].
  apply andb_true_iff in Hv as [_ Hrange]. apply bool_decide_eq_true in Hrange.
  apply lookup_app_l. lia.
Qed.

(** One pass of the loop over the entries. *)
Lemma add_step_effect total n sd steps step_ids w mgr :
  length step_ids = n →
  let id := uuid_str (uuid_counter w) in
  let w1 := drawn_and_logged 1 (dropped_warnings n total (declared_dependencies sd)) w in
  add_step total (steps, step_ids) (n, sd) w mgr
  = match StepDef.agent sd, StepDef.task sd with
    | Some _, Some _ =>
        if is_dict (given_data sd) then
          (Ok (steps ++ [expected_step (step_ids ++ [id]) n sd], step_ids ++ [id]), w1, mgr)
        else (Raise (pydantic_ValidationError "WorkflowStep" "data"), w1, mgr)
    | None, _ => (Raise (KeyError "agent"), w1, mgr)
    | Some _, None => (Raise (KeyError "task"), w1, mgr)
    end.
Proof.
  intros Hlen id w1. unfold add_step. unfold bind at 1, uuid4. fold id.
  unfold bind at 1.
  assert (match StepDef.dependencies sd with
          | Some declared =>
              for_each declared (add_dependency n total (step_ids ++ [id])) []
          | None => ret []
          end (next_uuid w) mgr
          = (Ok (resolved (step_ids ++ [id]) n (declared_dependencies sd)), w1, mgr)) as ->.
  { unfold w1, declared_dependencies.
    destruct (StepDef.dependencies sd) as [declared|]; cbn [default].
    - rewrite add_dependencies_effect by (rewrite length_app; cbn; lia).
      cbn [app]. f_equal. f_equal. unfold drawn_and_logged, next_uuid. cbn.
      f_equal. lia.
    - unfold ret. f_equal. f_equal. unfold drawn_and_logged, next_uuid, dropped_warnings.
      cbn. f_equal; [lia | by rewrite app_nil_r]. }
  unfold expected_step, given_data. unfold bind at 1, required.
  destruct (StepDef.agent sd) as [agent|]; [|done].
  unfold ret at 1. unfold bind at 1.
  destruct (StepDef.task sd) as [task|]; [|done].
  unfold ret at 1. unfold bind at 1. rewrite WorkflowStep_new_eq.
  destruct (is_dict _); [|done].
  unfold ret. cbn [default].
  rewrite lookup_app_r by lia. rewrite Hlen, Nat.sub_diag. done.
Qed.

Lemma fresh_ids_S w n :
  fresh_ids w (S n) = uuid_str (uuid_counter w) :: fresh_ids (next_uuid w) n.
Proof. reflexivity. Qed.

Lemma fresh_ids_logged k es w n :
  fresh_ids (drawn_and_logged k es w) n = uuid_str <$> seq (uuid_counter w + k) n.
Proof. reflexivity. Qed.

Lemma expected_step_app pre suf i sd :
  i < length pre →
  expected_step (pre ++ suf) i sd = expected_step pre i sd.
Proof.
  intros Hlen. unfold expected_step.
  rewrite resolved_app by done. by rewrite lookup_app_l.
Qed.

(** The loop over the entries, started at position [n]. *)
Lemma add_steps_effect total l : ∀ n steps step_ids w mgr,
  length step_ids = n →
  let ids := step_ids ++ fresh_ids w (length l) in
  ∃ r w',
    for_each (imap (λ j x, (n + j, x)) l) (add_step total) (steps, step_ids) w mgr
    = (r, w', mgr)
    ∧ (Forall well_formed l →
       r = Ok (steps ++ imap (λ j, expected_step ids (n + j)) l, ids)
       ∧ w' = drawn_and_logged (length l) (all_dropped_warnings n total l) w)
    ∧ (¬ Forall well_formed l → ∃ e, r = Raise e).
Proof.
  induction l as [|sd l IH]; intros n steps step_ids w mgr Hlen ids.
  - exists (Ok (steps, step_ids)), w. split; [done|]. split.
    + intros _. subst ids. unfold fresh_ids, all_dropped_warnings. cbn.
      by rewrite !app_nil_r, drawn_and_logged_0.
    + intros H. by destruct H.
  - rewrite imap_cons. cbn [for_each]. unfold bind at 1.
    rewrite Nat.add_0_r.
    rewrite (add_step_effect total n sd steps step_ids w mgr Hlen).
    set (id := uuid_str (uuid_counter w)) in *.
    set (w1 := drawn_and_logged 1 _ w).
    destruct (StepDef.agent sd) as [agent|] eqn:Hagent.
    2:{ eexists _, _. split; [done|]. split; [|eauto].
        intros Hall. apply Forall_cons in Hall as [[[[? Ha] _] _] _].
        rewrite Hagent in Ha. done. }
    destruct (StepDef.task sd) as [task|] eqn:Htask.
    2:{ eexists _, _. split; [done|]. split; [|eauto].
        intros Hall. apply Forall_cons in Hall as [[[_ [? Ht]] _] _].
        rewrite Htask in Ht. done. }
    destruct (is_dict (given_data sd)) eqn:Hdata.
    2:{ eexists _, _. split; [done|]. split; [|eauto].
        intros Hall. apply Forall_cons in Hall as [[_ Hd] _]. congruence. }
    destruct (IH (S n) (steps ++ [expected_step (step_ids ++ [id]) n sd])
                (step_ids ++ [id]) w1 mgr) as (r & w' & Hrun & Hok & Hbad).
    { rewrite length_app. cbn. lia. }
    exists r, w'. split.
    { rewrite <- Hrun. f_equal. apply imap_ext. intros j x _. cbn. f_equal. lia. }
    assert ((step_ids ++ [id]) ++ fresh_ids w1 (length l) = ids) as Hids.
    { subst ids. cbn [length]. rewrite fresh_ids_S, <- app_assoc. cbn [app].
      do 2 f_equal. unfold w1. rewrite fresh_ids_logged. unfold fresh_ids. cbn.
      by rewrite Nat.add_1_r. }
    rewrite Hids in Hok. split.
    + intros Hall. apply Forall_cons in Hall as [_ Hall].
      destruct (Hok Hall) as [-> ->]. split.
      * f_equal. f_equal. rewrite <- app_assoc. f_equal. rewrite imap_cons. cbn [app].
        f_equal.
        -- rewrite Nat.add_0_r. rewrite <- Hids. symmetry.
           apply expected_step_app. rewrite length_app. cbn. lia.
        -- apply imap_ext. intros j x _. cbn. f_equal. lia.
      * unfold w1. rewrite drawn_and_logged_compose. cbn [length]. f_equal.
        unfold all_dropped_warnings. rewrite imap_cons. cbn [concat].
        rewrite Nat.add_0_r. f_equal. f_equal.
        apply imap_ext. intros j x _. cbn. f_equal. lia.
    + intros Hn. apply Hbad. intros Hall. apply Hn. apply Forall_cons. split; [|done].
      split; [|done]. split; [by rewrite Hagent | by rewrite Htask].
Qed.

Lemma create_workflow_effect defs w mgr :
  let w1 :=
    drawn_and_logged (length defs) (all_dropped_warnings 0 (length defs) defs) w in
  let workflow := expected_workflow w defs in
  (Forall well_formed defs →
   create_workflow defs w mgr
   = (Ok workflow, next_uuid w1,
      set_workflows (<[Workflow.workflow_id workflow := workflow]>) mgr))
  ∧ (¬ Forall well_formed defs →
     ∃ e w', create_workflow defs w mgr = (Raise e, w', mgr)).
Proof.
  intros w1 workflow.
  destruct (add_steps_effect (length defs) defs 0 [] [] w mgr eq_refl)
    as (r & w' & Hrun & Hok & Hbad).
  assert (imap pair defs = imap (λ j x, (0 + j, x)) defs) as Himap by done.
  split.
  - intros Hall. destruct (Hok Hall) as [-> ->].
    unfold create_workflow, enumerate. unfold bind at 1. rewrite Himap, Hrun.
    cbn [app fst]. unfold bind, uuid4, utcnow, modify, ret. cbn. done.
  - intros Hn. destruct (Hbad Hn) as [e ->].
    unfold create_workflow, enumerate. unfold bind at 1. rewrite Himap, Hrun. eauto.
Qed.

Lemma uuid_str_inj : Inj (=) (=) uuid_str.
Proof.
  intros n m H. unfold uuid_str in H. cbn in H. simplify_eq.
  by apply (inj pretty).
Qed.

Lemma fresh_ids_lookup w n i :
  i < n → fresh_ids w n !! i = Some (uuid_str (uuid_counter w + i)).
Proof.
  intros Hi. unfold fresh_ids. rewrite list_lookup_fmap, lookup_seq_lt by done. done.
Qed.

Lemma fresh_ids_NoDup w n : NoDup (fresh_ids w n).
Proof. unfold fresh_ids. apply (NoDup_fmap_2 _), NoDup_seq. Qed.

Lemma length_fresh_ids w n : length (fresh_ids w n) = n.
Proof. unfold fresh_ids. by rewrite length_fmap, length_seq. Qed.

Lemma expected_workflow_step_ids w defs :
  step_ids_of (expected_workflow w defs) = fresh_ids w (length defs).
Proof.
  unfold step_ids_of. cbn. apply list_eq. intros i.
  rewrite list_lookup_fmap, list_lookup_imap.
  destruct (defs !! i) as [sd|] eqn:Hsd; cbn.
  - apply lookup_lt_Some in Hsd as Hi. by rewrite fresh_ids_lookup.
  - symmetry. apply lookup_ge_None. rewrite length_fresh_ids.
    by apply lookup_ge_None.
Qed.

Lemma expected_workflow_lookup w defs i sd :
  defs !! i = Some sd →
  Workflow.steps (expected_workflow w defs) !! i
  = Some (expected_step (step_ids_of (expected_workflow w defs)) i sd).
Proof.
  intros Hsd. rewrite expected_workflow_step_ids. cbn.
  by rewrite list_lookup_imap, Hsd.
Qed.


Lemma resolved_elem ids i declared d :
  d ∈ resolved ids i declared ↔ ∃ v, v ∈ declared ∧ resolve ids i v = Some d.
Proof. unfold resolved. apply list_elem_of_omap. Qed.




(** The workflow built from a definition is fresh. *)
Lemma expected_workflow_fresh w defs :
  fresh_steps (Workflow.steps (expected_workflow w defs)).
Proof.
  pose proof (fresh_ids_NoDup w (length defs)) as Hnd.
  rewrite <- expected_workflow_step_ids in Hnd.
  split; [done|].
  intros i step Hstep.
  assert (is_Some (defs !! i)) as [sd Hsd].
  { apply lookup_lt_is_Some. apply lookup_lt_Some in Hstep. cbn in Hstep.
    by rewrite length_imap in Hstep. }
  rewrite (expected_workflow_lookup _ _ _ _ Hsd) in Hstep. injection Hstep as <-.
  split; [done|]. intros d Hd.
  cbn [expected_step WorkflowStep.dependencies WorkflowStep.step_id] in *.
  apply resolved_elem in Hd as (v & _ & Hres).
  unfold resolve in Hres. destruct (valid_index i v) eqn:Hvalid; [|done].
  apply andb_true_iff in Hvalid as [_ Hrange]. apply bool_decide_eq_true in Hrange.
  set (j := Z.to_nat (int_value v)) in *.
  apply lookup_lt_Some in Hsd as Hi.
  destruct (lookup_lt_is_Some_2 defs j) as [sd' Hsd']; [lia|].
  eexists j, _. split; [lia|]. split; [by apply expected_workflow_lookup|].
  cbn [expected_step WorkflowStep.step_id]. by rewrite Hres.
Qed.

Lemma create_workflow_fresh defs w mgr workflow w' mgr' :
  create_workflow defs w mgr = (Ok workflow, w', mgr') →
  fresh_steps (Workflow.steps workflow)
  ∧ workflows mgr' !! Workflow.workflow_id workflow = Some workflow.
Proof.
  intros Hrun.
  destruct (create_workflow_effect defs w mgr) as [Hok Hbad]. cbn zeta in Hok.
  destruct (decide (Forall well_formed defs)) as [Hall|Hn].
  2:{ destruct (Hbad Hn) as (e & w0 & He). congruence. }
  rewrite (Hok Hall) in Hrun. injection Hrun as <- _ <-.
  split; [apply expected_workflow_fresh|]. cbn. apply lookup_insert_eq.
Qed.

(** C10: in a workflow returned by [create_workflow] the step ids are
    pairwise distinct, and every id in a step's dependency list is the
    id of a step at a strictly earlier position, hence neither the
    step's own id nor an id foreign to the workflow: the dependency
    graph has no cycle. *)
Theorem create_workflow_acyclic defs w mgr workflow w' mgr' :
  create_workflow defs w mgr = (Ok workflow, w', mgr') →
  NoDup (step_ids_of workflow)
  ∧ ∀ i step d,
      Workflow.steps workflow !! i = Some step →
      d ∈ WorkflowStep.dependencies step →
      d ≠ WorkflowStep.step_id step
      ∧ ∃ j earlier,
          j < i
          ∧ Workflow.steps workflow !! j = Some earlier
          ∧ WorkflowStep.step_id earlier = d.
Proof.
  intros Hrun. apply create_workflow_fresh in Hrun as [[Hnd Hfresh] _].
  split; [done|].
  intros i step d Hstep Hd.
  destruct (Hfresh i step Hstep) as [_ Hdeps].
  destruct (Hdeps d Hd) as (j & earlier & Hji & Hj & Hid).
  split; [|by exists j, earlier].
  intros ->.
  assert (j = i); [|lia].
  apply (NoDup_lookup _ _ _ (WorkflowStep.step_id step) Hnd);
    rewrite list_lookup_fmap; [by rewrite Hj; cbn; rewrite Hid | by rewrite Hstep].
Qed.

Lemma create_workflow_acyclic_witness :
  NoDup (step_ids_of (expected_workflow world0 lenient_definition))
  ∧ ∀ i step d,
      Workflow.steps (expected_workflow world0 lenient_definition) !! i = Some step →
      d ∈ WorkflowStep.dependencies step →
      d ≠ WorkflowStep.step_id step
      ∧ ∃ j earlier,
          j < i
          ∧ Workflow.steps (expected_workflow world0 lenient_definition) !! j = Some earlier
          ∧ WorkflowStep.step_id earlier = d.
Proof.
  apply (create_workflow_acyclic lenient_definition world0 init
           (expected_workflow world0 lenient_definition)
           (create_workflow lenient_definition world0 init).1.2
           (create_workflow lenient_definition world0 init).2).
  reflexivity.
Defined.

End create_workflow_facts.

(** ** Workflow execution *)

Section execute_workflow_facts.

Import base_agent agent_manager.

(** [query_agent] answers, and touches nothing but heartbeats. *)
Lemma query_agent_frame agent_type query context timeout w mgr q w' mgr' :
  query_agent agent_type query context timeout w mgr = (q, w', mgr') →
  q ≠ OutOfFuel
  ∧ (clock w ≤ clock w')%nat
  ∧ ∃ f, mgr' = set_agents f mgr.
Proof.
  assert (mgr = set_agents id mgr) as Hid by (by destruct mgr).
  unfold query_agent. coro_simpl.
  destruct (agent_types mgr !! agent_type) as [members|];
    [|intros; simplify_eq; eauto].
  destruct (elements members) as [|selected rest]; [intros; simplify_eq; eauto|].
  destruct (agents mgr !! selected) as [registration|]; [|intros; simplify_eq; eauto].
  destruct (process_request _ _ _ _) as [duration outcome].
  case_bool_decide.
  { intros; simplify_eq. cbn. split; [done|]. split; [lia|]. eauto. }
  destruct outcome as [response|e]; intros; simplify_eq.
  - cbn. split; [done|]. split; [lia|]. eauto.
  - destruct e; simplify_eq; cbn; (split; [done|]); (split; [lia|]); eauto.
Qed.

Lemma run_step_skip workflow_id loc i w mgr :
  (∀ step, steps_of workflow_id mgr !! i = Some step → ready step loc.2 = false) →
  run_step workflow_id loc i w mgr = (Ok loc, w, mgr).
Proof.
  intros Hskip. unfold run_step. unfold bind at 1, get.
  destruct (steps_of workflow_id mgr !! i) as [step|]; [|done].
  destruct loc as [results completed_steps].
  pose proof (Hskip step eq_refl) as H.
  change (ready step completed_steps = false) in H. by rewrite H.
Qed.

Lemma alter_set_steps_compose (G1 G2 : list WorkflowStep.t → list WorkflowStep.t)
    workflow_id (m : gmap string Workflow.t) :
  alter (Workflow.set_steps G2) workflow_id (alter (Workflow.set_steps G1) workflow_id m)
  = alter (Workflow.set_steps (G2 ∘ G1)) workflow_id m.
Proof.
  apply map_eq. intros k. destruct (decide (workflow_id = k)) as [->|Hne].
  - rewrite !lookup_alter_eq. by destruct (m !! k).
  - by rewrite !lookup_alter_ne.
Qed.

Lemma alter_set_steps_ext (G1 G2 : list WorkflowStep.t → list WorkflowStep.t)
    workflow_id (m : gmap string Workflow.t) :
  (∀ workflow, m !! workflow_id = Some workflow →
               G1 (Workflow.steps workflow) = G2 (Workflow.steps workflow)) →
  alter (Workflow.set_steps G1) workflow_id m = alter (Workflow.set_steps G2) workflow_id m.
Proof.
  intros H. apply map_eq. intros k. destruct (decide (workflow_id = k)) as [->|Hne].
  - rewrite !lookup_alter_eq. destruct (m !! k) as [workflow|] eqn:Hk; [|done].
    cbn. unfold Workflow.set_steps. by rewrite (H workflow).
  - by rewrite !lookup_alter_ne.
Qed.

Lemma run_step_dispatch workflow_id loc i w mgr step :
  steps_of workflow_id mgr !! i = Some step →
  ready step loc.2 = true →
  ∃ q w' mgr',
    run_step workflow_id loc i w mgr = (step_result q step loc, w', mgr')
    ∧ q ≠ OutOfFuel
    ∧ dispatched mgr'
      = dispatched mgr
        ++ [{| ev_workflow_id := workflow_id; ev_index := i;
               ev_steps := steps_of workflow_id mgr; ev_completed := loc.2;
               ev_outcome := q |}]
    ∧ workflows mgr'
      = alter (Workflow.set_steps (alter (settled_step q (clock w) (clock w')) i))
          workflow_id (workflows mgr).
Proof.
  intros Hstep Hready. destruct loc as [results completed_steps].
  change (ready step completed_steps = true) in Hready.
  unfold run_step. unfold bind at 1, get. rewrite Hstep. cbn beta iota.
  rewrite Hready.
  unfold update_step, update_workflow, traced. coro_simpl.
  destruct (query_agent _ _ _ _ _ _) as [[q wq] mgrq] eqn:Hq.
  apply query_agent_frame in Hq as (Hne & _ & f & ->).
  exists q, wq.
  destruct q as [response|e|]; [|  |done].
  - destruct (AgentResponse.success response) eqn:Hsucc.
    + eexists. split; [cbn; rewrite Hsucc; reflexivity|]. split; [done|].
      split; [reflexivity|]. cbn.
      rewrite !alter_set_steps_compose. apply alter_set_steps_ext.
      intros workflow _. cbn. rewrite !list_alter_alter_eq.
      apply list_alter_ext; [|done]. intros s _. cbn. by rewrite Hsucc.
    + eexists. split; [cbn; rewrite Hsucc; reflexivity|]. split; [done|].
      split; [reflexivity|]. cbn.
      rewrite !alter_set_steps_compose. apply alter_set_steps_ext.
      intros workflow _. cbn. rewrite !list_alter_alter_eq.
      apply list_alter_ext; [|done]. intros s _. cbn. by rewrite Hsucc.
  - eexists. split; [reflexivity|]. split; [done|].
    split; [reflexivity|]. cbn.
    rewrite !alter_set_steps_compose. apply alter_set_steps_ext.
    intros workflow _. cbn. rewrite !list_alter_alter_eq.
    apply list_alter_ext; [|done]. intros s _. done.
Qed.

Lemma run_post_refl workflow_id mgr x : run_post workflow_id mgr x mgr.
Proof.
  exists []. split; [by rewrite app_nil_r|]. split; [done|]. split; [done|].
  split; [done|]. intros ev Hev. by apply elem_of_nil in Hev.
Qed.

Lemma run_post_trans workflow_id mgr mgr1 mgr2 x :
  run_post workflow_id mgr None mgr1 →
  run_post workflow_id mgr1 x mgr2 →
  run_post workflow_id mgr x mgr2.
Proof.
  intros (evs1 & Hd1 & Hdom1 & Hok1 & Hframe1 & Hfail1)
         (evs2 & Hd2 & Hdom2 & Hok2 & Hframe2 & Hfail2).
  exists (evs1 ++ evs2). split; [by rewrite Hd2, Hd1, app_assoc|].
  split; [by rewrite Hdom2|]. split; [by apply Forall_app|].
  split.
  { intros j Hj. rewrite Hframe2, Hframe1; [done|..];
      intros ev Hev; apply Hj, elem_of_app; auto. }
  intros ev Hev Hfailed. apply elem_of_app in Hev as [Hev|Hev].
  - destruct (Hfail1 ev Hev Hfailed) as (_ & Hx & _).
    destruct Hfailed as [e He]. congruence.
  - destruct (Hfail2 ev Hev Hfailed) as (Hlast & Hx & Hsteps).
    split; [|done]. rewrite last_app, Hlast. done.
Qed.

(** A piece that ended without a failed dispatch may be followed by
    any exception of the engine's own. *)
Lemma run_post_weaken workflow_id mgr mgr' x :
  run_post workflow_id mgr None mgr' → run_post workflow_id mgr x mgr'.
Proof.
  intros (evs & Hd & Hdom & Hok & Hframe & Hfail).
  exists evs. split; [done|]. split; [done|]. split; [done|]. split; [done|].
  intros ev Hev Hfailed. destruct (Hfail ev Hev Hfailed) as (_ & Hx & _).
  destruct Hfailed as [e He]. congruence.
Qed.

Lemma steps_of_altered workflow_id G mgr mgr' :
  workflows mgr' = alter (Workflow.set_steps G) workflow_id (workflows mgr) →
  is_Some (workflows mgr !! workflow_id) →
  steps_of workflow_id mgr' = G (steps_of workflow_id mgr).
Proof.
  intros Hw [workflow Hwf]. unfold steps_of.
  by rewrite Hw, lookup_alter_eq, Hwf.
Qed.

Lemma steps_of_Some workflow_id mgr i step :
  steps_of workflow_id mgr !! i = Some step → is_Some (workflows mgr !! workflow_id).
Proof. unfold steps_of. destruct (workflows mgr !! workflow_id); [eauto | done]. Qed.

Lemma ready_spec step completed_steps :
  ready step completed_steps = true ↔
  (WorkflowStep.step_id step ∉ completed_steps)
  ∧ WorkflowStep.status step = "pending"
  ∧ ∀ dep, dep ∈ WorkflowStep.dependencies step → dep ∈ completed_steps.
Proof.
  unfold ready. rewrite !andb_true_iff, bool_decide_eq_true, String.eqb_eq.
  rewrite forallb_forall.
  split.
  - intros [[? ?] Hdeps]. split; [done|]. split; [done|].
    intros dep Hdep. apply list_elem_of_In in Hdep.
    by apply Hdeps, bool_decide_eq_true in Hdep.
  - intros (? & ? & Hdeps). split; [done|].
    intros dep Hdep. apply bool_decide_eq_true, Hdeps. by apply list_elem_of_In.
Qed.

(** One pass of the scan. *)
Lemma run_step_post workflow_id loc i w mgr r w' mgr' :
  completed_are_completed (steps_of workflow_id mgr) loc.2 →
  run_step workflow_id loc i w mgr = (r, w', mgr') →
  run_post workflow_id mgr (raised r) mgr'
  ∧ r ≠ OutOfFuel
  ∧ ∀ loc', r = Ok loc' → completed_are_completed (steps_of workflow_id mgr') loc'.2.
Proof.
  intros Hinv Hrun.
  destruct (steps_of workflow_id mgr !! i) as [step|] eqn:Hstep.
  2:{ rewrite run_step_skip in Hrun by (intros ? ?; congruence). simplify_eq.
      split; [apply run_post_refl|]. split; [done|]. by intros ? [= <-]. }
  destruct (ready step loc.2) eqn:Hready.
  2:{ rewrite run_step_skip in Hrun by (intros ? ?; congruence). simplify_eq.
      split; [apply run_post_refl|]. split; [done|]. by intros ? [= <-]. }
  destruct (run_step_dispatch workflow_id loc i w mgr step Hstep Hready)
    as (q & wq & mgrq & Hrun' & Hq & Hd & Hw).
  rewrite Hrun' in Hrun. simplify_eq.
  pose proof (steps_of_altered _ _ _ _ Hw (steps_of_Some _ _ _ _ Hstep)) as Hsteps.
  apply ready_spec in Hready as Hguard. destruct Hguard as (Hnew & Hpending & Hdeps).
  set (ev := {| ev_workflow_id := workflow_id; ev_index := i;
                ev_steps := steps_of workflow_id mgr; ev_completed := loc.2;
                ev_outcome := q |}) in *.
  assert (dispatch_ok workflow_id ev) as Hok.
  { split; [done|]. split; [|done]. exists step. done. }
  split; [|split].
  - exists [ev]. split; [done|]. split.
    { rewrite Hw. apply set_eq. intros k. rewrite !elem_of_dom.
      destruct (decide (workflow_id = k)) as [->|Hne].
      - rewrite lookup_alter_eq. by rewrite fmap_is_Some.
      - by rewrite lookup_alter_ne. }
    split; [by apply Forall_singleton|].
    split.
    { intros j Hj. rewrite Hsteps. apply list_lookup_alter_ne.
      apply (Hj ev). apply list_elem_of_singleton. done. }
    intros ev' Hev' Hfailed. apply list_elem_of_singleton in Hev' as ->.
    split; [done|]. split; [|eauto].
    destruct Hfailed as [e He]. cbn in He. unfold step_result.
    destruct q as [response|e'|]; cbn in *; [|done..].
    by destruct (AgentResponse.success response).
  - unfold step_result. destruct q as [response|e'|]; [|done..].
    by destruct (AgentResponse.success response).
  - intros loc' Hloc'. unfold step_result in Hloc'.
    destruct q as [response|e'|]; [|done..].
    destruct (AgentResponse.success response) eqn:Hsucc; [|done].
    simplify_eq. cbn. rewrite Hsteps.
    intros d Hd'. apply elem_of_union in Hd' as [Hd'|Hd'].
    + apply elem_of_singleton in Hd' as ->.
      exists i. eexists. split; [by rewrite list_lookup_alter_eq, Hstep|].
      cbn. by rewrite Hsucc.
    + destruct (Hinv d Hd') as (j & s & Hj & Hid & Hst).
      exists j, s. split; [|done].
      rewrite list_lookup_alter_ne; [done|].
      intros ->. rewrite Hstep in Hj. injection Hj as <-.
      rewrite Hpending in Hst. done.
Qed.

(** A scan, and any part of one. *)
Lemma scan_post workflow_id idxs : ∀ loc w mgr r w' mgr',
  completed_are_completed (steps_of workflow_id mgr) loc.2 →
  for_each idxs (run_step workflow_id) loc w mgr = (r, w', mgr') →
  run_post workflow_id mgr (raised r) mgr'
  ∧ r ≠ OutOfFuel
  ∧ ∀ loc', r = Ok loc' → completed_are_completed (steps_of workflow_id mgr') loc'.2.
Proof.
  induction idxs as [|i idxs IH]; intros loc w mgr r w' mgr' Hinv Hrun.
  - cbn in Hrun. unfold ret in Hrun. simplify_eq.
    split; [apply run_post_refl|]. split; [done|]. by intros ? [= <-].
  - cbn [for_each] in Hrun. unfold bind at 1 in Hrun.
    destruct (run_step workflow_id loc i w mgr) as [[r1 w1] mgr1] eqn:Hstep.
    destruct (run_step_post _ _ _ _ _ _ _ _ Hinv Hstep) as (Hpost & Hfuel & Hinv1).
    destruct r1 as [loc1|e|]; [|by simplify_eq|done].
    destruct (IH _ _ _ _ _ _ (Hinv1 loc1 eq_refl) Hrun) as (Hpost' & Hfuel' & Hinv').
    split; [|done]. by eapply run_post_trans.
Qed.

(** The [while] loop. *)
Lemma run_loop_post workflow_id fuel : ∀ loc w mgr r w' mgr',
  completed_are_completed (steps_of workflow_id mgr) loc.2 →
  run_loop fuel workflow_id loc w mgr = (r, w', mgr') →
  run_post workflow_id mgr (raised r) mgr'.
Proof.
  induction fuel as [|fuel IH]; intros loc w mgr r w' mgr' Hinv Hrun.
  - cbn in Hrun. unfold out_of_fuel in Hrun. simplify_eq. apply run_post_refl.
  - cbn [run_loop] in Hrun. unfold bind at 1, get in Hrun.
    case_bool_decide; [|unfold ret in Hrun; simplify_eq; apply run_post_refl].
    unfold bind at 1 in Hrun. unfold scan at 1 in Hrun. unfold bind at 1, get in Hrun.
    destruct (for_each _ _ _ _ _) as [[r1 w1] mgr1] eqn:Hscan.
    destruct (scan_post _ _ _ _ _ _ _ _ Hinv Hscan) as (Hpost & _ & Hinv1).
    destruct r1 as [loc1|e|]; [|by simplify_eq..].
    case_bool_decide.
    + unfold raise in Hrun. simplify_eq. by apply run_post_weaken.
    + unfold bind at 1, sleep in Hrun.
      apply (run_post_trans _ _ mgr1); [done|].
      by eapply IH; [apply Hinv1|].
Qed.

Lemma execute_workflow_stored fuel workflow_id w mgr :
  workflow_id ∈ dom (workflows mgr) →
  execute_workflow fuel workflow_id w mgr
  = match run_loop fuel workflow_id (∅, ∅) w
            (set_workflows
               (alter (Workflow.set_started_at (Some (clock w))
                       ∘ Workflow.set_status "running") workflow_id) mgr) with
    | (Ok loc, w1, mgr1) =>
        (Ok loc.1, w1,
         set_workflows
           (alter (Workflow.set_completed_at (Some (clock w1))
                   ∘ Workflow.set_status "completed") workflow_id) mgr1)
    | (Raise e, w1, mgr1) =>
        (Raise e,
         emit {| log_level := "error"; log_event := "Workflow execution failed";
                 log_fields := [("workflow_id", VStr workflow_id);
                                ("error", VStr (str_exc e))] |} w1,
         set_workflows
           (alter (Workflow.set_completed_at (Some (clock w1))
                   ∘ Workflow.set_status "failed") workflow_id) mgr1)
    | (OutOfFuel, w1, mgr1) => (OutOfFuel, w1, mgr1)
    end.
Proof.
  intros Hin. unfold execute_workflow, update_workflow. coro_simpl.
  rewrite bool_decide_eq_true_2 by done.
  destruct (run_loop _ _ _ _ _) as [[[loc|e|] w1] mgr1]; reflexivity.
Qed.

Lemma execute_workflow_unknown fuel workflow_id w mgr :
  workflow_id ∉ dom (workflows mgr) →
  execute_workflow fuel workflow_id w mgr
  = (Raise (ResourceNotFoundError ("Workflow " +:+ workflow_id +:+ " not found")
              "workflow" workflow_id), w, mgr).
Proof.
  intros Hin. unfold execute_workflow. coro_simpl.
  by rewrite bool_decide_eq_false_2.
Qed.

(** Assignments to the attributes of the workflow object other than
    [steps]. *)
Lemma steps_of_header_update workflow_id (F : Workflow.t → Workflow.t) mgr :
  (∀ x, Workflow.steps (F x) = Workflow.steps x) →
  steps_of workflow_id (set_workflows (alter F workflow_id) mgr)
  = steps_of workflow_id mgr.
Proof.
  intros HF. unfold steps_of. cbn. rewrite lookup_alter_eq.
  destruct (workflows mgr !! workflow_id); cbn; [apply HF | done].
Qed.

(** An execution as a whole. *)
Lemma execute_workflow_post fuel workflow_id w mgr r w' mgr' :
  execute_workflow fuel workflow_id w mgr = (r, w', mgr') →
  run_post workflow_id mgr (raised r) mgr'
  ∧ (is_Some (raised r) → workflow_id ∈ dom (workflows mgr) →
     Workflow.status <$> workflows mgr' !! workflow_id = Some "failed").
Proof.
  intros Hrun.
  destruct (decide (workflow_id ∈ dom (workflows mgr))) as [Hin|Hout].
  2:{ rewrite execute_workflow_unknown in Hrun by done. simplify_eq.
      split; [apply run_post_refl | done]. }
  rewrite execute_workflow_stored in Hrun by done.
  set (mgr0 := set_workflows _ mgr) in *.
  destruct (run_loop _ _ _ _ _) as [[r1 w1] mgr1] eqn:Hloop.
  apply run_loop_post in Hloop as (evs & Hd & Hdom & Hok & Hframe & Hfail).
  2:{ intros d Hd. by apply not_elem_of_empty in Hd. }
  assert (dom (workflows mgr0) = dom (workflows mgr)) as Hdom0.
  { unfold mgr0. cbn. apply set_eq. intros k. rewrite !elem_of_dom.
    destruct (decide (workflow_id = k)) as [->|Hne].
    - rewrite lookup_alter_eq. by rewrite fmap_is_Some.
    - by rewrite lookup_alter_ne. }
  assert (∀ F, dom (workflows (set_workflows (alter F workflow_id) mgr1))
               = dom (workflows mgr)) as Hdom1.
  { intros F. cbn. rewrite <- Hdom0, <- Hdom. apply set_eq. intros k.
    rewrite !elem_of_dom. destruct (decide (workflow_id = k)) as [->|Hne].
    - rewrite lookup_alter_eq. by rewrite fmap_is_Some.
    - by rewrite lookup_alter_ne. }
  assert (∀ F, (∀ x, Workflow.steps (F x) = Workflow.steps x) → ∀ j,
            (∀ ev, ev ∈ evs → ev_index ev ≠ j) →
            steps_of workflow_id (set_workflows (alter F workflow_id) mgr1) !! j
            = steps_of workflow_id mgr !! j) as Hframe1.
  { intros F HF j Hj. rewrite steps_of_header_update by done.
    rewrite Hframe by done. unfold mgr0. by rewrite steps_of_header_update. }
  destruct r1 as [loc|e|]; simplify_eq.
  - split; [|by intros [? [=]]].
    exists evs. split; [done|]. split; [apply Hdom1|]. split; [done|].
    split; [by apply Hframe1|].
    intros ev Hev Hfailed. destruct (Hfail ev Hev Hfailed) as (_ & Hx & _).
    destruct Hfailed as [e He]. cbn in Hx. congruence.
  - split.
    + exists evs. split; [done|]. split; [apply Hdom1|]. split; [done|].
      split; [by apply Hframe1|].
      intros ev Hev Hfailed.
      destruct (Hfail ev Hev Hfailed) as (Hlast & Hx & t & t' & Hst).
      split; [done|]. split; [done|]. exists t, t'.
      by rewrite steps_of_header_update.
    + intros _ _. cbn. rewrite lookup_alter_eq.
      assert (is_Some (workflows mgr1 !! workflow_id)) as [x ->]; [|done].
      apply elem_of_dom. by rewrite Hdom, Hdom0.
  - split; [|by intros [? [=]]].
    exists evs. split; [done|]. split; [by rewrite Hdom|]. split; [done|].
    split.
    { intros j Hj. rewrite Hframe by done. unfold mgr0.
      by rewrite steps_of_header_update. }
    intros ev Hev Hfailed. destruct (Hfail ev Hev Hfailed) as (_ & Hx & _).
    destruct Hfailed as [e He]. cbn in Hx. congruence.
Qed.

Lemma NoDup_step_ids_lookup (steps : list WorkflowStep.t) j1 j2 s1 s2 :
  NoDup (WorkflowStep.step_id <$> steps) →
  steps !! j1 = Some s1 → steps !! j2 = Some s2 →
  WorkflowStep.step_id s1 = WorkflowStep.step_id s2 → s1 = s2.
Proof.
  intros Hnd H1 H2 Hid.
  assert (j1 = j2) as ->; [|congruence].
  apply (NoDup_lookup _ _ _ (WorkflowStep.step_id s1) Hnd);
    rewrite list_lookup_fmap; [by rewrite H1 | by rewrite H2, Hid].
Qed.

(** C2: every dispatch of an execution (the point where the scan sets a
    step's status to ["running"] and calls [query_agent]) is of a step
    that was pending and all of whose dependencies were in
    [completed_steps]; each of these dependencies is the id of a step
    whose status was ["completed"], so that, step ids being distinct,
    no step with the id of a dependency had status ["failed"].  A step
    at a position without a dispatch is left as it was, status
    included. *)
Theorem steps_run_only_after_dependencies fuel workflow_id w mgr :
  ∃ evs,
    dispatched (execute_workflow fuel workflow_id w mgr).2 = dispatched mgr ++ evs
    ∧ (∀ j, (∀ ev, ev ∈ evs → ev_index ev ≠ j) →
            steps_of workflow_id (execute_workflow fuel workflow_id w mgr).2 !! j
            = steps_of workflow_id mgr !! j)
    ∧ ∀ ev, ev ∈ evs →
        ev_workflow_id ev = workflow_id
        ∧ ∃ step,
            ev_steps ev !! ev_index ev = Some step
            ∧ WorkflowStep.status step = "pending"
            ∧ ∀ dep, dep ∈ WorkflowStep.dependencies step →
                dep ∈ ev_completed ev
                ∧ (∃ j s, ev_steps ev !! j = Some s
                          ∧ WorkflowStep.step_id s = dep
                          ∧ WorkflowStep.status s = "completed")
                ∧ (NoDup (WorkflowStep.step_id <$> ev_steps ev) →
                   ∀ j s, ev_steps ev !! j = Some s →
                          WorkflowStep.step_id s = dep →
                          WorkflowStep.status s ≠ "failed").
Proof.
  destruct (execute_workflow fuel workflow_id w mgr) as [[r w'] mgr'] eqn:Hrun.
  apply execute_workflow_post in Hrun as [(evs & Hd & _ & Hok & Hframe & _) _].
  exists evs. split; [done|]. split; [done|].
  intros ev Hev. rewrite Forall_forall in Hok.
  destruct (Hok ev Hev) as (Hwid & (step & Hstep & Hready) & Hinv).
  split; [done|]. exists step. split; [done|].
  apply ready_spec in Hready as (_ & Hpending & Hdeps).
  split; [done|]. intros dep Hdep.
  split; [by apply Hdeps|].
  destruct (Hinv dep (Hdeps dep Hdep)) as (j & s & Hj & Hid & Hst).
  split; [by exists j, s|].
  intros Hnd j' s' Hj' Hid' Hfailed.
  assert (s' = s) as ->.
  { eapply NoDup_step_ids_lookup; [done..|congruence]. }
  rewrite Hst in Hfailed. done.
Qed.

(** C3: when a dispatch of an execution fails (the response has no
    success, or [query_agent] raised), it is the last dispatch of the
    execution; the execution raises the step's exception; the stored
    workflow has status ["failed"]; the step has status ["failed"] and
    the text of the exception as its [error]; and every step that was
    ["completed"] at that dispatch is unchanged, result included. *)
Theorem failed_step_aborts_workflow fuel workflow_id w mgr r w' mgr' evs ev :
  execute_workflow fuel workflow_id w mgr = (r, w', mgr') →
  dispatched mgr' = dispatched mgr ++ evs →
  ev ∈ evs →
  failed_dispatch ev →
  ∃ e step,
    dispatch_exception (ev_outcome ev) = Some e
    ∧ r = Raise e
    ∧ last (dispatched mgr') = Some ev
    ∧ Workflow.status <$> workflows mgr' !! workflow_id = Some "failed"
    ∧ steps_of workflow_id mgr' !! ev_index ev = Some step
    ∧ WorkflowStep.status step = "failed"
    ∧ WorkflowStep.error step = Some (str_exc e)
    ∧ ∀ j s, ev_steps ev !! j = Some s →
             WorkflowStep.status s = "completed" →
             steps_of workflow_id mgr' !! j = Some s.
Proof.
  intros Hrun Hd Hev Hfailed.
  destruct (decide (workflow_id ∈ dom (workflows mgr))) as [Hin|Hout].
  2:{ rewrite execute_workflow_unknown in Hrun by done.
      injection Hrun as _ _ Hm. rewrite <- Hm in Hd.
      rewrite <- (app_nil_r (dispatched mgr)) in Hd at 1.
      apply app_inv_head in Hd as <-. by apply elem_of_nil in Hev. }
  apply execute_workflow_post in Hrun as [(evs' & Hd' & _ & Hok & _ & Hfail) Hstatus].
  rewrite Hd' in Hd. apply app_inv_head in Hd as ->.
  destruct (Hfail ev Hev Hfailed) as (Hlast & Hx & t & t' & Hsteps).
  destruct Hfailed as [e He].
  rewrite Forall_forall in Hok.
  destruct (Hok ev Hev) as (_ & (step & Hstep & Hready) & _).
  apply ready_spec in Hready as (_ & Hpending & _).
  exists e, (settled_step (ev_outcome ev) t t' step).
  split; [done|].
  assert (r = Raise e) as ->.
  { rewrite He in Hx. destruct r; cbn in Hx; by simplify_eq. }
  split; [done|].
  split. { rewrite Hd', last_app, Hlast. done. }
  split. { apply Hstatus; [by eexists | done]. }
  split. { by rewrite Hsteps, list_lookup_alter_eq, Hstep. }
  assert (WorkflowStep.status (settled_step (ev_outcome ev) t t' step) = "failed"
          ∧ WorkflowStep.error (settled_step (ev_outcome ev) t t' step)
            = Some (str_exc e)) as [? ?].
  { unfold settled_step. destruct (ev_outcome ev) as [response|e'|]; cbn in He.
    - destruct (AgentResponse.success response); by simplify_eq.
    - by simplify_eq.
    - done. }
  split; [done|]. split; [done|].
  intros j s Hj Hcompleted. rewrite Hsteps, list_lookup_alter_ne; [done|].
  intros <-. rewrite Hstep in Hj. injection Hj as <-.
  rewrite Hpending in Hcompleted. done.
Qed.

(** The abort-on-failure scenario of the specification. *)
Lemma failed_step_aborts_workflow_witness :
  ∃ ev e step,
    last (dispatched abort_run.2) = Some ev
    ∧ dispatch_exception (ev_outcome ev) = Some e
    ∧ abort_run.1.1 = Raise e
    ∧ Workflow.status <$> workflows abort_run.2 !! uuid_str 3 = Some "failed"
    ∧ steps_of (uuid_str 3) abort_run.2 !! ev_index ev = Some step
    ∧ WorkflowStep.status step = "failed"
    ∧ WorkflowStep.error step = Some (str_exc e)
    ∧ ∀ j s, ev_steps ev !! j = Some s →
             WorkflowStep.status s = "completed" →
             steps_of (uuid_str 3) abort_run.2 !! j = Some s.
Proof.
  destruct (last (dispatched abort_run.2)) as [ev|] eqn:Hlast; [|by vm_compute in Hlast].
  destruct (failed_step_aborts_workflow 3 (uuid_str 3) abort_scenario.1 abort_scenario.2
              abort_run.1.1 abort_run.1.2 abort_run.2 (dispatched abort_run.2) ev)
    as (e & step & H1 & H2 & H3 & H4 & H5 & H6 & H7 & H8).
  - unfold abort_run. by destruct (execute_workflow _ _ _ _) as [[? ?] ?].
  - assert (dispatched abort_scenario.2 = []) as -> by (by vm_compute).
    cbn [app]. reflexivity.
  - by apply last_Some_elem_of.
  - vm_compute in Hlast. injection Hlast as <-. by eexists.
  - exists ev, e, step.
    exact (conj eq_refl (conj H1 (conj H2 (conj H4 (conj H5 (conj H6 (conj H7 H8))))))).
Defined.

(** The statuses the scenario must end with. *)
Example abort_scenario_statuses :
  WorkflowStep.status <$> steps_of (uuid_str 3) abort_run.2
  = ["completed"; "failed"; "pending"]
  ∧ Workflow.status <$> workflows abort_run.2 !! uuid_str 3 = Some "failed"
  ∧ abort_run.1.1 = Raise (Exception "Step failed: boom")
  ∧ length (dispatched abort_run.2) = 2.
Proof. repeat split; by vm_compute. Qed.

(** A scan in which no step passes the guard changes nothing. *)
Lemma for_each_none_ready workflow_id loc idxs : ∀ w mgr,
  none_ready (steps_of workflow_id mgr) loc.2 = true →
  for_each idxs (run_step workflow_id) loc w mgr = (Ok loc, w, mgr).
Proof.
  intros w mgr Hnone. induction idxs as [|i idxs IH]; [done|].
  cbn [for_each]. unfold bind. rewrite run_step_skip; [done|].
  intros step Hstep. unfold none_ready in Hnone. rewrite forallb_forall in Hnone.
  apply negb_true_iff, Hnone, list_elem_of_In. by eapply list_elem_of_lookup_2.
Qed.

Lemma run_loop_S fuel workflow_id loc w mgr :
  run_loop (S fuel) workflow_id loc w mgr
  = if bool_decide (size loc.2 < length (steps_of workflow_id mgr)) then
      match scan workflow_id loc w mgr with
      | (Ok loc', w', mgr') =>
          if bool_decide (size loc'.2 = 0) then (Raise deadlock_error, w', mgr')
          else run_loop fuel workflow_id loc' (tick w') mgr'
      | (Raise e, w', mgr') => (Raise e, w', mgr')
      | (OutOfFuel, w', mgr') => (OutOfFuel, w', mgr')
      end
    else (Ok loc, w, mgr).
Proof.
  cbn [run_loop]. unfold bind at 1, get. case_bool_decide; [|done].
  unfold bind at 1. destruct (scan workflow_id loc w mgr) as [[[loc'|e|] w'] mgr']; [|done..].
  by case_bool_decide.
Qed.

(** Once a scan starts nothing while [completed_steps] is neither
    empty nor complete, the loop never ends. *)
Lemma run_loop_stuck workflow_id loc mgr fuel : ∀ w,
  none_ready (steps_of workflow_id mgr) loc.2 = true →
  size loc.2 < length (steps_of workflow_id mgr) →
  size loc.2 ≠ 0 →
  ∃ w', run_loop fuel workflow_id loc w mgr = (OutOfFuel, w', mgr).
Proof.
  induction fuel as [|fuel IH]; intros w Hnone Hlt Hne.
  - by exists w.
  - rewrite run_loop_S, bool_decide_eq_true_2 by done.
    unfold scan, bind, get. rewrite for_each_none_ready by done.
    rewrite bool_decide_eq_false_2 by done. by apply IH.
Qed.

Lemma retry_first_scan_eq :
  retry_first_scan = (Ok retry_locals, retry_first_scan.1.2, retry_first_scan.2).
Proof. vm_compute. reflexivity. Qed.

(** C1, at the failing input: the second execution of the workflow of
    the retry scenario gives no answer, whatever the fuel.  Its first
    scan completes the second step; from then on no step is ready,
    [completed_steps] has one element, and the deadlock check, which
    tests for zero elements, never fires. *)
Theorem execute_workflow_retry_hangs fuel :
  (execute_workflow fuel (uuid_str 3) retry_scenario.1 retry_scenario.2).1.1 = OutOfFuel.
Proof.
  rewrite execute_workflow_stored
    by (apply elem_of_dom; vm_compute; eexists; reflexivity).
  change (set_workflows _ retry_scenario.2) with retry_running.
  assert (∃ w' mgr', run_loop fuel (uuid_str 3) (∅, ∅) retry_scenario.1 retry_running
                     = (OutOfFuel, w', mgr')) as (w' & mgr' & ->); [|reflexivity].
  destruct fuel as [|fuel]; [eexists _, _; reflexivity|].
  rewrite run_loop_S. rewrite bool_decide_eq_true_2 by (vm_compute; lia).
  change (scan _ _ _ retry_running) with retry_first_scan.
  rewrite retry_first_scan_eq. cbv beta iota.
  rewrite bool_decide_eq_false_2 by (vm_compute; discriminate).
  destruct (run_loop_stuck (uuid_str 3) retry_locals retry_first_scan.2 fuel
              (tick retry_first_scan.1.2)) as [w' Hstuck].
  - vm_compute. reflexivity.
  - vm_compute. lia.
  - vm_compute. discriminate.
  - exists w', retry_first_scan.2. exact Hstuck.
Qed.

(** The state in which the second execution loops: the first step
    failed, the second completed, the third waits for the first. *)
Example retry_scenario_statuses :
  WorkflowStep.status
    <$> steps_of (uuid_str 3)
          (execute_workflow 5 (uuid_str 3) retry_scenario.1 retry_scenario.2).2
  = ["failed"; "completed"; "pending"].
Proof. by vm_compute. Qed.

(** *** The first execution of a fresh workflow *)

Lemma settled_step_keeps q t t' s :
  WorkflowStep.step_id (settled_step q t t' s) = WorkflowStep.step_id s
  ∧ WorkflowStep.dependencies (settled_step q t t' s) = WorkflowStep.dependencies s.
Proof.
  unfold settled_step. destruct q as [response|e|]; [|done..].
  by destruct (AgentResponse.success response).
Qed.

Lemma fresh_steps_scanned steps : fresh_steps steps → scanned_to 0 steps ∅.
Proof.
  intros [Hnd Hfresh]. split; [done|]. split.
  { intros d. split; [by intros ?%not_elem_of_empty|]. intros (j & _ & ? & _). lia. }
  split; [done|]. intros i s Hs. destruct (Hfresh i s Hs) as [Hp Hdeps].
  split; [done|]. split; [lia|done].
Qed.

(** The step the scan reaches is ready. *)
Lemma scanned_to_ready k steps completed_steps s :
  scanned_to k steps completed_steps →
  steps !! k = Some s →
  ready s completed_steps = true.
Proof.
  intros (Hsize & Hmem & Hnd & Hsteps) Hk.
  destruct (Hsteps k s Hk) as (Hpending & _ & Hdeps).
  apply ready_spec. split; [|split; [by apply Hpending|]].
  - intros Hin. apply Hmem in Hin as (j & s' & Hj & Hs' & Hid).
    assert (j = k); [|lia].
    apply (NoDup_lookup _ _ _ (WorkflowStep.step_id s) Hnd);
      rewrite list_lookup_fmap; [by rewrite Hs'; cbn; rewrite Hid | by rewrite Hk].
  - intros d Hd. apply Hmem. destruct (Hdeps d Hd) as (j & s' & ? & ? & ?). eauto.
Qed.

(** Its completion moves the scan one position on. *)
Lemma scanned_to_S k steps completed_steps s F :
  scanned_to k steps completed_steps →
  steps !! k = Some s →
  (∀ x, WorkflowStep.step_id (F x) = WorkflowStep.step_id x
        ∧ WorkflowStep.dependencies (F x) = WorkflowStep.dependencies x) →
  WorkflowStep.status (F s) = "completed" →
  scanned_to (S k) (alter F k steps) ({[WorkflowStep.step_id s]} ∪ completed_steps).
Proof.
  intros Hscanned Hk HF Hcompleted.
  pose proof (scanned_to_ready _ _ _ _ Hscanned Hk) as Hready.
  apply ready_spec in Hready as (Hnew & _ & _).
  destruct Hscanned as (Hsize & Hmem & Hnd & Hsteps).
  assert (∀ j x, steps !! j = Some x →
            ∃ x', alter F k steps !! j = Some x'
                  ∧ WorkflowStep.step_id x' = WorkflowStep.step_id x
                  ∧ WorkflowStep.dependencies x' = WorkflowStep.dependencies x
                  ∧ (j ≠ k → x' = x) ∧ (j = k → x' = F x)) as Hfwd.
  { intros j x Hj. destruct (decide (j = k)) as [->|Hne].
    - exists (F x). rewrite list_lookup_alter_eq, Hj. destruct (HF x). done.
    - exists x. by rewrite list_lookup_alter_ne. }
  assert (∀ j x', alter F k steps !! j = Some x' →
            ∃ x, steps !! j = Some x
                 ∧ WorkflowStep.step_id x' = WorkflowStep.step_id x
                 ∧ WorkflowStep.dependencies x' = WorkflowStep.dependencies x
                 ∧ (j ≠ k → x' = x) ∧ (j = k → x' = F x)) as Hbwd.
  { intros j x' Hj. destruct (steps !! j) as [x|] eqn:Hx.
    - destruct (Hfwd j x Hx) as (x'' & Hx'' & ?). exists x.
      rewrite Hx'' in Hj. by injection Hj as <-.
    - apply lookup_ge_None in Hx. rewrite <- (length_alter F steps k) in Hx.
      apply lookup_ge_None in Hx. congruence. }
  split; [|split; [|split]].
  - rewrite size_union by set_solver. rewrite size_singleton. lia.
  - intros d. rewrite elem_of_union, elem_of_singleton, Hmem. split.
    + intros [->|(j & x & Hj & Hx & Hid)].
      * destruct (Hfwd k s Hk) as (x' & Hx' & Hid & _). exists k, x'. split; [lia|done].
      * destruct (Hfwd j x Hx) as (x' & Hx' & Hid' & _). exists j, x'.
        split; [lia|]. split; [done|congruence].
    + intros (j & x' & Hj & Hx' & Hid).
      destruct (Hbwd j x' Hx') as (x & Hx & Hid' & _).
      destruct (decide (j = k)) as [->|Hne].
      * left. rewrite Hk in Hx. injection Hx as <-. congruence.
      * right. exists j, x. split; [lia|]. split; [done|congruence].
  - assert (WorkflowStep.step_id <$> alter F k steps = WorkflowStep.step_id <$> steps)
      as ->; [|done].
    apply list_eq. intros j. rewrite !list_lookup_fmap.
    destruct (steps !! j) as [x|] eqn:Hx.
    + destruct (Hfwd j x Hx) as (x' & -> & Hid & _). cbn. by rewrite Hid.
    + apply lookup_ge_None in Hx. rewrite <- (length_alter F steps k) in Hx.
      apply lookup_ge_None in Hx. by rewrite Hx.
  - intros i x' Hi.
    destruct (Hbwd i x' Hi) as (x & Hx & Hid & Hdep & Hother & Hthis).
    destruct (Hsteps i x Hx) as (Hpending & Hdone & Hdeps).
    split; [|split].
    + intros Hle. rewrite Hother by lia. apply Hpending. lia.
    + intros Hlt. destruct (decide (i = k)) as [->|Hne].
      * rewrite Hthis by done. rewrite Hk in Hx. injection Hx as <-. done.
      * rewrite Hother by done. apply Hdone. lia.
    + intros d Hd. rewrite Hdep in Hd.
      destruct (Hdeps d Hd) as (j & y & Hj & Hy & Hyid).
      destruct (Hfwd j y Hy) as (y' & Hy' & Hyid' & _).
      exists j, y'. split; [done|]. split; [done|congruence].
Qed.

(** The first scan, from position [k] on. *)
Lemma scan_fresh workflow_id m : ∀ k loc w mgr r w' mgr',
  scanned_to k (steps_of workflow_id mgr) loc.2 →
  k + m = length (steps_of workflow_id mgr) →
  for_each (seq k m) (run_step workflow_id) loc w mgr = (r, w', mgr') →
  r ≠ OutOfFuel
  ∧ ∀ loc', r = Ok loc' →
      scanned_to (k + m) (steps_of workflow_id mgr') loc'.2
      ∧ length (steps_of workflow_id mgr') = length (steps_of workflow_id mgr).
Proof.
  induction m as [|m IH]; intros k loc w mgr r w' mgr' Hscanned Hlen Hrun.
  - cbn in Hrun. unfold ret in Hrun. simplify_eq. split; [done|].
    intros loc' [= <-]. by rewrite Nat.add_0_r.
  - cbn [seq for_each] in Hrun. unfold bind at 1 in Hrun.
    destruct (lookup_lt_is_Some_2 (steps_of workflow_id mgr) k) as [s Hs]; [lia|].
    pose proof (scanned_to_ready _ _ _ _ Hscanned Hs) as Hready.
    destruct (run_step_dispatch workflow_id loc k w mgr s Hs Hready)
      as (q & w1 & mgr1 & Hstep & Hq & _ & Hw).
    pose proof (steps_of_altered _ _ _ _ Hw (steps_of_Some _ _ _ _ Hs)) as Hsteps.
    rewrite Hstep in Hrun. unfold step_result in Hrun.
    destruct q as [response|e|]; [|by simplify_eq|done].
    destruct (AgentResponse.success response) eqn:Hsucc; [|by simplify_eq].
    apply IH in Hrun as [Hfuel Hok].
    + split; [done|]. intros loc' Hloc'. destruct (Hok loc' Hloc') as [Hsc Hl].
      rewrite Hsteps, length_alter in Hl.
      split; [|done]. by replace (k + S m) with (S k + m) by lia.
    + cbn [snd]. rewrite Hsteps. apply scanned_to_S; [done..| |].
      * intros x. apply settled_step_keeps.
      * unfold settled_step. by rewrite Hsucc.
    + rewrite Hsteps, length_alter. lia.
Qed.

Lemma run_loop_fresh workflow_id fuel loc w mgr r w' mgr' :
  scanned_to 0 (steps_of workflow_id mgr) loc.2 →
  (2 ≤ fuel)%nat →
  run_loop fuel workflow_id loc w mgr = (r, w', mgr') →
  r ≠ OutOfFuel
  ∧ (∀ loc', r = Ok loc' →
       ∀ i s, steps_of workflow_id mgr' !! i = Some s →
              WorkflowStep.status s = "completed").
Proof.
  intros Hscanned Hfuel Hrun.
  destruct fuel as [|[|fuel]]; [lia..|].
  pose proof Hscanned as (Hsize & _).
  rewrite run_loop_S in Hrun. rewrite Hsize in Hrun.
  case_bool_decide as Hn.
  2:{ simplify_eq. split; [done|]. intros loc' _ i s Hs.
      apply lookup_lt_Some in Hs. lia. }
  unfold scan, bind, get in Hrun.
  destruct (for_each _ _ _ _ _) as [[r1 w1] mgr1] eqn:Hscan.
  apply scan_fresh in Hscan as [Hfuel1 Hok]; [|done..].
  destruct r1 as [loc1|e|]; [|by simplify_eq|done].
  destruct (Hok loc1 eq_refl) as [Hsc Hlen]. cbn in Hsc.
  pose proof Hsc as (Hsize1 & _ & _ & Hsteps).
  rewrite bool_decide_eq_false_2 in Hrun by lia.
  rewrite run_loop_S in Hrun.
  rewrite bool_decide_eq_false_2 in Hrun by lia.
  simplify_eq. split; [done|]. intros loc' _ i s Hs.
  destruct (Hsteps i s Hs) as (_ & Hdone & _). apply Hdone.
  apply lookup_lt_Some in Hs. lia.
Qed.

(** X1: the first execution of a workflow that [create_workflow] built
    ends: two evaluations of the loop condition are enough.  It returns
    the results with every step and the workflow ["completed"], or it
    raises. *)
Theorem fresh_workflow_execution_ends fuel workflow_id w mgr workflow :
  workflows mgr !! workflow_id = Some workflow →
  fresh_steps (Workflow.steps workflow) →
  (2 ≤ fuel)%nat →
  (execute_workflow fuel workflow_id w mgr).1.1 ≠ OutOfFuel
  ∧ ∀ results,
      (execute_workflow fuel workflow_id w mgr).1.1 = Ok results →
      Workflow.status
        <$> workflows (execute_workflow fuel workflow_id w mgr).2 !! workflow_id
      = Some "completed"
      ∧ ∀ i s,
          steps_of workflow_id (execute_workflow fuel workflow_id w mgr).2 !! i = Some s →
          WorkflowStep.status s = "completed".
Proof.
  intros Hwf Hfresh Hfuel.
  rewrite execute_workflow_stored by (apply elem_of_dom; eauto).
  set (mgr0 := set_workflows _ mgr).
  assert (steps_of workflow_id mgr0 = Workflow.steps workflow) as Hsteps0.
  { unfold mgr0. rewrite steps_of_header_update by done. unfold steps_of. by rewrite Hwf. }
  destruct (run_loop fuel workflow_id (∅, ∅) w mgr0) as [[r1 w1] mgr1] eqn:Hloop.
  pose proof Hloop as Hpost.
  apply run_loop_post in Hpost as (_ & _ & Hdom & _);
    [|intros d Hd; by apply not_elem_of_empty in Hd].
  apply run_loop_fresh in Hloop as [Hne Hok]; [|by rewrite Hsteps0; apply fresh_steps_scanned|done].
  destruct r1 as [loc|e|]; [|done..]. cbn [fst snd].
  split; [done|]. intros results _. split.
  - cbn. rewrite lookup_alter_eq.
    assert (is_Some (workflows mgr1 !! workflow_id)) as [x ->]; [|done].
    apply elem_of_dom. rewrite Hdom. unfold mgr0. cbn. apply elem_of_dom.
    rewrite lookup_alter_eq, Hwf. by eexists.
  - intros i s Hs. rewrite steps_of_header_update in Hs by done. by eapply Hok.
Qed.

Lemma fresh_workflow_execution_ends_witness :
  abort_run.1.1 ≠ OutOfFuel
  ∧ ∀ results,
      abort_run.1.1 = Ok results →
      Workflow.status <$> workflows abort_run.2 !! uuid_str 3 = Some "completed"
      ∧ ∀ i s,
          steps_of (uuid_str 3) abort_run.2 !! i = Some s →
          WorkflowStep.status s = "completed".
Proof.
  apply (fresh_workflow_execution_ends 3 (uuid_str 3) abort_scenario.1 abort_scenario.2
           (expected_workflow one_agent.1 abort_definition)).
  - vm_compute. reflexivity.
  - apply expected_workflow_fresh.
  - lia.
Defined.

End execute_workflow_facts.

(** * Further properties

    Properties of the methods beside the ones above: what the bus, the
    registry and the engine keep, undo and never do. *)

(** ** The message bus: deliveries *)

Section bus_facts.

Import communication.

Lemma only_delivered_refl cm : only_delivered cm cm.
Proof.
  repeat split. intros a. exists []. split; [cbn; lia|].
  destruct (message_queues cm !! a); cbn; by rewrite ?app_nil_r.
Qed.

(** A delivery loop appends at most one message to a queue, and only
    to the queues of the recipients it visits. *)
Lemma deliver_loop_grows p f l : NoDup l → ∀ w cm r w' cm',
  for_each l (deliver p f) tt w cm = (r, w', cm') →
  w' = w ∧ r ≠ OutOfFuel
  ∧ agents cm' = agents cm ∧ subscriptions cm' = subscriptions cm
  ∧ running cm' = running cm
  ∧ ∀ a, ∃ new,
      (new = [] ∨ (a ∈ l ∧ new = [f a]))
      ∧ message_queues cm' !! a = (λ q, q ++ new) <$> message_queues cm !! a.
Proof.
  induction l as [|x l IH]; intros Hnd w cm r w' cm' Hrun.
  - cbn in Hrun. unfold ret in Hrun. simplify_eq. repeat split; [done|].
    intros a. exists []. split; [by left|].
    destruct (message_queues cm' !! a); cbn; by rewrite ?app_nil_r.
  - apply NoDup_cons in Hnd as [Hx Hnd].
    cbn [for_each] in Hrun. unfold bind at 1, deliver at 1 in Hrun.
    destruct (p x).
    + destruct (message_queues cm !! x) as [q|] eqn:Hqx.
      * rewrite (queue_put_Some _ _ _ _ _ Hqx) in Hrun.
        apply IH in Hrun as (-> & Hr & Hag & Hsub & Hrn & Hqs); [|done].
        cbn in *. repeat split; [done..|].
        intros a. destruct (decide (a = x)) as [->|Hne].
        -- destruct (Hqs x) as (new & [->|[Hin _]] & Hq'); [|done].
           exists [f x]. split; [right; split; [left|done]|].
           rewrite Hq', lookup_insert_eq, Hqx. cbn. by rewrite app_nil_r.
        -- destruct (Hqs a) as (new & Hnew & Hq'). exists new. split.
           { destruct Hnew as [->|[Hin ->]]; [by left|]. right. split; [by right|done]. }
           rewrite Hq'. by rewrite lookup_insert_ne.
      * rewrite (queue_put_None _ _ _ _ Hqx) in Hrun. simplify_eq.
        repeat split; [done|]. intros a. exists []. split; [by left|].
        destruct (message_queues cm' !! a); cbn; by rewrite ?app_nil_r.
    + unfold ret at 1 in Hrun.
      apply IH in Hrun as (-> & Hr & Hag & Hsub & Hrn & Hqs); [|done].
      repeat split; [done..|].
      intros a. destruct (Hqs a) as (new & Hnew & Hq'). exists new. split; [|done].
      destruct Hnew as [->|[Hin ->]]; [by left|]. right. split; [by right|done].
Qed.

Lemma deliver_loop_only_delivered p f l w cm r w' cm' :
  NoDup l →
  for_each l (deliver p f) tt w cm = (r, w', cm') →
  w' = w ∧ r ≠ OutOfFuel ∧ only_delivered cm cm'.
Proof.
  intros Hnd Hrun.
  apply deliver_loop_grows in Hrun as (-> & Hr & Hag & Hsub & Hrn & Hqs); [|done].
  repeat split; [done..|].
  intros a. destruct (Hqs a) as (new & Hnew & Hq'). exists new. split; [|done].
  destruct Hnew as [->|[_ ->]]; cbn; lia.
Qed.

(** [send_message] answers with a boolean, whatever happens, and does
    nothing but deliver. *)
Lemma send_message_only_delivers message w cm r w' cm' :
  send_message message w cm = (r, w', cm') →
  (∃ b, r = Ok b)
  ∧ clock w' = clock w ∧ uuid_counter w' = uuid_counter w
  ∧ only_delivered cm cm'.
Proof.
  unfold send_message, try_except. intros Hrun.
  destruct (truthy_opt_str (recipient_id message)).
  - unfold bind at 1, get in Hrun. case_bool_decide.
    + unfold bind at 1 in Hrun.
      destruct (message_queues cm !! default "" (recipient_id message)) as [q|] eqn:Hq.
      * rewrite (queue_put_Some _ _ _ _ _ Hq) in Hrun. unfold ret in Hrun. simplify_eq.
        split; [eauto|]. repeat split; [done..|].
        intros a. cbn. destruct (decide (a = default "" (recipient_id message))) as [->|Hne].
        -- exists [message]. split; [cbn; lia|]. by rewrite lookup_insert_eq, Hq.
        -- exists []. split; [cbn; lia|]. rewrite lookup_insert_ne by done.
           destruct (message_queues cm !! a); cbn; by rewrite ?app_nil_r.
      * rewrite (queue_put_None _ _ _ _ Hq) in Hrun. coro_simpl. simplify_eq.
        split; [eauto|]. repeat split; [done..|]. apply only_delivered_refl.
    + coro_simpl. simplify_eq. split; [eauto|]. repeat split; [done..|].
      apply only_delivered_refl.
  - unfold bind at 1, get in Hrun. unfold bind at 1 in Hrun.
    destruct (for_each _ _ _ _ _) as [[r1 w1] cm1] eqn:Hloop.
    apply deliver_loop_only_delivered in Hloop as (-> & Hr1 & Hgrow);
      [|apply NoDup_elements].
    destruct r1 as [[]|e|]; [| |done]; coro_simpl; simplify_eq; eauto.
Qed.

Lemma publish_event_only_delivers event_type data sender w cm r w' cm' :
  publish_event event_type data sender w cm = (r, w', cm') →
  r ≠ OutOfFuel ∧ clock w' = clock w ∧ only_delivered cm cm'.
Proof.
  unfold publish_event. unfold bind at 1, get. intros Hrun.
  destruct (subscriptions cm !! event_type) as [subs|].
  - unfold bind, uuid4, utcnow in Hrun.
    apply deliver_loop_only_delivered in Hrun as (-> & Hr & Hgrow); [|apply NoDup_elements].
    done.
  - unfold ret in Hrun. simplify_eq. split; [done|]. split; [done|].
    apply only_delivered_refl.
Qed.

End bus_facts.

Section bus_theorems.

Import communication.

(** X2: [send_message] never raises and never runs out of fuel: it answers
    [True] or [False]; [publish_event] may raise.  Whatever they answer,
    they leave the endpoints, the subscriptions and the [running] flag
    as they were, create and delete no queue, and change a queue only
    by appending at most one message at its end: no queued message is
    lost, overtaken or reordered. *)
Theorem delivery_only_appends w cm :
  (∀ message,
     ∃ b w' cm',
       send_message message w cm = (Ok b, w', cm') ∧ only_delivered cm cm')
  ∧ (∀ event_type data sender r w' cm',
       publish_event event_type data sender w cm = (r, w', cm') →
       r ≠ OutOfFuel ∧ only_delivered cm cm').
Proof.
  split.
  - intros message.
    destruct (send_message message w cm) as [[r w'] cm'] eqn:Hrun.
    apply send_message_only_delivers in Hrun as ([b ->] & _ & _ & Hgrow).
    by exists b, w', cm'.
  - intros event_type data sender r w' cm' Hrun.
    by apply publish_event_only_delivers in Hrun as (? & _ & ?).
Qed.

Lemma set_message_queues_insert_id cm rid q :
  message_queues cm !! rid = Some q →
  set_message_queues (<[rid := q]>) cm = cm.
Proof. intros Hq. destruct cm. unfold set_message_queues. cbn in *. by rewrite insert_id. Qed.

Lemma send_message_direct message rid w cm q :
  recipient_id message = Some rid → rid ≠ "" →
  rid ∈ dom (agents cm) → message_queues cm !! rid = Some q →
  send_message message w cm
  = (Ok true, w, set_message_queues (<[rid := q ++ [message]]>) cm).
Proof.
  intros Hrid Hne Hin Hq. unfold send_message.
  rewrite Hrid, (truthy_opt_str_Some _ Hne). cbn [default].
  unfold try_except, bind at 1, get. rewrite bool_decide_eq_true_2 by done.
  unfold bind. by rewrite (queue_put_Some _ _ _ _ _ Hq).
Qed.

Lemma send_all_direct ms rid : ∀ answers w cm q,
  rid ≠ "" → rid ∈ dom (agents cm) → message_queues cm !! rid = Some q →
  Forall (λ m, recipient_id m = Some rid) ms →
  for_each ms (λ answers m, b <- send_message m ;; ret (answers ++ [b])) answers w cm
  = (Ok (answers ++ replicate (length ms) true), w,
     set_message_queues (<[rid := q ++ ms]>) cm).
Proof.
  induction ms as [|m ms IH]; intros answers w cm q Hne Hin Hq Hall.
  - cbn. rewrite !app_nil_r. by rewrite set_message_queues_insert_id.
  - apply Forall_cons in Hall as [Hm Hall].
    cbn [for_each]. unfold bind at 1. unfold bind at 1.
    rewrite (send_message_direct m rid w cm q Hm Hne Hin Hq). unfold ret at 1.
    rewrite (IH _ _ _ (q ++ [m])); [|done|done|by cbn; rewrite lookup_insert_eq|done].
    cbn [length replicate]. rewrite <- !app_assoc. cbn [app].
    f_equal. destruct cm. unfold set_message_queues. cbn. by rewrite insert_insert_eq.
Qed.

(** X3: messages addressed to a registered endpoint are queued for it in
    the order they are sent, as they are: every [send_message] answers
    [True], the endpoint's queue ends up as the old queue followed by
    the messages in sending order, and nothing else changes. *)
Theorem direct_messages_keep_their_order ms rid w cm q :
  rid ≠ "" →
  rid ∈ dom (agents cm) →
  message_queues cm !! rid = Some q →
  Forall (λ m, recipient_id m = Some rid) ms →
  send_all ms w cm
  = (Ok (replicate (length ms) true), w, set_message_queues (<[rid := q ++ ms]>) cm).
Proof.
  intros Hne Hin Hq Hall. unfold send_all.
  by rewrite (send_all_direct ms rid [] w cm q).
Qed.

Lemma direct_messages_keep_their_order_witness :
  send_all [example_message "a" (Some "b"); example_message "c" (Some "b")]
    world0 (bus_of ["a"; "b"; "c"])
  = (Ok [true; true], world0,
     set_message_queues
       (<["b" := [] ++ [example_message "a" (Some "b"); example_message "c" (Some "b")]]>)
       (bus_of ["a"; "b"; "c"])).
Proof.
  apply (direct_messages_keep_their_order
           [example_message "a" (Some "b"); example_message "c" (Some "b")]
           "b" world0 (bus_of ["a"; "b"; "c"]) []).
  - done.
  - apply elem_of_dom. by vm_compute; eexists.
  - reflexivity.
  - repeat constructor.
Defined.

End bus_theorems.

(** ** The message bus: subscriptions *)

Section subscription_theorems.

Import communication.

Lemma set_subscriptions_id cm subs :
  subs = subscriptions cm → set_subscriptions (λ _, subs) cm = cm.
Proof. intros ->. by destruct cm. Qed.

(** X4: [subscribe_to_event] and [unsubscribe_from_event] undo each other:
    on a bus without empty subscriber sets, subscribing an agent that
    was not subscribed to the topic and then unsubscribing it leaves
    the bus exactly as it was (the topic's entry is deleted again if
    the subscription created it), and unsubscribing an agent that was
    subscribed and then subscribing it again does too. *)
Theorem subscribe_unsubscribe_inverse agent_id event_type w cm :
  no_empty_topic cm →
  ((∀ subs, subscriptions cm !! event_type = Some subs → agent_id ∉ subs) →
   (subscribe_to_event agent_id event_type ;;;
    unsubscribe_from_event agent_id event_type) w cm = (Ok tt, w, cm))
  ∧ ((∃ subs, subscriptions cm !! event_type = Some subs ∧ agent_id ∈ subs) →
     (unsubscribe_from_event agent_id event_type ;;;
      subscribe_to_event agent_id event_type) w cm = (Ok tt, w, cm)).
Proof.
  intros Hne. split.
  - intros Hnot. unfold subscribe_to_event, unsubscribe_from_event. coro_simpl.
    cbn. rewrite lookup_insert_eq.
    destruct (subscriptions cm !! event_type) as [subs|] eqn:Hsubs; cbn.
    + pose proof (Hnot subs eq_refl) as Ha. pose proof (Hne _ _ Hsubs) as Hs.
      assert (({[agent_id]} ∪ subs) ∖ {[agent_id]} = subs) as -> by set_solver.
      rewrite bool_decide_eq_false_2 by done.
      f_equal. destruct cm. unfold set_subscriptions. cbn in *.
      by rewrite insert_insert_eq, insert_id.
    + rewrite bool_decide_eq_true_2 by set_solver.
      f_equal. destruct cm. unfold set_subscriptions. cbn in *.
      by rewrite delete_insert_id.
  - intros (subs & Hsubs & Ha).
    unfold subscribe_to_event, unsubscribe_from_event. coro_simpl. rewrite Hsubs.
    case_bool_decide as He; cbn.
    + assert (subs = {[agent_id]}) as ->.
      { apply set_eq. intros x. rewrite elem_of_singleton. split; [|by intros ->].
        intros Hx. destruct (decide (x = agent_id)) as [|Hn]; [done|].
        assert (x ∈ subs ∖ {[agent_id]}) as Hx' by set_solver.
        rewrite He in Hx'. by apply not_elem_of_empty in Hx'. }
      f_equal. destruct cm. unfold set_subscriptions. cbn in *.
      rewrite lookup_delete_eq. cbn.
      rewrite insert_delete_eq, union_empty_r_L. by rewrite insert_id.
    + assert ({[agent_id]} ∪ subs ∖ {[agent_id]} = subs) as Hback.
      { apply set_eq. intros x. rewrite elem_of_union, elem_of_difference, elem_of_singleton.
        destruct (decide (x = agent_id)) as [->|]; naive_solver. }
      f_equal. destruct cm. unfold set_subscriptions. cbn in *.
      rewrite lookup_insert_eq. cbn. rewrite Hback.
      by rewrite insert_insert_eq, insert_id.
Qed.

Lemma subscribe_unsubscribe_inverse_witness :
  (subscribe_to_event "c" "t" ;;; unsubscribe_from_event "c" "t") world0 bus_with_topic
  = (Ok tt, world0, bus_with_topic)
  ∧ (unsubscribe_from_event "a" "t" ;;; subscribe_to_event "a" "t") world0 bus_with_topic
    = (Ok tt, world0, bus_with_topic).
Proof.
  assert (subscriptions bus_with_topic = {["t" := {["a"; "b"]}]}) as Hsubs.
  { by vm_compute. }
  assert (no_empty_topic bus_with_topic) as Hne.
  { intros t subs. rewrite Hsubs. intros [<- <-]%lookup_singleton_Some. set_solver. }
  split.
  - apply (proj1 (subscribe_unsubscribe_inverse "c" "t" world0 bus_with_topic Hne)).
    intros subs. rewrite Hsubs, lookup_singleton_eq. intros [= <-]. set_solver.
  - apply (proj2 (subscribe_unsubscribe_inverse "a" "t" world0 bus_with_topic Hne)).
    exists {["a"; "b"]}. rewrite Hsubs, lookup_singleton_eq. split; [done|set_solver].
Defined.

Lemma drop_subscriber_step agent_id event_type w cm subs :
  subscriptions cm !! event_type = Some subs →
  drop_subscriber agent_id tt event_type w cm
  = (Ok tt, w,
     set_subscriptions
       (λ m, match without agent_id subs with
             | Some subs' => <[event_type := subs']> m
             | None => delete event_type m
             end) cm).
Proof.
  intros Hsubs. unfold drop_subscriber, without. coro_simpl. rewrite Hsubs.
  case_bool_decide as He.
  - rewrite decide_True by done. cbn. rewrite lookup_insert_eq.
    destruct cm. unfold set_subscriptions. cbn. by rewrite delete_insert_eq.
  - by rewrite decide_False.
Qed.

Lemma drop_subscriber_loop agent_id l : NoDup l → ∀ w cm,
  (∀ t, t ∈ l → is_Some (subscriptions cm !! t)) →
  ∃ subs',
    for_each l (drop_subscriber agent_id) tt w cm
    = (Ok tt, w, set_subscriptions (λ _, subs') cm)
    ∧ ∀ t, subs' !! t =
        if decide (t ∈ l) then subscriptions cm !! t ≫= without agent_id
        else subscriptions cm !! t.
Proof.
  induction l as [|x l IH]; intros Hnd w cm Hdom.
  - exists (subscriptions cm). split; [by destruct cm|].
    intros t. rewrite decide_False; [done|]. apply not_elem_of_nil.
  - apply NoDup_cons in Hnd as [Hx Hnd].
    destruct (Hdom x) as [subs Hsubs]; [left|].
    cbn [for_each]. unfold bind at 1.
    rewrite (drop_subscriber_step _ _ _ _ _ Hsubs).
    set (cm1 := set_subscriptions _ cm).
    destruct (IH Hnd w cm1) as (subs' & Hrun & Hlook).
    { intros t Ht. subst cm1. cbn.
      assert (t ≠ x) as Hne by (intros ->; done).
      destruct (without agent_id subs);
        [rewrite lookup_insert_ne by done | rewrite lookup_delete_ne by done];
        apply Hdom; by right. }
    exists subs'. split.
    { rewrite Hrun. subst cm1. by destruct cm. }
    intros t. rewrite Hlook.
    destruct (decide (t = x)) as [->|Hne].
    + rewrite decide_False by done. rewrite decide_True by left.
      subst cm1. cbn. rewrite Hsubs. cbn.
      destruct (without agent_id subs);
        [by rewrite lookup_insert_eq | by rewrite lookup_delete_eq].
    + assert (subscriptions cm1 !! t = subscriptions cm !! t) as Hsame.
      { subst cm1. cbn. destruct (without agent_id subs);
          [by rewrite lookup_insert_ne | by rewrite lookup_delete_ne]. }
      rewrite Hsame.
      destruct (decide (t ∈ l)) as [Hin|Hnin].
      * by rewrite decide_True by (by right).
      * rewrite decide_False; [done|]. intros [->|?]%elem_of_cons; done.
Qed.

Lemma unregister_agent_registered agent_id w cm :
  agent_id ∈ dom (agents cm) →
  agent_id ∈ dom (message_queues cm) →
  unregister_agent agent_id w cm
  = (Ok tt, w,
     set_subscriptions (λ _, omap (without agent_id) (subscriptions cm))
       (set_message_queues (delete agent_id) (set_agents (delete agent_id) cm))).
Proof.
  intros Hin Hq.
  apply elem_of_dom in Hin as [h Hh]. apply elem_of_dom in Hq as [q Hq].
  unfold unregister_agent. unfold bind at 1, get.
  rewrite bool_decide_eq_true_2 by (apply elem_of_dom; eauto).
  coro_simpl. rewrite Hh. cbn. rewrite Hq.
  set (cm1 := set_message_queues _ (set_agents _ cm)).
  destruct (drop_subscriber_loop agent_id (elements (dom (subscriptions cm)))
              (NoDup_elements _) w cm1) as (subs' & Hrun & Hlook).
  { intros t Ht. apply elem_of_elements in Ht. by apply elem_of_dom in Ht. }
  rewrite Hrun. f_equal.
  assert (subs' = omap (without agent_id) (subscriptions cm)) as ->.
  { apply map_eq. intros t. rewrite Hlook, lookup_omap. subst cm1. cbn.
    case_decide as Ht; [done|].
    rewrite elem_of_elements in Ht. apply not_elem_of_dom in Ht. by rewrite Ht. }
  subst cm1. by destruct cm.
Qed.

(** X5: [unregister_agent] of a registered endpoint returns and removes the
    endpoint, its queue with whatever was still queued in it, and the
    agent from the subscribers of every topic; a topic that is left
    without subscribers loses its entry, every other subscriber stays.
    For an id that is not registered it returns at once and changes
    nothing, subscriptions of that id included. *)
Theorem unregister_agent_drops_subscriptions agent_id w cm :
  endpoints_have_queues cm →
  (agent_id ∈ dom (agents cm) →
   ∃ cm',
     unregister_agent agent_id w cm = (Ok tt, w, cm')
     ∧ agents cm' = delete agent_id (agents cm)
     ∧ message_queues cm' = delete agent_id (message_queues cm)
     ∧ (∀ event_type,
          subscriptions cm' !! event_type
          = subscriptions cm !! event_type ≫= without agent_id)
     ∧ (∀ event_type subs,
          subscriptions cm' !! event_type = Some subs →
          (agent_id ∉ subs) ∧ subs ≠ ∅
          ∧ ∃ old, subscriptions cm !! event_type = Some old
                   ∧ subs = old ∖ {[agent_id]}))
  ∧ (agent_id ∉ dom (agents cm) →
     unregister_agent agent_id w cm = (Ok tt, w, cm)).
Proof.
  intros Hsync. split.
  - intros Hin. eexists. split.
    { apply unregister_agent_registered; [done|]. by rewrite <- Hsync. }
    cbn. split; [done|]. split; [done|]. split.
    + intros event_type. apply lookup_omap.
    + intros event_type subs. rewrite lookup_omap.
      destruct (subscriptions cm !! event_type) as [old|]; [|done]. cbn.
      unfold without. case_decide as He; [done|]. intros [= <-].
      split; [set_solver|]. split; [done|]. by exists old.
  - intros Hnot. unfold unregister_agent. coro_simpl.
    by rewrite bool_decide_eq_false_2.
Qed.

Lemma unregister_agent_drops_subscriptions_witness :
  (("a" ∈ dom (agents bus_with_topic)) →
   ∃ cm',
     unregister_agent "a" world0 bus_with_topic = (Ok tt, world0, cm')
     ∧ agents cm' = delete "a" (agents bus_with_topic)
     ∧ message_queues cm' = delete "a" (message_queues bus_with_topic)
     ∧ (∀ event_type,
          subscriptions cm' !! event_type
          = subscriptions bus_with_topic !! event_type ≫= without "a")
     ∧ (∀ event_type subs,
          subscriptions cm' !! event_type = Some subs →
          ("a" ∉ subs) ∧ subs ≠ ∅
          ∧ ∃ old, subscriptions bus_with_topic !! event_type = Some old
                   ∧ subs = old ∖ {["a"]}))
  ∧ (("a" ∉ dom (agents bus_with_topic)) →
     unregister_agent "a" world0 bus_with_topic = (Ok tt, world0, bus_with_topic)).
Proof.
  apply (unregister_agent_drops_subscriptions "a" world0 bus_with_topic).
  by vm_compute.
Defined.

End subscription_theorems.

(** ** The message bus: processors *)

Section processor_theorems.

Import communication.

Lemma process_next_empty agent_id handler w cm :
  default [] (message_queues cm !! agent_id) = [] →
  process_next agent_id handler w cm = (Ok tt, tick w, cm).
Proof. intros Hq. unfold process_next. coro_simpl. by rewrite Hq. Qed.

Lemma process_next_nonempty agent_id handler w cm message rest :
  message_queues cm !! agent_id = Some (message :: rest) →
  process_next agent_id handler w cm
  = match handle_message handler (clock w) message with
    | Returns None => (Ok tt, tick w, set_message_queues (<[agent_id := rest]>) cm)
    | Returns (Some response) =>
        (Ok tt,
         (send_message response (tick w) (set_message_queues (<[agent_id := rest]>) cm)).1.2,
         (send_message response (tick w) (set_message_queues (<[agent_id := rest]>) cm)).2)
    | Throws e =>
        (Ok tt, emit (processing_error agent_id message e) (tick w),
         set_message_queues (<[agent_id := rest]>) cm)
    end.
Proof.
  intros Hq. unfold process_next. coro_simpl. rewrite Hq. cbn [default id].
  destruct (handle_message handler (clock w) message) as [[response|]|e]; [|done..].
  destruct (send_message response _ _) as [[r w'] cm'] eqn:Hsend.
  apply send_message_only_delivers in Hsend as ([b ->] & _). done.
Qed.

(** X6: one turn of an endpoint's message processor on a non-empty queue
    always completes: it takes the oldest message off the queue and
    hands it to the handler.  A handler that raises costs that one
    message, which is logged as an error; a response the handler
    returns is sent with [send_message]; in each case the messages
    queued behind stay queued in their order, in every queue, and the
    endpoints, the subscriptions and the [running] flag are untouched.
    On an empty queue the turn only lets time pass. *)
Theorem processor_turn agent_id handler w cm :
  (∀ message rest,
     message_queues cm !! agent_id = Some (message :: rest) →
     let taken := set_message_queues (<[agent_id := rest]>) cm in
     ∃ w' cm',
       process_next agent_id handler w cm = (Ok tt, w', cm')
       ∧ clock w' = S (clock w)
       ∧ only_delivered taken cm'
       ∧ (∃ new, message_queues cm' !! agent_id = Some (rest ++ new))
       ∧ match handle_message handler (clock w) message with
         | Returns None => w' = tick w ∧ cm' = taken
         | Returns (Some response) =>
             cm' = (send_message response (tick w) taken).2
         | Throws e =>
             w' = emit (processing_error agent_id message e) (tick w) ∧ cm' = taken
         end)
  ∧ (default [] (message_queues cm !! agent_id) = [] →
     process_next agent_id handler w cm = (Ok tt, tick w, cm)).
Proof.
  split; [|apply process_next_empty].
  intros message rest Hq taken.
  rewrite (process_next_nonempty _ _ _ _ _ _ Hq). fold taken.
  assert (message_queues taken !! agent_id = Some rest) as Htaken.
  { subst taken. cbn. apply lookup_insert_eq. }
  destruct (handle_message handler (clock w) message) as [[response|]|e].
  - destruct (send_message response (tick w) taken) as [[r w'] cm'] eqn:Hsend.
    apply send_message_only_delivers in Hsend as (_ & Hclock & _ & Hgrow).
    exists w', cm'. cbn [fst snd]. split; [done|]. split; [by rewrite Hclock|].
    split; [done|]. split; [|done].
    destruct Hgrow as (_ & _ & _ & Hqs). destruct (Hqs agent_id) as (new & _ & Hnew).
    exists new. by rewrite Hnew, Htaken.
  - exists (tick w), taken. split; [done|]. split; [done|].
    split; [apply only_delivered_refl|]. split; [|done].
    exists []. by rewrite app_nil_r.
  - eexists _, taken. split; [done|]. split; [done|].
    split; [apply only_delivered_refl|]. split; [|done].
    exists []. by rewrite app_nil_r.
Qed.

(** A handler that does not implement [handle_message]: the message
    is taken off the queue, the failure is logged, the turn completes. *)
Example abstract_handler_loses_the_message :
  message_queues (send_message (example_message "a" (Some "b")) world0 (bus_of ["a"; "b"])).2
    !! "b" = Some [example_message "a" (Some "b")]
  ∧ process_next "b" abstract_handler world0
      (send_message (example_message "a" (Some "b")) world0 (bus_of ["a"; "b"])).2
    = (Ok tt,
       emit (processing_error "b" (example_message "a" (Some "b"))
               (ForeignError "NotImplementedError"
                  "Subclasses must implement handle_message")) (tick world0),
       bus_of ["a"; "b"]).
Proof. split; by vm_compute. Qed.

Lemma process_next_running agent_id handler w cm :
  ∃ w' cm',
    process_next agent_id handler w cm = (Ok tt, w', cm')
    ∧ running cm' = running cm.
Proof.
  destruct (message_queues cm !! agent_id) as [[|message rest]|] eqn:Hq.
  - rewrite process_next_empty by (by rewrite Hq). eauto.
  - rewrite (process_next_nonempty _ _ _ _ _ _ Hq).
    destruct (handle_message handler (clock w) message) as [[response|]|e];
      [|by eauto..].
    destruct (send_message response (tick w) _) as [[r w'] cm'] eqn:Hsend.
    apply send_message_only_delivers in Hsend as (_ & _ & _ & (_ & _ & Hrun & _)).
    exists w', cm'. done.
  - rewrite process_next_empty by (by rewrite Hq). eauto.
Qed.

Lemma processor_loop_running fuel agent_id handler : ∀ w cm,
  running cm = true →
  (processor_loop fuel agent_id handler w cm).1.1 = OutOfFuel.
Proof.
  induction fuel as [|fuel IH]; intros w cm Hrun; [done|].
  cbn [processor_loop]. unfold bind at 1, get. rewrite Hrun. unfold bind at 1.
  destruct (process_next_running agent_id handler w cm) as (w' & cm' & -> & Hrun').
  apply IH. congruence.
Qed.

(** X7: the processor of a registered endpoint ends in one way only: by the
    [running] flag being cleared.  While the bus is not running it
    returns at once and takes nothing off the queue; while the bus is
    running no message and no failure of the handler makes it return
    or raise. *)
Theorem processor_stops_only_when_told fuel agent_id w cm :
  agent_id ∈ dom (agents cm) →
  agent_id ∈ dom (message_queues cm) →
  (running cm = false →
   _process_agent_messages (S fuel) agent_id w cm = (Ok tt, w, cm))
  ∧ (running cm = true →
     (_process_agent_messages fuel agent_id w cm).1.1 = OutOfFuel).
Proof.
  intros [h Hh]%elem_of_dom [q Hq]%elem_of_dom.
  assert (∀ n, _process_agent_messages n agent_id w cm
               = processor_loop n agent_id h w cm) as Hstart.
  { intros n. unfold _process_agent_messages. unfold bind at 1, get.
    rewrite bool_decide_eq_true_2 by (apply elem_of_dom; eauto).
    unfold bind at 1, subscript. rewrite Hh. unfold ret at 1.
    unfold bind at 1. rewrite Hq. done. }
  rewrite !Hstart. split; intros Hrun.
  - cbn [processor_loop]. unfold bind, get. by rewrite Hrun.
  - by apply processor_loop_running.
Qed.

Lemma processor_stops_only_when_told_witness :
  (running (bus_of ["a"]) = false →
   _process_agent_messages 1 "a" world0 (bus_of ["a"]) = (Ok tt, world0, bus_of ["a"]))
  ∧ (running (bus_of ["a"]) = true →
     (_process_agent_messages 0 "a" world0 (bus_of ["a"])).1.1 = OutOfFuel).
Proof.
  apply (processor_stops_only_when_told 0 "a" world0 (bus_of ["a"]));
    apply elem_of_dom; by vm_compute; eexists.
Defined.

End processor_theorems.

(** ** The message bus: reachable states *)

Section bus_invariant_theorems.

Import communication.

Lemma only_delivered_invariant cm cm' :
  only_delivered cm cm' → bus_invariant cm → bus_invariant cm'.
Proof.
  intros (Hag & Hsub & _ & Hqs) [Hsync Hne]. split.
  - unfold endpoints_have_queues in *. rewrite Hag, Hsync.
    apply set_eq. intros a. rewrite !elem_of_dom.
    destruct (Hqs a) as (new & _ & ->).
    destruct (message_queues cm !! a); cbn; split; intros [? ?]; done || eauto.
  - intros t subs. rewrite Hsub. apply Hne.
Qed.

Lemma start_loop_frame l : ∀ w cm r w' cm',
  for_each l _start_agent_message_processor tt w cm = (r, w', cm') →
  w' = w ∧ cm' = cm.
Proof.
  induction l as [|x l IH]; intros w cm r w' cm' Hrun.
  - cbn in Hrun. unfold ret in Hrun. by simplify_eq.
  - cbn [for_each] in Hrun. unfold bind at 1 in Hrun.
    unfold _start_agent_message_processor at 1 in Hrun. coro_simpl.
    case_bool_decide; [|by apply IH in Hrun].
    destruct (message_queues cm !! x); [by apply IH in Hrun|by simplify_eq].
Qed.

Lemma start_effect w cm : ∃ r, start w cm = (r, w, set_running true cm).
Proof.
  unfold start. unfold bind at 1, modify. unfold bind at 1, get.
  destruct (for_each _ _ _ _ _) as [[r w'] cm'] eqn:Hrun.
  apply start_loop_frame in Hrun as [-> ->]. eauto.
Qed.

Lemma bus_call_invariant c w cm :
  bus_invariant cm → bus_invariant (bus_call c w cm).2.
Proof.
  intros Hinv. pose proof Hinv as [Hsync Hne].
  destruct c as [agent_id handler|agent_id|message|event_type data sender
                 |agent_id event_type|agent_id event_type| | |agent_id handler];
    cbn [bus_call].
  - destruct (register_agent agent_id handler w cm) as [[r w'] cm'] eqn:Hrun.
    split; [by eapply endpoints_have_queues_register|].
    unfold register_agent in Hrun. coro_simpl.
    case_bool_decide; simplify_eq; done.
  - destruct (decide (agent_id ∈ dom (agents cm))) as [Hin|Hnin].
    + rewrite unregister_agent_registered; [|done|by rewrite <- Hsync]. split.
      * unfold endpoints_have_queues in *. cbn. by rewrite !dom_delete_L, Hsync.
      * intros t subs. cbn. rewrite lookup_omap.
        destruct (subscriptions cm !! t) as [old|]; [|done]. cbn.
        unfold without. case_decide; [done|]. by intros [= <-].
    + unfold unregister_agent. coro_simpl. by rewrite bool_decide_eq_false_2.
  - unfold bind.
    destruct (send_message message w cm) as [[r w'] cm'] eqn:Hrun.
    apply send_message_only_delivers in Hrun as ([b ->] & _ & _ & Hgrow).
    by eapply only_delivered_invariant.
  - destruct (publish_event event_type data sender w cm) as [[r w'] cm'] eqn:Hrun.
    apply publish_event_only_delivers in Hrun as (_ & _ & Hgrow).
    by eapply only_delivered_invariant.
  - unfold subscribe_to_event, modify. split; [done|].
    intros t subs. cbn. destruct (decide (t = event_type)) as [->|Hn].
    + rewrite lookup_insert_eq. intros [= <-]. set_solver.
    + rewrite lookup_insert_ne by done. apply Hne.
  - unfold unsubscribe_from_event. coro_simpl.
    destruct (subscriptions cm !! event_type) as [old|] eqn:Hold; [|done].
    case_bool_decide as He; (split; [done|]); intros t subs; cbn.
    + destruct (decide (t = event_type)) as [->|Hn];
        [by rewrite lookup_delete_eq | rewrite lookup_delete_ne by done; apply Hne].
    + destruct (decide (t = event_type)) as [->|Hn];
        [rewrite lookup_insert_eq; by intros [= <-]
        |rewrite lookup_insert_ne by done; apply Hne].
  - destruct (start_effect w cm) as [r ->]. done.
  - done.
  - destruct (message_queues cm !! agent_id) as [[|message rest]|] eqn:Hq.
    + rewrite process_next_empty by (by rewrite Hq). done.
    + assert (bus_invariant (set_message_queues (<[agent_id := rest]>) cm)) as Htaken.
      { split; [|done]. unfold endpoints_have_queues in *. cbn.
        rewrite dom_insert_L, Hsync.
        assert (agent_id ∈ dom (message_queues cm)) by (apply elem_of_dom; eauto).
        set_solver. }
      rewrite (process_next_nonempty _ _ _ _ _ _ Hq).
      destruct (handle_message handler (clock w) message) as [[response|]|e];
        [|done..].
      destruct (send_message response (tick w) _) as [[r w'] cm'] eqn:Hrun.
      apply send_message_only_delivers in Hrun as (_ & _ & _ & Hgrow).
      by eapply only_delivered_invariant.
    + rewrite process_next_empty by (by rewrite Hq). done.
Qed.

(** X8: in every state a bus reaches from its initial state through calls
    of its methods and turns of its processors, whatever they answer,
    the registered endpoints are exactly the ids that have a queue, and
    no topic has an empty set of subscribers. *)
Theorem bus_invariant_reachable calls :
  bus_invariant (bus_after calls world0 init).2.
Proof.
  assert (∀ w cm, bus_invariant cm → bus_invariant (bus_after calls w cm).2) as Hgen.
  { induction calls as [|c calls IH]; intros w cm Hinv; [done|].
    cbn [bus_after].
    pose proof (bus_call_invariant c w cm Hinv) as Hstep.
    destruct (bus_call c w cm) as [[r w'] cm']. by apply IH. }
  apply Hgen. split; [reflexivity|].
  intros t subs H. change ((∅ : gmap string (gset string)) !! t = Some subs) in H.
  by rewrite lookup_empty in H.
Qed.

End bus_invariant_theorems.

(** ** Frame rules *)

Section frame_rules.

Context {S : Type} (R : S → S → Prop) `{!Reflexive R} `{!Transitive R}.

Lemma preserves_ret {A} (a : A) : preserves R (ret a).
Proof. intros w s r w' s' H. unfold ret in H. by simplify_eq. Qed.

Lemma preserves_raise {A} e : preserves R (raise e : M S A).
Proof. intros w s r w' s' H. unfold raise in H. by simplify_eq. Qed.

Lemma preserves_out_of_fuel {A} : preserves R (out_of_fuel : M S A).
Proof. intros w s r w' s' H. unfold out_of_fuel in H. by simplify_eq. Qed.

Lemma preserves_get : preserves R get.
Proof. intros w s r w' s' H. unfold get in H. by simplify_eq. Qed.

Lemma preserves_utcnow : preserves R utcnow.
Proof. intros w s r w' s' H. unfold utcnow in H. by simplify_eq. Qed.

Lemma preserves_uuid4 : preserves R uuid4.
Proof. intros w s r w' s' H. unfold uuid4 in H. by simplify_eq. Qed.

Lemma preserves_logger level event fields : preserves R (logger level event fields).
Proof. intros w s r w' s' H. unfold logger in H. by simplify_eq. Qed.

Lemma preserves_sleep : preserves R sleep.
Proof. intros w s r w' s' H. unfold sleep in H. by simplify_eq. Qed.

Lemma preserves_await {A} (f : nat → Outcome A) : preserves R (await f).
Proof. intros w s r w' s' H. unfold await in H. destruct (f _); by simplify_eq. Qed.

Lemma preserves_wait_for {A} (coro : nat → nat * Outcome A) timeout :
  preserves R (wait_for coro timeout).
Proof.
  intros w s r w' s' H. unfold wait_for in H.
  destruct (coro _) as [duration [a|e]]; case_bool_decide; by simplify_eq.
Qed.

Lemma preserves_subscript {V} (d : gmap string V) k : preserves R (subscript d k).
Proof. intros w s r w' s' H. unfold subscript, ret, raise in H. destruct (d !! k); by simplify_eq. Qed.

Lemma preserves_del_item {V} (d : gmap string V) k : preserves R (del_item d k).
Proof. intros w s r w' s' H. unfold del_item, ret, raise in H. destruct (d !! k); by simplify_eq. Qed.

Lemma preserves_modify f : (∀ s, R s (f s)) → preserves R (modify f).
Proof. intros Hf w s r w' s' H. unfold modify in H. simplify_eq. apply Hf. Qed.

Lemma preserves_bind {A B} (m : M S A) (k : A → M S B) :
  preserves R m → (∀ a, preserves R (k a)) → preserves R (bind m k).
Proof.
  intros Hm Hk w s r w' s' H. unfold bind in H.
  destruct (m w s) as [[r1 w1] s1] eqn:Hm1. apply Hm in Hm1.
  destruct r1 as [a|e|]; [|by simplify_eq..].
  apply Hk in H. by etrans.
Qed.

Lemma preserves_try_except {A} (m : M S A) (h : Exc → M S A) :
  preserves R m → (∀ e, preserves R (h e)) → preserves R (try_except m h).
Proof.
  intros Hm Hh w s r w' s' H. unfold try_except in H.
  destruct (m w s) as [[r1 w1] s1] eqn:Hm1. apply Hm in Hm1.
  destruct r1 as [a|e|]; [by simplify_eq| |by simplify_eq].
  apply Hh in H. by etrans.
Qed.

Lemma preserves_for_each {A B} (l : list A) (body : B → A → M S B) :
  (∀ b a, preserves R (body b a)) → ∀ acc, preserves R (for_each l body acc).
Proof.
  intros Hbody. induction l as [|x l IH]; intros acc; cbn [for_each].
  - apply preserves_ret.
  - apply preserves_bind; [apply Hbody | apply IH].
Qed.

End frame_rules.

Section execution_frame_facts.

Import base_agent agent_manager.

#[local] Instance heartbeat_only_refl : Reflexive heartbeat_only.
Proof. intros r. exists (AgentRegistration.last_heartbeat r). by destruct r. Qed.

#[local] Instance heartbeat_only_trans : Transitive heartbeat_only.
Proof. intros r1 r2 r3 [t ->] [t' ->]. by exists t'. Qed.

#[local] Instance same_definition_refl : Reflexive same_definition.
Proof. by intros s. Qed.

#[local] Instance same_definition_trans : Transitive same_definition.
Proof.
  intros s1 s2 s3 (? & ? & ? & ? & ?) (? & ? & ? & ? & ?).
  repeat split; congruence.
Qed.

#[local] Instance same_workflow_refl : Reflexive same_workflow.
Proof. intros x. by repeat split. Qed.

#[local] Instance same_workflow_trans : Transitive same_workflow.
Proof.
  intros x1 x2 x3 (? & ? & ? & ? & ? & H12) (? & ? & ? & ? & ? & H23).
  repeat split; try congruence. etrans; [apply H12 | apply H23].
Qed.

#[local] Instance execution_frame_refl workflow_id : Reflexive (execution_frame workflow_id).
Proof. intros mgr. by repeat split. Qed.

#[local] Instance execution_frame_trans workflow_id :
  Transitive (execution_frame workflow_id).
Proof.
  intros m1 m2 m3 (Ht & Hc & Hr & Ha & Ho & Hw) (Ht' & Hc' & Hr' & Ha' & Ho' & Hw').
  split; [congruence|]. split; [congruence|]. split; [congruence|].
  split; [intros a; etrans; [apply Ha | apply Ha']|].
  split; [intros other Hne; rewrite Ho' by done; by apply Ho|].
  etrans; [apply Hw | apply Hw'].
Qed.

Lemma execution_frame_heartbeat workflow_id t a mgr :
  execution_frame workflow_id mgr
    (set_agents (alter (AgentRegistration.set_last_heartbeat t) a) mgr).
Proof.
  repeat split; [|done..]. intros b. cbn.
  destruct (decide (a = b)) as [->|Hne].
  - rewrite lookup_alter_eq. destruct (agents mgr !! b); constructor. by exists t.
  - by rewrite lookup_alter_ne.
Qed.

Lemma execution_frame_dispatched workflow_id f mgr :
  execution_frame workflow_id mgr (set_dispatched f mgr).
Proof. by repeat split. Qed.

Lemma execution_frame_update_workflow workflow_id F mgr :
  (∀ x, same_workflow x (F x)) →
  execution_frame workflow_id mgr (set_workflows (alter F workflow_id) mgr).
Proof.
  intros HF. repeat split; [done| |].
  - intros other Hne. cbn. by rewrite lookup_alter_ne.
  - cbn. rewrite lookup_alter_eq.
    destruct (workflows mgr !! workflow_id); constructor. apply HF.
Qed.

Lemma same_workflow_set_steps f i x :
  (∀ s, same_definition s (f s)) →
  same_workflow x (Workflow.set_steps (alter f i) x).
Proof.
  intros Hf. repeat split. cbn.
  apply Forall2_alter_r; [done|]. intros s s' _ _ Hs. etrans; [done|apply Hf].
Qed.

Lemma query_agent_execution_frame workflow_id agent_type query context timeout :
  preserves (execution_frame workflow_id) (query_agent agent_type query context timeout).
Proof.
  unfold query_agent.
  apply preserves_bind; [apply _..|apply preserves_get; apply _|intros mgr].
  destruct (agent_types mgr !! agent_type) as [members|]; [|apply preserves_raise; apply _].
  destruct (elements members) as [|selected rest]; [apply preserves_raise; apply _|].
  apply preserves_bind; [apply _..|apply preserves_subscript; apply _|intros registration].
  apply preserves_try_except; [apply _..| |].
  - apply preserves_bind; [apply _..|apply preserves_wait_for; apply _|intros response].
    apply preserves_bind; [apply _..|apply preserves_utcnow; apply _|intros now].
    apply preserves_bind; [apply _..| |intros _; apply preserves_ret; apply _].
    apply preserves_modify. intros s. apply execution_frame_heartbeat.
  - intros e. destruct e; apply preserves_raise; apply _.
Qed.

End execution_frame_facts.

(** ** What an execution leaves alone *)

Section execution_frame_theorem.

Import base_agent agent_manager.

#[local] Existing Instance execution_frame_refl.
#[local] Existing Instance execution_frame_trans.

Ltac frame_with R :=
  repeat first
    [ apply (preserves_ret R)
    | apply (preserves_raise R)
    | apply (preserves_out_of_fuel R)
    | apply (preserves_get R)
    | apply (preserves_utcnow R)
    | apply (preserves_logger R)
    | apply (preserves_sleep R)
    | apply (preserves_bind R); [|intros ?]
    | apply (preserves_try_except R); [|intros ?] ].

Lemma same_workflow_header (F : Workflow.t → Workflow.t) x :
  Workflow.workflow_id (F x) = Workflow.workflow_id x →
  Workflow.name (F x) = Workflow.name x →
  Workflow.description (F x) = Workflow.description x →
  Workflow.created_at (F x) = Workflow.created_at x →
  Workflow.metadata (F x) = Workflow.metadata x →
  Workflow.steps (F x) = Workflow.steps x →
  same_workflow x (F x).
Proof.
  intros ? ? ? ? ? Hsteps. repeat split; [done..|]. rewrite Hsteps.
  apply Forall_Forall2_diag, Forall_forall. by intros s _.
Qed.

Lemma update_workflow_execution_frame workflow_id F :
  (∀ x, same_workflow x (F x)) →
  preserves (execution_frame workflow_id) (update_workflow workflow_id F).
Proof.
  intros HF. unfold update_workflow. apply preserves_modify.
  intros s. by apply execution_frame_update_workflow.
Qed.

Lemma update_step_execution_frame workflow_id i f :
  (∀ s, same_definition s (f s)) →
  preserves (execution_frame workflow_id) (update_step workflow_id i f).
Proof.
  intros Hf. unfold update_step. apply update_workflow_execution_frame.
  intros x. by apply same_workflow_set_steps.
Qed.

Lemma traced_execution_frame workflow_id i snapshot completed_steps m :
  preserves (execution_frame workflow_id) m →
  preserves (execution_frame workflow_id) (traced workflow_id i snapshot completed_steps m).
Proof.
  intros Hm w s r w' s' H. unfold traced in H.
  destruct (m w s) as [[r1 w1] s1] eqn:Hm1. apply Hm in Hm1. simplify_eq.
  etrans; [done|]. apply execution_frame_dispatched.
Qed.

Lemma run_step_execution_frame workflow_id loc i :
  preserves (execution_frame workflow_id) (run_step workflow_id loc i).
Proof.
  unfold run_step. frame_with (execution_frame workflow_id).
  destruct (steps_of workflow_id a !! i) as [step|];
    [|frame_with (execution_frame workflow_id)].
  destruct loc as [results completed_steps].
  destruct (ready step completed_steps); frame_with (execution_frame workflow_id).
  - apply update_step_execution_frame. by intros s.
  - apply traced_execution_frame, query_agent_execution_frame.
  - destruct (AgentResponse.success _); frame_with (execution_frame workflow_id);
      apply update_step_execution_frame; by intros s.
  - apply update_step_execution_frame. by intros s.
  - apply update_step_execution_frame. by intros s.
Qed.

Lemma run_loop_execution_frame workflow_id fuel : ∀ loc,
  preserves (execution_frame workflow_id) (run_loop fuel workflow_id loc).
Proof.
  induction fuel as [|fuel IH]; intros loc; cbn [run_loop];
    frame_with (execution_frame workflow_id).
  case_bool_decide; frame_with (execution_frame workflow_id).
  - unfold scan. frame_with (execution_frame workflow_id).
    apply preserves_for_each; [apply _..|]. intros b i.
    apply run_step_execution_frame.
  - case_bool_decide; frame_with (execution_frame workflow_id). apply IH.
Qed.

Lemma execute_workflow_execution_frame fuel workflow_id :
  preserves (execution_frame workflow_id) (execute_workflow fuel workflow_id).
Proof.
  unfold execute_workflow. frame_with (execution_frame workflow_id).
  case_bool_decide; frame_with (execution_frame workflow_id).
  - apply update_workflow_execution_frame. intros x. by apply same_workflow_header.
  - apply run_loop_execution_frame.
  - apply update_workflow_execution_frame. intros x. by apply same_workflow_header.
  - apply update_workflow_execution_frame. intros x. by apply same_workflow_header.
Qed.


End execution_frame_theorem.

(** ** Registration and unregistration *)

Section registration_theorems.

Import base_agent agent_manager.

Lemma alter_as_insert {V} (f : V → V) (k : string) (m : gmap string V) v :
  m !! k = Some v → alter f k m = <[k := f v]> m.
Proof.
  intros Hk. apply map_eq. intros j. destruct (decide (k = j)) as [->|Hne].
  - by rewrite lookup_alter_eq, lookup_insert_eq, Hk.
  - by rewrite lookup_alter_ne, lookup_insert_ne.
Qed.

Lemma register_agent_new agent agent_type w mgr capabilities :
  let id := AgentConfig.agent_id (config agent) in
  id ∉ dom (agents mgr) →
  id ∉ dom (communication.agents (communication_manager mgr)) →
  get_capabilities agent (clock w) = Returns capabilities →
  is_list_of_str (supported_operations_of capabilities) = true →
  register_agent agent agent_type w mgr
  = (Ok id, tick w,
     set_communication_manager
       (communication.set_message_queues (<[id := []]>)
          (communication.set_agents (<[id := as_handler agent]>)
             (communication_manager mgr)))
       (set_agent_types (<[agent_type := {[id]} ∪ category_members mgr agent_type]>)
          (set_agents
             (<[id := new_registration agent agent_type capabilities (S (clock w))]>)
             mgr))).
Proof.
  intros id Hnew Hbus Hcaps Hvalid. unfold register_agent. fold id.
  unfold bind at 1, get. rewrite bool_decide_eq_false_2 by done.
  unfold bind at 1, await. rewrite Hcaps.
  unfold bind at 1. rewrite AgentRegistration_new_eq.
  unfold supported_operations_of in Hvalid. rewrite Hvalid.
  unfold bind at 1, modify. unfold bind at 1.
  unfold bind at 1, on_communication_manager, communication.register_agent.
  unfold bind at 1, get. cbn [communication_manager set_agent_types set_agents].
  rewrite bool_decide_eq_false_2 by done.
  unfold bind, modify, ret. cbn [clock tick].
  f_equal. unfold new_registration. fold id.
  destruct mgr as [ags types wfs cm rn ds].
  unfold set_communication_manager, set_agent_types, set_agents, category_members.
  cbn. f_equal.
  case_bool_decide as Hd.
  - apply elem_of_dom in Hd as [ms Hms]. rewrite Hms. cbn. by apply alter_as_insert.
  - apply not_elem_of_dom in Hd. rewrite Hd. cbn.
    rewrite (alter_as_insert _ _ _ ∅) by apply lookup_insert_eq.
    by rewrite insert_insert_eq.
Qed.

(** X10: [register_agent] registers all or nothing.  When the registered
    agents are the endpoints of the bus, it either returns the agent's
    id, having added the registration (status ["active"], the agent's
    id, configuration and category, the capabilities'
    ["supported_operations"] or the empty list, registered and last
    seen not before the capabilities were answered, and not last seen
    before it was registered), listed the id under its category, and
    given the agent an endpoint with an empty queue on the bus; or it
    raises and leaves the manager as it was: [AgentError] when the id
    is already registered (the agent is then not asked anything), the
    agent's own exception when [get_capabilities] raises, pydantic's
    [ValidationError] when the ["supported_operations"] answered are
    not a list of strings. *)
Theorem register_agent_all_or_nothing agent agent_type w mgr :
  bus_in_step mgr →
  let id := AgentConfig.agent_id (config agent) in
  (id ∈ dom (agents mgr) →
   register_agent agent agent_type w mgr
   = (Raise (AgentError ("Agent " +:+ id +:+ " is already registered")), w, mgr))
  ∧ (id ∉ dom (agents mgr) →
     match get_capabilities agent (clock w) with
     | Throws e => register_agent agent agent_type w mgr = (Raise e, tick w, mgr)
     | Returns capabilities =>
         if is_list_of_str (supported_operations_of capabilities) then
           ∃ mgr' registration,
             register_agent agent agent_type w mgr = (Ok id, tick w, mgr')
             ∧ agents mgr' = <[id := registration]> (agents mgr)
             ∧ AgentRegistration.agent_id registration = id
             ∧ AgentRegistration.agent_type registration = agent_type
             ∧ AgentRegistration.agent_instance registration = agent
             ∧ AgentRegistration.config registration = config agent
             ∧ AgentRegistration.capabilities registration
               = supported_operations_of capabilities
             ∧ AgentRegistration.status registration = "active"
             ∧ (clock (tick w) ≤ AgentRegistration.registered_at registration)%nat
             ∧ (AgentRegistration.registered_at registration
                ≤ AgentRegistration.last_heartbeat registration)%nat
             ∧ agent_types mgr'
               = <[agent_type := {[id]} ∪ category_members mgr agent_type]> (agent_types mgr)
             ∧ communication.agents (communication_manager mgr')
               = <[id := as_handler agent]>
                   (communication.agents (communication_manager mgr))
             ∧ communication.message_queues (communication_manager mgr')
               = <[id := []]> (communication.message_queues (communication_manager mgr))
             ∧ communication.subscriptions (communication_manager mgr')
               = communication.subscriptions (communication_manager mgr)
             ∧ workflows mgr' = workflows mgr
             ∧ running mgr' = running mgr
         else
           ∃ text,
             register_agent agent agent_type w mgr
             = (Raise (ForeignError "ValidationError" text), tick w, mgr)
     end).
Proof.
  intros Hstep id. split.
  - intros Hin. unfold register_agent. fold id. coro_simpl.
    by rewrite bool_decide_eq_true_2.
  - intros Hnew.
    destruct (get_capabilities agent (clock w)) as [capabilities|e] eqn:Hcaps.
    + destruct (is_list_of_str (supported_operations_of capabilities)) eqn:Hvalid.
      * eexists _, _. split.
        { apply register_agent_new; [done| |done|done]. by rewrite <- Hstep. }
        cbn. by repeat split.
      * eexists. unfold register_agent. fold id.
        unfold bind at 1, get. rewrite bool_decide_eq_false_2 by done.
        unfold bind at 1, await. rewrite Hcaps.
        unfold bind at 1. rewrite AgentRegistration_new_eq.
        unfold supported_operations_of in Hvalid. rewrite Hvalid. reflexivity.
    + unfold register_agent. fold id. coro_simpl.
      rewrite bool_decide_eq_false_2 by done. by rewrite Hcaps.
Qed.

Lemma register_agent_all_or_nothing_witness :
  ∃ mgr' registration,
    register_agent (test_agent "a1" "healthy") "x" world0 init = (Ok "a1", tick world0, mgr')
    ∧ agents mgr' = <["a1" := registration]> (agents init)
    ∧ AgentRegistration.capabilities registration = VList [VStr "ok"]
    ∧ AgentRegistration.status registration = "active"
    ∧ (AgentRegistration.registered_at registration
       ≤ AgentRegistration.last_heartbeat registration)%nat.
Proof.
  pose proof (register_agent_all_or_nothing (test_agent "a1" "healthy") "x" world0 init
                eq_refl) as [_ Hnew].
  destruct (Hnew ltac:(vm_compute; set_solver))
    as (mgr' & registration & Hrun & Hagents & _ & _ & _ & _ & Hcaps & Hstatus & _ & Hle & _).
  by exists mgr', registration.
Defined.

Lemma unregister_agent_known agent_id registration w mgr :
  agents mgr !! agent_id = Some registration →
  agent_id ∈ dom (communication.agents (communication_manager mgr)) →
  agent_id ∈ dom (communication.message_queues (communication_manager mgr)) →
  let cm := communication_manager mgr in
  let cm' :=
    communication.set_subscriptions
      (λ _, omap (without agent_id) (communication.subscriptions cm))
      (communication.set_message_queues (delete agent_id)
         (communication.set_agents (delete agent_id) cm)) in
  let mgr1 :=
    set_communication_manager cm'
      (set_agent_types
         (index_without agent_id (AgentRegistration.agent_type registration)) mgr) in
  unregister_agent agent_id w mgr
  = match shutdown (AgentRegistration.agent_instance registration) (clock w) with
    | Returns _ => (Ok tt, tick w, set_agents (delete agent_id) mgr1)
    | Throws e => (Raise e, tick w, mgr1)
    end.
Proof.
  intros Hreg Hbus Hq cm cm' mgr1. unfold unregister_agent.
  unfold bind at 1, get. rewrite Hreg.
  unfold bind at 1, modify. unfold bind at 1, on_communication_manager.
  cbn [communication_manager set_agent_types].
  rewrite (unregister_agent_registered agent_id w (communication_manager mgr) Hbus Hq).
  fold cm cm'.
  assert (set_communication_manager cm'
            (set_agent_types
               (λ types,
                  match types !! AgentRegistration.agent_type registration with
                  | Some ids =>
                      if bool_decide (ids ∖ {[agent_id]} = ∅)
                      then delete (AgentRegistration.agent_type registration) types
                      else <[AgentRegistration.agent_type registration
                             := ids ∖ {[agent_id]}]> types
                  | None => types
                  end) mgr) = mgr1) as ->.
  { subst mgr1. unfold set_agent_types, index_without. cbn. f_equal.
    destruct (agent_types mgr !! _) as [ids|]; [|done].
    case_bool_decide; [by rewrite decide_True | by rewrite decide_False]. }
  unfold bind at 1, await.
  destruct (shutdown _ _) as [[]|e]; [|done].
  unfold bind at 1, get. unfold bind, del_item.
  assert (agents mgr1 !! agent_id = Some registration) as -> by done.
  unfold ret, modify. done.
Qed.

End registration_theorems.

Section manager_invariant_facts.

Import base_agent agent_manager.

#[local] Instance same_agent_refl : Reflexive same_agent.
Proof. by intros r. Qed.

#[local] Instance same_agent_trans : Transitive same_agent.
Proof. intros r1 r2 r3 [? ?] [? ?]. split; congruence. Qed.

#[local] Instance registry_kept_refl : Reflexive registry_kept.
Proof. intros mgr. by repeat split. Qed.

#[local] Instance registry_kept_trans : Transitive registry_kept.
Proof.
  intros m1 m2 m3 (Ht & Hc & Ha) (Ht' & Hc' & Ha').
  split; [congruence|]. split; [congruence|].
  intros a. etrans; [apply Ha | apply Ha'].
Qed.

Lemma registry_kept_lookup mgr mgr' a r' :
  registry_kept mgr mgr' → agents mgr' !! a = Some r' →
  ∃ r, agents mgr !! a = Some r ∧ same_agent r r'.
Proof.
  intros (_ & _ & Ha) Hr'. specialize (Ha a). rewrite Hr' in Ha.
  inversion Ha as [r ? Hs|]. by exists r.
Qed.

Lemma registry_kept_lookup_2 mgr mgr' a r :
  registry_kept mgr mgr' → agents mgr !! a = Some r →
  ∃ r', agents mgr' !! a = Some r' ∧ same_agent r r'.
Proof.
  intros (_ & _ & Ha) Hr. specialize (Ha a). rewrite Hr in Ha.
  inversion Ha as [? r' Hs|]. by exists r'.
Qed.

Lemma registry_kept_invariant mgr mgr' :
  registry_kept mgr mgr' →
  manager_invariant mgr ∧ shutdowns_return mgr →
  manager_invariant mgr' ∧ shutdowns_return mgr'.
Proof.
  intros Hkept [(Hcons & Hcomp & Hne & Hstep & Hbus) Hshut].
  pose proof Hkept as (Ht & Hc & Ha).
  split; [split; [|split; [|split; [|split]]]|].
  - intros c members a Hc' Hin. rewrite Ht in Hc'.
    destruct (Hcons c members a Hc' Hin) as (r & Hr & Hty).
    destruct (registry_kept_lookup_2 _ _ _ _ Hkept Hr) as (r' & Hr' & Hty' & _).
    exists r'. split; [done|congruence].
  - intros a r' Hr'.
    destruct (registry_kept_lookup _ _ _ _ Hkept Hr') as (r & Hr & Hty & _).
    unfold category_members. rewrite Ht, Hty. by apply Hcomp.
  - intros c members. rewrite Ht. apply Hne.
  - unfold bus_in_step in *. rewrite Hc, <- Hstep.
    apply set_eq. intros a. rewrite !elem_of_dom.
    destruct (Ha a); split; intros [? ?]; done || eauto.
  - by rewrite Hc.
  - intros a r' t Hr'.
    destruct (registry_kept_lookup _ _ _ _ Hkept Hr') as (r & Hr & _ & Hinst).
    rewrite Hinst. by eapply Hshut.
Qed.

Lemma execution_frame_registry_kept workflow_id mgr mgr' :
  execution_frame workflow_id mgr mgr' → registry_kept mgr mgr'.
Proof.
  intros (Ht & Hc & _ & Ha & _). split; [done|]. split; [done|].
  intros a. destruct (Ha a) as [r r' [t ->]|]; constructor. done.
Qed.

Lemma registry_kept_workflows f mgr : registry_kept mgr (set_workflows f mgr).
Proof. by repeat split. Qed.

Lemma registry_kept_update f a mgr :
  (∀ r, same_agent r (f r)) → registry_kept mgr (set_agents (alter f a) mgr).
Proof.
  intros Hf. repeat split. intros b. cbn.
  destruct (decide (a = b)) as [->|Hne].
  - rewrite lookup_alter_eq. destruct (agents mgr !! b); constructor. apply Hf.
  - by rewrite lookup_alter_ne.
Qed.

Ltac kept :=
  repeat first
    [ apply (preserves_ret registry_kept)
    | apply (preserves_raise registry_kept)
    | apply (preserves_get registry_kept)
    | apply (preserves_utcnow registry_kept)
    | apply (preserves_uuid4 registry_kept)
    | apply (preserves_logger registry_kept)
    | apply (preserves_await registry_kept)
    | apply (preserves_bind registry_kept); [|intros ?]
    | apply (preserves_try_except registry_kept); [|intros ?] ].

Lemma health_check_cycle_registry_kept : preserves registry_kept health_check_cycle.
Proof.
  unfold health_check_cycle. kept.
  apply preserves_for_each; [apply _..|]. intros [] [agent_id registration].
  unfold check_agent, update_registration. kept.
  - destruct (dict_lookup "status" a0) as [st|]; kept.
    destruct (is_healthy st); kept;
      apply preserves_modify; intros s; by apply registry_kept_update.
  - apply preserves_modify. intros s. by apply registry_kept_update.
Qed.

Lemma create_workflow_registry_kept defs : preserves registry_kept (create_workflow defs).
Proof.
  unfold create_workflow. kept.
  - apply preserves_for_each; [apply _..|]. intros [steps step_ids] [i sd].
    unfold add_step. kept.
    + destruct (StepDef.dependencies sd) as [declared|]; kept.
      apply preserves_for_each; [apply _..|]. intros deps v.
      unfold add_dependency. destruct (_ && _); kept.
      destruct (_ !! _); kept.
    + unfold required. destruct (StepDef.agent sd); kept.
    + unfold required. destruct (StepDef.task sd); kept.
    + unfold WorkflowStep.new. destruct (is_dict _); kept.
  - apply preserves_modify. intros s. apply registry_kept_workflows.
Qed.

Lemma index_without_lookup agent_id category types c :
  index_without agent_id category types !! c
  = if decide (c = category) then types !! category ≫= without agent_id
    else types !! c.
Proof.
  unfold index_without, without.
  destruct (types !! category) as [ids|] eqn:Hids; cbn.
  - case_decide as He.
    + destruct (decide (c = category)) as [->|Hne];
        [by rewrite lookup_delete_eq | by rewrite lookup_delete_ne].
    + destruct (decide (c = category)) as [->|Hne];
        [by rewrite lookup_insert_eq | by rewrite lookup_insert_ne].
  - by destruct (decide (c = category)) as [->|Hne].
Qed.

Lemma without_Some agent_id ids members :
  without agent_id ids = Some members →
  members = ids ∖ {[agent_id]} ∧ members ≠ ∅.
Proof. unfold without. case_decide; [done|]. by intros [= <-]. Qed.

(** The state after [unregister_agent] got through. *)
Lemma unregistered_invariant agent_id registration mgr :
  manager_invariant mgr →
  agents mgr !! agent_id = Some registration →
  manager_invariant
    (set_agents (delete agent_id)
       (set_communication_manager
          (communication.set_subscriptions
             (λ _, omap (without agent_id)
                     (communication.subscriptions (communication_manager mgr)))
             (communication.set_message_queues (delete agent_id)
                (communication.set_agents (delete agent_id) (communication_manager mgr))))
          (set_agent_types
             (index_without agent_id (AgentRegistration.agent_type registration)) mgr))).
Proof.
  intros (Hcons & Hcomp & Hne & Hstep & Hsync & Htopics) Hreg.
  set (ty := AgentRegistration.agent_type registration).
  split; [|split; [|split; [|split]]].
  - intros c members b. cbn. rewrite index_without_lookup.
    case_decide as Hc; [subst c|].
    + destruct (agent_types mgr !! ty) as [ids|] eqn:Hids; [|done]. cbn.
      intros [-> _]%without_Some [Hb Hba]%elem_of_difference.
      destruct (Hcons _ _ _ Hids Hb) as (r & Hr & Hty).
      exists r. split; [|done]. rewrite lookup_delete_ne; [done|]. set_solver.
    + intros Hm Hb. destruct (Hcons _ _ _ Hm Hb) as (r & Hr & Hty).
      exists r. split; [|done]. rewrite lookup_delete_ne; [done|].
      intros <-. simplify_eq.
  - intros b r. cbn. intros Hr.
    apply lookup_delete_Some in Hr as [Hba Hr].
    pose proof (Hcomp _ _ Hr) as Hb. unfold category_members in *. cbn.
    rewrite index_without_lookup. case_decide as Hc; [|done].
    rewrite Hc in Hb.
    destruct (agent_types mgr !! ty) as [ids|] eqn:Hids; [|done]. cbn in *.
    unfold without. rewrite decide_False by set_solver. cbn. set_solver.
  - intros c members. cbn. rewrite index_without_lookup.
    case_decide as Hc; [|apply Hne].
    destruct (agent_types mgr !! ty) as [ids|]; [|done]. cbn.
    by intros [_ ?]%without_Some.
  - unfold bus_in_step in *. cbn. by rewrite !dom_delete_L, Hstep.
  - split.
    + unfold endpoints_have_queues in *. cbn. by rewrite !dom_delete_L, Hsync.
    + intros t subs. cbn. rewrite lookup_omap.
      destruct (communication.subscriptions _ !! t) as [old|]; [|done]. cbn.
      by intros [_ ?]%without_Some.
Qed.

Lemma unregister_agent_ok agent_id registration w mgr :
  manager_invariant mgr →
  agents mgr !! agent_id = Some registration →
  shutdown (AgentRegistration.agent_instance registration) (clock w) = Returns tt →
  ∃ mgr',
    unregister_agent agent_id w mgr = (Ok tt, tick w, mgr')
    ∧ manager_invariant mgr'
    ∧ agents mgr' = delete agent_id (agents mgr)
    ∧ workflows mgr' = workflows mgr
    ∧ running mgr' = running mgr
    ∧ communication.running (communication_manager mgr')
      = communication.running (communication_manager mgr).
Proof.
  intros Hinv Hreg Hshut. pose proof Hinv as (_ & _ & _ & Hstep & Hsync & _).
  assert (agent_id ∈ dom (agents mgr)) as Hin by (apply elem_of_dom; eauto).
  rewrite (unregister_agent_known agent_id registration w mgr Hreg);
    [|by rewrite <- Hstep|by rewrite <- Hsync, <- Hstep].
  rewrite Hshut.
  eexists. split; [done|]. split; [by apply unregistered_invariant|]. done.
Qed.

End manager_invariant_facts.

Section unregistration_theorems.

Import base_agent agent_manager.

(** X11: when the [shutdown] of an agent raises, [unregister_agent] raises
    that exception with the agent half unregistered: its registration
    stays (and [get_agent_status] still reports it), but it is no
    longer listed under its category and no longer an endpoint of the
    bus, so that no query and no message reaches it.  A later
    [unregister_agent] of the same id, if the [shutdown] then returns,
    removes the registration and leaves a consistent manager. *)
Theorem failed_shutdown_leaves_agent_half_registered agent_id registration e w mgr :
  manager_invariant mgr →
  agents mgr !! agent_id = Some registration →
  shutdown (AgentRegistration.agent_instance registration) (clock w) = Throws e →
  ∃ mgr',
    unregister_agent agent_id w mgr = (Raise e, tick w, mgr')
    ∧ agents mgr' = agents mgr
    ∧ (agent_id ∉ category_members mgr' (AgentRegistration.agent_type registration))
    ∧ (agent_id ∉ dom (communication.agents (communication_manager mgr')))
    ∧ ¬ registry_complete mgr'
    ∧ ¬ bus_in_step mgr'
    ∧ ∀ w2,
        shutdown (AgentRegistration.agent_instance registration) (clock w2) = Returns tt →
        ∃ mgr2,
          unregister_agent agent_id w2 mgr' = (Ok tt, tick w2, mgr2)
          ∧ agents mgr2 = delete agent_id (agents mgr)
          ∧ manager_invariant mgr2.
Proof.
  intros Hinv Hreg Hshut. pose proof Hinv as (_ & _ & _ & Hstep & Hsync & _).
  assert (agent_id ∈ dom (agents mgr)) as Hin by (apply elem_of_dom; eauto).
  rewrite (unregister_agent_known agent_id registration w mgr Hreg);
    [|by rewrite <- Hstep|by rewrite <- Hsync, <- Hstep].
  rewrite Hshut. cbn zeta.
  set (ty := AgentRegistration.agent_type registration).
  set (cm' := communication.set_subscriptions _ _).
  set (mgr1 := set_communication_manager cm' _).
  assert (agent_id ∉ category_members mgr1 ty) as Hcat.
  { unfold category_members. subst mgr1. cbn. rewrite index_without_lookup.
    rewrite decide_True by done.
    destruct (agent_types mgr !! ty) as [ids|]; cbn; [|set_solver].
    destruct (without agent_id ids) as [members|] eqn:Hw; cbn; [|set_solver].
    apply without_Some in Hw as [-> _]. set_solver. }
  assert (agent_id ∉ dom (communication.agents (communication_manager mgr1))) as Hbus.
  { subst mgr1 cm'. cbn. rewrite dom_delete_L. set_solver. }
  exists mgr1. split; [done|]. split; [done|]. split; [done|]. split; [done|].
  split; [|split].
  - intros Hcomp. apply Hcat. by apply (Hcomp agent_id registration).
  - intros Hstep1. apply Hbus. rewrite <- Hstep1. done.
  - intros w2 Hshut2. eexists. split; [|split].
    + unfold unregister_agent. unfold bind at 1, get.
      assert (agents mgr1 !! agent_id = Some registration) as -> by done.
      fold ty. unfold bind at 1, modify.
      assert (set_agent_types
                (λ types,
                   match types !! ty with
                   | Some ids =>
                       if bool_decide (ids ∖ {[agent_id]} = ∅) then delete ty types
                       else <[ty := ids ∖ {[agent_id]}]> types
                   | None => types
                   end) mgr1 = mgr1) as ->.
      { unfold category_members in Hcat.
        assert (no_empty_category mgr1) as Hne1.
        { subst mgr1. by destruct (unregistered_invariant _ _ _ Hinv Hreg) as (_ & _ & ? & _). }
        destruct mgr1 as [ags types wfs cm rn ds] eqn:Hm. unfold set_agent_types. cbn in *.
        f_equal. destruct (types !! ty) as [ids|] eqn:Hids; [|done]. cbn in Hcat.
        assert (ids ∖ {[agent_id]} = ids) as -> by set_solver.
        rewrite bool_decide_eq_false_2 by (by eapply Hne1). by rewrite insert_id. }
      unfold bind at 1, on_communication_manager, communication.unregister_agent.
      unfold bind at 1, get. rewrite bool_decide_eq_false_2 by done. unfold ret at 1.
      assert (set_communication_manager (communication_manager mgr1) mgr1 = mgr1) as ->
        by (by destruct mgr1).
      unfold bind at 1, await. rewrite Hshut2.
      unfold bind at 1, get. unfold bind, del_item.
      assert (agents mgr1 !! agent_id = Some registration) as -> by done.
      unfold ret, modify. reflexivity.
    + done.
    + assert (set_agents (λ _, delete agent_id (agents mgr1)) mgr1
              = set_agents (delete agent_id) mgr1) as -> by done.
      subst mgr1 cm'. by apply unregistered_invariant.
Qed.

End unregistration_theorems.

(** ** The reachable states of the manager *)

Section manager_reachable_theorems.

Import base_agent agent_manager.

Lemma manager_invariant_init : manager_invariant init.
Proof.
  split; [apply registry_consistent_init|]. split.
  { intros a r H. change ((∅ : gmap string AgentRegistration.t) !! a = Some r) in H.
    by rewrite lookup_empty in H. }
  split.
  { intros c ms H. change ((∅ : gmap string (gset string)) !! c = Some ms) in H.
    by rewrite lookup_empty in H. }
  split; [reflexivity|]. split; [reflexivity|].
  intros t subs H. change ((∅ : gmap string (gset string)) !! t = Some subs) in H.
  by rewrite lookup_empty in H.
Qed.

Lemma manager_invariant_running v mgr :
  manager_invariant mgr → manager_invariant (set_running v mgr).
Proof. by intros (? & ? & ? & ? & ?). Qed.

Lemma register_agent_failure agent agent_type w mgr :
  AgentConfig.agent_id (config agent) ∈ dom (agents mgr)
  ∨ (∃ e, get_capabilities agent (clock w) = Throws e)
  ∨ (∃ capabilities,
       get_capabilities agent (clock w) = Returns capabilities
       ∧ is_list_of_str (supported_operations_of capabilities) = false) →
  (register_agent agent agent_type w mgr).2 = mgr.
Proof.
  intros Hcase. unfold register_agent.
  unfold bind at 1, get. case_bool_decide as Hin; [done|].
  destruct Hcase as [?|[[e He]|(capabilities & Hcaps & Hbad)]]; [done|..];
    unfold bind at 1, await.
  - by rewrite He.
  - rewrite Hcaps. unfold bind at 1. rewrite AgentRegistration_new_eq.
    unfold supported_operations_of in Hbad. by rewrite Hbad.
Qed.

Lemma registered_invariant agent agent_type capabilities now mgr :
  let id := AgentConfig.agent_id (config agent) in
  manager_invariant mgr →
  id ∉ dom (agents mgr) →
  manager_invariant
    (set_communication_manager
       (communication.set_message_queues (<[id := []]>)
          (communication.set_agents (<[id := as_handler agent]>)
             (communication_manager mgr)))
       (set_agent_types (<[agent_type := {[id]} ∪ category_members mgr agent_type]>)
          (set_agents (<[id := new_registration agent agent_type capabilities now]>)
             mgr))).
Proof.
  intros id (Hcons & Hcomp & Hne & Hstep & Hsync & Htopics) Hnew.
  split; [|split; [|split; [|split]]].
  - intros c members b. cbn.
    destruct (decide (c = agent_type)) as [->|Hc].
    + rewrite lookup_insert_eq. intros [= <-] [Hb|Hb]%elem_of_union.
      * apply elem_of_singleton in Hb as ->. rewrite lookup_insert_eq. by eexists.
      * unfold category_members in Hb.
        destruct (agent_types mgr !! agent_type) as [ms|] eqn:Hms; [|done].
        destruct (Hcons _ _ _ Hms Hb) as (r & Hr & Hty). exists r. split; [|done].
        rewrite lookup_insert_ne; [done|]. intros <-. apply Hnew, elem_of_dom. eauto.
    + rewrite lookup_insert_ne by done. intros Hm Hb.
      destruct (Hcons _ _ _ Hm Hb) as (r & Hr & Hty). exists r. split; [|done].
      rewrite lookup_insert_ne; [done|]. intros <-. apply Hnew, elem_of_dom. eauto.
  - intros b r. cbn. unfold category_members. cbn.
    destruct (decide (id = b)) as [<-|Hb].
    + rewrite lookup_insert_eq. intros [= <-]. cbn. rewrite lookup_insert_eq. cbn.
      set_solver.
    + rewrite lookup_insert_ne by done. intros Hr. pose proof (Hcomp _ _ Hr) as Hin.
      unfold category_members in Hin.
      destruct (decide (AgentRegistration.agent_type r = agent_type)) as [Heq|Hty].
      * rewrite Heq in *. rewrite lookup_insert_eq. cbn. set_solver.
      * by rewrite lookup_insert_ne.
  - intros c members. cbn. destruct (decide (c = agent_type)) as [->|Hc].
    + rewrite lookup_insert_eq. intros [= <-]. set_solver.
    + rewrite lookup_insert_ne by done. apply Hne.
  - unfold bus_in_step in *. cbn. by rewrite !dom_insert_L, Hstep.
  - split; [|done]. unfold endpoints_have_queues in *. cbn.
    by rewrite !dom_insert_L, Hsync.
Qed.

Lemma unregister_all l : NoDup l → ∀ w mgr,
  manager_invariant mgr → shutdowns_return mgr →
  (∀ a, a ∈ l → a ∈ dom (agents mgr)) →
  ∃ w' mgr',
    for_each l (λ _ a, unregister_agent a) tt w mgr = (Ok tt, w', mgr')
    ∧ manager_invariant mgr' ∧ shutdowns_return mgr'
    ∧ clock w' = clock w + length l
    ∧ (∀ a, agents mgr' !! a = if decide (a ∈ l) then None else agents mgr !! a)
    ∧ workflows mgr' = workflows mgr
    ∧ running mgr' = running mgr
    ∧ communication.running (communication_manager mgr')
      = communication.running (communication_manager mgr).
Proof.
  induction l as [|x l IH]; intros Hnd w mgr Hinv Hshut Hdom.
  - exists w, mgr. split; [done|]. split; [done|]. split; [done|].
    split; [cbn; lia|]. split; [|done].
    intros a. rewrite decide_False; [done|]. apply not_elem_of_nil.
  - apply NoDup_cons in Hnd as [Hx Hnd].
    assert (x ∈ dom (agents mgr)) as [registration Hreg]%elem_of_dom
      by (apply Hdom; left).
    destruct (unregister_agent_ok x registration w mgr Hinv Hreg (Hshut _ _ _ Hreg))
      as (mgr1 & Hrun1 & Hinv1 & Hag1 & Hwf1 & Hrn1 & Hbr1).
    assert (shutdowns_return mgr1) as Hshut1.
    { intros a r t. rewrite Hag1. intros [_ Hr]%lookup_delete_Some. by eapply Hshut. }
    destruct (IH Hnd (tick w) mgr1 Hinv1 Hshut1)
      as (w' & mgr' & Hrun & Hinv' & Hshut' & Hclock & Hag & Hwf & Hrn & Hbr).
    { intros a Ha. rewrite Hag1, dom_delete_L. apply elem_of_difference.
      split; [apply Hdom; by right|]. apply not_elem_of_singleton. by intros ->. }
    exists w', mgr'. split.
    { cbn [for_each]. unfold bind. by rewrite Hrun1. }
    split; [done|]. split; [done|]. split; [rewrite Hclock; cbn; lia|].
    split; [|split; [congruence|split; congruence]].
    intros a. rewrite Hag, Hag1. destruct (decide (a = x)) as [->|Hne].
    + rewrite decide_False by done. rewrite decide_True by left.
      apply lookup_delete_eq.
    + rewrite lookup_delete_ne by done.
      destruct (decide (a ∈ l)) as [Hin|Hnin].
      * by rewrite decide_True by (by right).
      * rewrite decide_False; [done|]. by intros [?|?]%elem_of_cons.
Qed.

Lemma stop_ok w mgr :
  manager_invariant mgr →
  shutdowns_return mgr →
  ∃ w' mgr',
    stop w mgr = (Ok tt, w', mgr')
    ∧ agents mgr' = ∅
    ∧ agent_types mgr' = ∅
    ∧ communication.agents (communication_manager mgr') = ∅
    ∧ communication.message_queues (communication_manager mgr') = ∅
    ∧ running mgr' = false
    ∧ communication.running (communication_manager mgr') = false
    ∧ workflows mgr' = workflows mgr
    ∧ clock w' = clock w + size (agents mgr)
    ∧ manager_invariant mgr'.
Proof.
  intros Hinv Hshut.
  destruct (unregister_all (elements (dom (agents mgr))) (NoDup_elements _) w
              (set_running false mgr))
    as (w' & mgr1 & Hrun & Hinv1 & _ & Hclock & Hag & Hwf & Hrn & _).
  { by apply manager_invariant_running. }
  { done. }
  { intros a Ha. by apply elem_of_elements in Ha. }
  assert (agents mgr1 = ∅) as Hempty.
  { apply map_empty. intros a. rewrite Hag. case_decide as Ha; [done|].
    cbn. apply not_elem_of_dom. by rewrite elem_of_elements in Ha. }
  pose proof Hinv1 as (Hcons1 & Hcomp1 & Hne1 & Hstep1 & Hsync1 & Htopics1).
  exists w', (set_communication_manager
                (communication.set_running false (communication_manager mgr1)) mgr1).
  split.
  { unfold stop. unfold bind at 1, modify. unfold bind at 1, get.
    unfold bind at 1. cbn [agents set_running]. by rewrite Hrun. }
  split; [done|]. split.
  { cbn. apply map_empty. intros c.
    destruct (agent_types mgr1 !! c) as [members|] eqn:Hc; [|done]. exfalso.
    destruct (set_choose_L members (Hne1 _ _ Hc)) as [b Hb].
    destruct (Hcons1 _ _ _ Hc Hb) as (r & Hr & _). by rewrite Hempty in Hr. }
  assert (dom (communication.agents (communication_manager mgr1)) = ∅) as Hbus.
  { rewrite <- Hstep1, Hempty. apply dom_empty_L. }
  split; [cbn; by apply dom_empty_inv_L|]. split.
  { cbn. apply dom_empty_inv_L. by rewrite <- Hsync1. }
  split; [done|]. split; [done|]. split; [done|]. split.
  { rewrite Hclock. f_equal.
    change (length (elements (dom (agents mgr)))) with (size (dom (agents mgr))).
    apply size_dom. }
  destruct Hinv1 as (? & ? & ? & ? & ? & ?). repeat split; done.
Qed.

(** X12: [stop], when no agent's [shutdown] raises, returns with every
    agent unregistered: no registration, no category, no endpoint and
    no queue is left (messages still queued are dropped), both
    [running] flags are cleared, and the stored workflows are kept.
    One unit of time passes for each agent that was registered. *)
Theorem stop_unregisters_every_agent w mgr :
  manager_invariant mgr →
  shutdowns_return mgr →
  ∃ w' mgr',
    stop w mgr = (Ok tt, w', mgr')
    ∧ agents mgr' = ∅
    ∧ agent_types mgr' = ∅
    ∧ communication.agents (communication_manager mgr') = ∅
    ∧ communication.message_queues (communication_manager mgr') = ∅
    ∧ running mgr' = false
    ∧ communication.running (communication_manager mgr') = false
    ∧ workflows mgr' = workflows mgr
    ∧ clock w' = clock w + size (agents mgr).
Proof.
  intros Hinv Hshut.
  destruct (stop_ok w mgr Hinv Hshut)
    as (w' & mgr' & Hrun & Ha & Ht & Hb & Hq & Hr & Hbr & Hwf & Hclock & _).
  exists w', mgr'. repeat split; done.
Qed.

Lemma manager_call_invariant c w mgr :
  registers_quiet_agent c →
  manager_invariant mgr ∧ shutdowns_return mgr →
  manager_invariant (manager_call c w mgr).2 ∧ shutdowns_return (manager_call c w mgr).2.
Proof.
  intros Hquiet [Hinv Hshut].
  destruct c as [agent agent_type|agent_id|agent_type query context timeout
                 |defs|fuel workflow_id| | |]; cbn [manager_call].
  - assert (((register_agent agent agent_type;;; ret tt) w mgr).2
            = (register_agent agent agent_type w mgr).2) as ->.
    { unfold bind. by destruct (register_agent _ _ _ _) as [[[]] ?]. }
    destruct (decide (AgentConfig.agent_id (config agent) ∈ dom (agents mgr))) as [Hin|Hnew].
    { rewrite register_agent_failure by (by left). done. }
    destruct (get_capabilities agent (clock w)) as [capabilities|e] eqn:Hcaps.
    2:{ rewrite register_agent_failure by (right; left; eauto). done. }
    destruct (is_list_of_str (supported_operations_of capabilities)) eqn:Hvalid.
    2:{ rewrite register_agent_failure by (right; right; eauto). done. }
    pose proof Hinv as (_ & _ & _ & Hstep & _).
    rewrite (register_agent_new agent agent_type w mgr capabilities Hnew);
      [|by rewrite <- Hstep|done|done].
    cbn [snd]. split; [by apply registered_invariant|].
    intros a r t. cbn. destruct (decide (AgentConfig.agent_id (config agent) = a)) as [<-|Hne].
    + rewrite lookup_insert_eq. intros [= <-]. cbn. apply Hquiet.
    + rewrite lookup_insert_ne by done. apply Hshut.
  - destruct (agents mgr !! agent_id) as [registration|] eqn:Hreg.
    + destruct (unregister_agent_ok agent_id registration w mgr Hinv Hreg
                  (Hshut _ _ _ Hreg)) as (mgr' & -> & Hinv' & Hag & _).
      split; [done|]. intros a r t. cbn. rewrite Hag.
      intros [_ Hr]%lookup_delete_Some. by eapply Hshut.
    + rewrite unregister_agent_unknown by (by apply not_elem_of_dom). done.
  - unfold bind.
    destruct (query_agent agent_type query context timeout w mgr) as [[r w'] mgr'] eqn:Hrun.
    apply (query_agent_execution_frame "") in Hrun.
    apply execution_frame_registry_kept in Hrun.
    destruct r; cbn; by apply (registry_kept_invariant mgr).
  - unfold bind.
    destruct (create_workflow defs w mgr) as [[r w'] mgr'] eqn:Hrun.
    apply create_workflow_registry_kept in Hrun.
    destruct r; cbn; by apply (registry_kept_invariant mgr).
  - unfold bind.
    destruct (execute_workflow fuel workflow_id w mgr) as [[r w'] mgr'] eqn:Hrun.
    apply execute_workflow_execution_frame, execution_frame_registry_kept in Hrun.
    destruct r; cbn; by apply (registry_kept_invariant mgr).
  - destruct (health_check_cycle w mgr) as [[r w'] mgr'] eqn:Hrun.
    apply health_check_cycle_registry_kept in Hrun.
    by apply (registry_kept_invariant mgr).
  - unfold start. unfold bind, modify, on_communication_manager.
    cbn [communication_manager set_running].
    destruct (start_effect w (communication_manager mgr)) as [r ->].
    destruct Hinv as (? & ? & ? & ? & ? & ?).
    destruct r; cbn; by repeat split.
  - destruct (stop_ok w mgr Hinv Hshut)
      as (w' & mgr' & -> & Ha & _ & _ & _ & _ & _ & _ & _ & Hinv').
    split; [done|]. intros a r t. cbn. by rewrite Ha, lookup_empty.
Qed.

(** X13: in every state the manager reaches from its initial state through
    calls of [register_agent], [unregister_agent], [query_agent],
    [create_workflow], [execute_workflow], [start], [stop] and cycles
    of the monitor, whatever they answer, provided no registered
    agent's [shutdown] raises: the category index lists exactly the
    registered agents, each under its own category and no category
    empty; the registered agents are exactly the endpoints of the bus;
    and the bus is consistent. *)
Theorem manager_invariant_reachable calls :
  Forall registers_quiet_agent calls →
  manager_invariant (manager_after calls world0 init).2.
Proof.
  intros Hquiet.
  assert (∀ w mgr, manager_invariant mgr ∧ shutdowns_return mgr →
            manager_invariant (manager_after calls w mgr).2
            ∧ shutdowns_return (manager_after calls w mgr).2) as Hgen.
  { induction Hquiet as [|c calls Hc _ IH]; intros w mgr Hinv; [done|].
    cbn [manager_after].
    pose proof (manager_call_invariant c w mgr Hc Hinv) as Hstep.
    destruct (manager_call c w mgr) as [[r w'] mgr']. by apply IH. }
  apply Hgen. split; [apply manager_invariant_init|].
  intros a r t H. change ((∅ : gmap string AgentRegistration.t) !! a = Some r) in H.
  by rewrite lookup_empty in H.
Qed.

End manager_reachable_theorems.

Section manager_witnesses.

Import base_agent agent_manager.

Lemma one_agent_invariant : manager_invariant one_agent.2 ∧ shutdowns_return one_agent.2.
Proof.
  apply (manager_call_invariant (call_register_agent (test_agent "a1" "healthy") "x")
           world0 init).
  - by intros t.
  - split; [apply manager_invariant_init|].
    intros a r t H. change ((∅ : gmap string AgentRegistration.t) !! a = Some r) in H.
    by rewrite lookup_empty in H.
Qed.

Lemma one_stubborn_agent_invariant : manager_invariant one_stubborn_agent.2.
Proof.
  pose proof (registered_invariant (stubborn_agent "a1") "x"
                [("supported_operations", VList [VStr "ok"])] 1 init
                manager_invariant_init) as H.
  cbn zeta in H. apply H. apply not_elem_of_dom. reflexivity.
Qed.

Lemma failed_shutdown_leaves_agent_half_registered_witness :
  ∃ mgr',
    unregister_agent "a1" one_stubborn_agent.1 one_stubborn_agent.2
    = (Raise (Exception "busy"), tick one_stubborn_agent.1, mgr')
    ∧ agents mgr' = agents one_stubborn_agent.2
    ∧ ("a1" ∉ category_members mgr' "x")
    ∧ ("a1" ∉ dom (communication.agents (communication_manager mgr')))
    ∧ ¬ registry_complete mgr'
    ∧ ¬ bus_in_step mgr'
    ∧ ∀ w2,
        shutdown (stubborn_agent "a1") (clock w2) = Returns tt →
        ∃ mgr2,
          unregister_agent "a1" w2 mgr' = (Ok tt, tick w2, mgr2)
          ∧ agents mgr2 = delete "a1" (agents one_stubborn_agent.2)
          ∧ manager_invariant mgr2.
Proof.
  apply (failed_shutdown_leaves_agent_half_registered "a1"
           (new_registration (stubborn_agent "a1") "x"
              [("supported_operations", VList [VStr "ok"])] 1)
           (Exception "busy") one_stubborn_agent.1 one_stubborn_agent.2).
  - apply one_stubborn_agent_invariant.
  - reflexivity.
  - reflexivity.
Defined.

Lemma stop_unregisters_every_agent_witness :
  ∃ w' mgr',
    stop one_agent.1 one_agent.2 = (Ok tt, w', mgr')
    ∧ agents mgr' = ∅
    ∧ agent_types mgr' = ∅
    ∧ communication.agents (communication_manager mgr') = ∅
    ∧ communication.message_queues (communication_manager mgr') = ∅
    ∧ running mgr' = false
    ∧ communication.running (communication_manager mgr') = false
    ∧ workflows mgr' = workflows one_agent.2
    ∧ clock w' = clock one_agent.1 + size (agents one_agent.2).
Proof.
  apply (stop_unregisters_every_agent one_agent.1 one_agent.2);
    apply one_agent_invariant.
Defined.

Lemma manager_invariant_reachable_witness :
  manager_invariant (manager_after example_session world0 init).2.
Proof.
  apply (manager_invariant_reachable example_session).
  repeat constructor.
Defined.

End manager_witnesses.

Section routing_theorems.

Import base_agent agent_manager.



End routing_theorems.

Section status_theorems.

Import base_agent agent_manager.

Lemma sum_list_perm (l k : list nat) : l ≡ₚ k → sum_list l = sum_list k.
Proof. induction 1; cbn; lia. Qed.

Lemma sum_of_counts_insert (counts : gmap string nat) c n :
  counts !! c = None →
  sum_of_counts (<[c := n]> counts) = n + sum_of_counts counts.
Proof.
  intros Hc. unfold sum_of_counts.
  rewrite (sum_list_perm _ ((c, n) :: map_to_list counts).*2); [done|].
  apply fmap_Permutation. by apply map_to_list_insert.
Qed.

(** The sizes of sets that partition [A] add up to the size of [A]. *)
Lemma partition_size (T : gmap string (gset string)) : ∀ A : gset string,
  (∀ c ms a, T !! c = Some ms → a ∈ ms → a ∈ A) →
  (∀ a, a ∈ A → ∃ c ms, T !! c = Some ms ∧ a ∈ ms) →
  (∀ c1 c2 ms1 ms2 a,
     T !! c1 = Some ms1 → T !! c2 = Some ms2 → a ∈ ms1 → a ∈ ms2 → c1 = c2) →
  sum_of_counts (size <$> T) = size A.
Proof.
  induction T as [|c ms T Hc IH] using map_ind; intros A Hsub Hcover Hdisj.
  - rewrite fmap_empty. unfold sum_of_counts. rewrite map_to_list_empty. cbn.
    symmetry. apply size_empty_iff. apply set_equiv. intros a. split; [|set_solver].
    intros Ha. destruct (Hcover a Ha) as (c & ms & Hl & _). by rewrite lookup_empty in Hl.
  - rewrite fmap_insert, sum_of_counts_insert by (by rewrite lookup_fmap, Hc).
    rewrite (IH (A ∖ ms)).
    + assert (A = ms ∪ A ∖ ms) as HA.
      { apply set_eq. intros a. rewrite elem_of_union, elem_of_difference.
        split; [destruct (decide (a ∈ ms)); tauto|].
        intros [Ha|[Ha _]]; [|done]. apply (Hsub c ms a); [|done]. apply lookup_insert_eq. }
      transitivity (size (ms ∪ A ∖ ms)); [|by rewrite <- HA].
      symmetry. apply size_union. set_solver.
    + intros c' ms' a Hc' Ha. apply elem_of_difference.
      assert (c' ≠ c) as Hne by (intros ->; congruence).
      split.
      * apply (Hsub c' ms' a); [|done]. by rewrite lookup_insert_ne.
      * intros Hms. apply Hne.
        apply (Hdisj c' c ms' ms a); [by rewrite lookup_insert_ne|apply lookup_insert_eq|done..].
    + intros a [Ha Hms]%elem_of_difference.
      destruct (Hcover a Ha) as (c' & ms' & Hc' & Ha').
      destruct (decide (c' = c)) as [->|Hne].
      * rewrite lookup_insert_eq in Hc'. by simplify_eq.
      * rewrite lookup_insert_ne in Hc' by done. eauto.
    + intros c1 c2 ms1 ms2 a H1 H2 Ha1 Ha2.
      assert (c1 ≠ c) as Hn1 by (intros ->; congruence).
      assert (c2 ≠ c) as Hn2 by (intros ->; congruence).
      apply (Hdisj c1 c2 ms1 ms2 a); [by rewrite lookup_insert_ne..|done|done].
Qed.

(** X15: [get_system_status] returns and changes nothing; when the registry
    is consistent the per-category counts it reports add up to the
    total it reports, every category it lists has a count of at least
    one, and the endpoints the bus reports are the registered
    agents. *)
Theorem system_status_counts_add_up w mgr :
  manager_invariant mgr →
  ∃ status,
    get_system_status w mgr = (Ok status, w, mgr)
    ∧ total_agents status = size (agents mgr)
    ∧ sum_of_counts (agent_type_counts status) = total_agents status
    ∧ (∀ category n, agent_type_counts status !! category = Some n → (1 ≤ n)%nat)
    ∧ status_running status = running mgr
    ∧ communication.registered_agents (communication_status status)
      = elements (dom (agents mgr)).
Proof.
  intros (Hcons & Hcomp & Hne & Hstep & _).
  eexists. split; [reflexivity|]. cbn. split; [done|]. split; [|split; [|split]].
  - rewrite <- size_dom. apply partition_size.
    + intros c ms a Hc Ha. destruct (Hcons _ _ _ Hc Ha) as (r & Hr & _).
      apply elem_of_dom. eauto.
    + intros a [r Hr]%elem_of_dom. pose proof (Hcomp _ _ Hr) as Ha.
      unfold category_members in Ha.
      destruct (agent_types mgr !! AgentRegistration.agent_type r) as [ms|] eqn:Hms;
        [|done].
      eauto.
    + intros c1 c2 ms1 ms2 a H1 H2 Ha1 Ha2.
      destruct (Hcons _ _ _ H1 Ha1) as (r1 & Hr1 & <-).
      destruct (Hcons _ _ _ H2 Ha2) as (r2 & Hr2 & <-). congruence.
  - intros c n. rewrite lookup_fmap.
    destruct (agent_types mgr !! c) as [ms|] eqn:Hms; [|done]. cbn. intros [= <-].
    pose proof (Hne _ _ Hms) as Hms'.
    assert (size ms ≠ 0); [|lia].
    apply size_non_empty_iff. intros He. by apply leibniz_equiv_iff in He.
  - done.
  - by rewrite Hstep.
Qed.

Lemma system_status_counts_add_up_witness :
  ∃ status,
    get_system_status one_agent.1 one_agent.2 = (Ok status, one_agent.1, one_agent.2)
    ∧ total_agents status = size (agents one_agent.2)
    ∧ sum_of_counts (agent_type_counts status) = total_agents status
    ∧ (∀ category n, agent_type_counts status !! category = Some n → (1 ≤ n)%nat)
    ∧ status_running status = running one_agent.2
    ∧ communication.registered_agents (communication_status status)
      = elements (dom (agents one_agent.2)).
Proof.
  apply (system_status_counts_add_up one_agent.1 one_agent.2).
  apply one_agent_invariant.
Defined.

End status_theorems.

(** ** Workflow construction: a missing key *)

Section create_workflow_edge_theorems.

Import base_agent agent_manager.

Lemma for_each_app {S A B} (l1 l2 : list A) (body : B → A → M S B) : ∀ acc w s,
  for_each (l1 ++ l2) body acc w s
  = bind (for_each l1 body acc) (for_each l2 body) w s.
Proof.
  induction l1 as [|x l1 IH]; intros acc w s; [done|].
  cbn [app for_each]. unfold bind.
  destruct (body acc x w s) as [[[acc'|e|] w1] s1]; [|done..].
  rewrite IH. done.
Qed.

(** X16: a definition entry from which no step can be built, after
    entries that are well formed, makes [create_workflow] raise at that
    entry: [KeyError] for the key missing (["agent"] when both are
    missing) if it lacks ["agent"] or ["task"], pydantic's
    [ValidationError] if it has both and its ["data"] is not a
    dictionary.  No workflow is stored and the manager is as it was,
    while the identifiers drawn for the entries up to that one are
    spent. *)
Theorem create_workflow_missing_key pre step_def suf w mgr :
  Forall well_formed pre →
  ¬ well_formed step_def →
  ∃ e w',
    create_workflow (pre ++ step_def :: suf) w mgr = (Raise e, w', mgr)
    ∧ (¬ has_keys step_def → e = KeyError (missing_key step_def))
    ∧ (has_keys step_def → type_name e = "ValidationError")
    ∧ uuid_counter w' = uuid_counter w + S (length pre).
Proof.
  intros Hpre Hbad.
  set (total := length (pre ++ step_def :: suf)).
  destruct (add_steps_effect total pre 0 [] [] w mgr eq_refl)
    as (r & w1 & Hrun & Hok & _).
  destruct (Hok Hpre) as [-> ->]. cbn [app] in Hrun.
  set (w1 := drawn_and_logged _ _ w) in *.
  pose proof (add_step_effect total (length pre) step_def
                (imap (λ j, expected_step (fresh_ids w (length pre)) (0 + j)) pre)
                (fresh_ids w (length pre)) w1 mgr (length_fresh_ids _ _)) as Hstep.
  cbn zeta in Hstep.
  assert (∀ e,
            add_step total
              (imap (λ j, expected_step (fresh_ids w (length pre)) (0 + j)) pre,
               fresh_ids w (length pre)) (length pre, step_def) w1 mgr
            = (Raise e,
               drawn_and_logged 1
                 (dropped_warnings (length pre) total (declared_dependencies step_def)) w1,
               mgr) →
            create_workflow (pre ++ step_def :: suf) w mgr
            = (Raise e,
               drawn_and_logged 1
                 (dropped_warnings (length pre) total (declared_dependencies step_def)) w1,
               mgr)) as Hraise.
  { intros e He. unfold create_workflow, enumerate. fold total. unfold bind at 1.
    rewrite imap_app. rewrite for_each_app. unfold bind at 1.
    replace (imap pair pre) with (imap (λ j x, (0 + j, x)) pre) by done.
    rewrite Hrun. cbn [imap for_each]. unfold bind at 1.
    rewrite Nat.add_0_r. by rewrite He. }
  unfold missing_key, well_formed, has_keys in *.
  destruct (StepDef.agent step_def) as [agent|] eqn:Ha.
  2:{ eexists _, _. split; [by apply Hraise|]. split; [done|].
      split; [by intros [[? [=]] _]|]. cbn. lia. }
  destruct (StepDef.task step_def) as [task|] eqn:Ht.
  2:{ eexists _, _. split; [by apply Hraise|]. split; [done|].
      split; [by intros [_ [? [=]]]|]. cbn. lia. }
  destruct (is_dict (given_data step_def)) eqn:Hd.
  { exfalso. apply Hbad. eauto. }
  eexists _, _. split; [by apply Hraise|].
  split; [intros Hn; exfalso; apply Hn; eauto|]. split; [done|]. cbn. lia.
Qed.

Lemma create_workflow_missing_key_witness :
  ∃ e w',
    create_workflow
      ([step_def "x" "ok" None]
       ++ {| StepDef.agent := Some "x"; StepDef.task := None; StepDef.data := None;
             StepDef.dependencies := None |} :: [step_def "x" "ok" None])
      one_agent.1 one_agent.2
    = (Raise e, w', one_agent.2)
    ∧ e = KeyError "task"
    ∧ uuid_counter w' = uuid_counter one_agent.1 + 2.
Proof.
  destruct (create_workflow_missing_key [step_def "x" "ok" None]
              {| StepDef.agent := Some "x"; StepDef.task := None; StepDef.data := None;
                 StepDef.dependencies := None |} [step_def "x" "ok" None]
              one_agent.1 one_agent.2) as (e & w' & Hrun & Hkey & _ & Hids).
  - repeat constructor; by eexists.
  - intros [[_ [? [=]]] _].
  - exists e, w'. split; [done|]. split; [|done].
    apply Hkey. intros [_ [? [=]]].
Defined.

End create_workflow_edge_theorems.

(** ** Workflow execution: what the stored workflow records *)

Section clock_rules.

Context {S : Type}.

Lemma advances_ret {A} (a : A) : advances (ret a : M S A).
Proof. intros w s r w' s' H. unfold ret in H. by simplify_eq. Qed.

Lemma advances_raise {A} e : advances (raise e : M S A).
Proof. intros w s r w' s' H. unfold raise in H. by simplify_eq. Qed.

Lemma advances_out_of_fuel {A} : advances (out_of_fuel : M S A).
Proof. intros w s r w' s' H. unfold out_of_fuel in H. by simplify_eq. Qed.

Lemma advances_get : advances (get : M S S).
Proof. intros w s r w' s' H. unfold get in H. by simplify_eq. Qed.

Lemma advances_modify f : advances (modify f : M S unit).
Proof. intros w s r w' s' H. unfold modify in H. by simplify_eq. Qed.

Lemma advances_utcnow : advances (utcnow : M S nat).
Proof. intros w s r w' s' H. unfold utcnow in H. by simplify_eq. Qed.

Lemma advances_logger level event fields : advances (logger level event fields : M S unit).
Proof. intros w s r w' s' H. unfold logger in H. by simplify_eq. Qed.

Lemma advances_sleep : advances (sleep : M S unit).
Proof. intros w s r w' s' H. unfold sleep in H. simplify_eq. cbn. lia. Qed.

Lemma advances_subscript {V} (d : gmap string V) k : advances (subscript d k : M S V).
Proof.
  intros w s r w' s' H. unfold subscript, ret, raise in H. destruct (d !! k); by simplify_eq.
Qed.

Lemma advances_wait_for {A} (coro : nat → nat * Outcome A) timeout :
  advances (wait_for coro timeout : M S A).
Proof.
  intros w s r w' s' H. unfold wait_for in H.
  destruct (coro _) as [duration [a|e]]; case_bool_decide; simplify_eq; cbn; lia.
Qed.

Lemma advances_bind {A B} (m : M S A) (k : A → M S B) :
  advances m → (∀ a, advances (k a)) → advances (bind m k).
Proof.
  intros Hm Hk w s r w' s' H. unfold bind in H.
  destruct (m w s) as [[r1 w1] s1] eqn:Hm1. apply Hm in Hm1.
  destruct r1 as [a|e|]; [|by simplify_eq..].
  apply Hk in H. lia.
Qed.

Lemma advances_try_except {A} (m : M S A) (h : Exc → M S A) :
  advances m → (∀ e, advances (h e)) → advances (try_except m h).
Proof.
  intros Hm Hh w s r w' s' H. unfold try_except in H.
  destruct (m w s) as [[r1 w1] s1] eqn:Hm1. apply Hm in Hm1.
  destruct r1 as [a|e|]; [by simplify_eq| |by simplify_eq].
  apply Hh in H. lia.
Qed.

Lemma advances_for_each {A B} (l : list A) (body : B → A → M S B) :
  (∀ b a, advances (body b a)) → ∀ acc, advances (for_each l body acc).
Proof.
  intros Hbody. induction l as [|x l IH]; intros acc; cbn [for_each].
  - apply advances_ret.
  - apply advances_bind; [apply Hbody | apply IH].
Qed.

End clock_rules.

Section execution_outcome_theorems.

Import base_agent agent_manager.

#[local] Instance header_kept_refl workflow_id : Reflexive (header_kept workflow_id).
Proof. by intros mgr. Qed.

#[local] Instance header_kept_trans workflow_id : Transitive (header_kept workflow_id).
Proof.
  intros m1 m2 m3 (? & ? & ? & ?) (? & ? & ? & ?). repeat split; congruence.
Qed.

Ltac step_with R :=
  repeat first
    [ apply (preserves_ret R)
    | apply (preserves_raise R)
    | apply (preserves_out_of_fuel R)
    | apply (preserves_get R)
    | apply (preserves_utcnow R)
    | apply (preserves_logger R)
    | apply (preserves_sleep R)
    | apply (preserves_subscript R)
    | apply (preserves_wait_for R)
    | apply (preserves_bind R); [|intros ?]
    | apply (preserves_try_except R); [|intros ?]
    | match goal with |- preserves _ (match ?e with _ => _ end) => destruct e end ].

Ltac clock_step :=
  repeat first
    [ apply advances_ret
    | apply advances_raise
    | apply advances_out_of_fuel
    | apply advances_get
    | apply advances_utcnow
    | apply advances_logger
    | apply advances_sleep
    | apply advances_subscript
    | apply advances_wait_for
    | apply advances_modify
    | apply advances_bind; [|intros ?]
    | apply advances_try_except; [|intros ?]
    | match goal with |- advances (match ?e with _ => _ end) => destruct e end ].

Lemma query_agent_header_kept workflow_id agent_type query context timeout :
  preserves (header_kept workflow_id) (query_agent agent_type query context timeout).
Proof.
  unfold query_agent. step_with (header_kept workflow_id). by apply preserves_modify.
Qed.

Lemma query_agent_advances agent_type query context timeout :
  advances (query_agent agent_type query context timeout).
Proof. unfold query_agent. clock_step. Qed.

Lemma update_step_header_kept workflow_id i f :
  preserves (header_kept workflow_id) (update_step workflow_id i f).
Proof.
  unfold update_step, update_workflow. apply preserves_modify. intros s.
  split; [cbn; apply dom_alter_L|]. cbn. rewrite lookup_alter_eq.
  by destruct (workflows s !! workflow_id).
Qed.

Lemma traced_header_kept workflow_id i snapshot completed_steps m :
  preserves (header_kept workflow_id) m →
  preserves (header_kept workflow_id) (traced workflow_id i snapshot completed_steps m).
Proof.
  intros Hm w s r w' s' H. unfold traced in H.
  destruct (m w s) as [[r1 w1] s1] eqn:Hm1. apply Hm in Hm1. by simplify_eq.
Qed.

Lemma traced_advances workflow_id i snapshot completed_steps m :
  advances m → advances (traced workflow_id i snapshot completed_steps m).
Proof.
  intros Hm w s r w' s' H. unfold traced in H.
  destruct (m w s) as [[r1 w1] s1] eqn:Hm1. apply Hm in Hm1. by simplify_eq.
Qed.

Lemma run_step_header_kept workflow_id loc i :
  preserves (header_kept workflow_id) (run_step workflow_id loc i).
Proof.
  unfold run_step. step_with (header_kept workflow_id);
    try apply update_step_header_kept.
  apply traced_header_kept, query_agent_header_kept.
Qed.

Lemma run_step_advances workflow_id loc i : advances (run_step workflow_id loc i).
Proof.
  unfold run_step, update_step, update_workflow. clock_step.
  apply traced_advances, query_agent_advances.
Qed.

Lemma run_loop_header_kept workflow_id fuel : ∀ loc,
  preserves (header_kept workflow_id) (run_loop fuel workflow_id loc).
Proof.
  induction fuel as [|fuel IH]; intros loc; cbn [run_loop];
    step_with (header_kept workflow_id); [|apply IH].
  unfold scan. step_with (header_kept workflow_id).
  apply preserves_for_each; [apply _..|]. intros b i. apply run_step_header_kept.
Qed.

Lemma run_loop_advances workflow_id fuel : ∀ loc,
  advances (run_loop fuel workflow_id loc).
Proof.
  induction fuel as [|fuel IH]; intros loc; cbn [run_loop]; clock_step; [|apply IH].
  unfold scan. clock_step. apply advances_for_each. intros b i. apply run_step_advances.
Qed.

(** X17: the stored workflow records how its execution went.  After
    [execute_workflow] of a stored workflow, [started_at] is the time
    of the call; if the call returned, the status is ["completed"], if
    it raised, the status is ["failed"] and the failure is logged as an
    error, and in both cases [completed_at] is the time the call ended,
    not before [started_at]; while the call has not ended the status is
    ["running"] and [completed_at] is what it was before the call. *)
Theorem execution_outcome_is_recorded fuel workflow_id w mgr workflow :
  workflows mgr !! workflow_id = Some workflow →
  ∃ workflow',
    workflows (execute_workflow fuel workflow_id w mgr).2 !! workflow_id = Some workflow'
    ∧ Workflow.started_at workflow' = Some (clock w)
    ∧ (clock w ≤ clock (execute_workflow fuel workflow_id w mgr).1.2)%nat
    ∧ match (execute_workflow fuel workflow_id w mgr).1.1 with
      | Ok _ =>
          Workflow.status workflow' = "completed"
          ∧ Workflow.completed_at workflow'
            = Some (clock (execute_workflow fuel workflow_id w mgr).1.2)
      | Raise e =>
          Workflow.status workflow' = "failed"
          ∧ Workflow.completed_at workflow'
            = Some (clock (execute_workflow fuel workflow_id w mgr).1.2)
          ∧ last (log (execute_workflow fuel workflow_id w mgr).1.2)
            = Some (execution_failed workflow_id e)
      | OutOfFuel =>
          Workflow.status workflow' = "running"
          ∧ Workflow.completed_at workflow' = Workflow.completed_at workflow
      end.
Proof.
  intros Hwf.
  rewrite execute_workflow_stored by (apply elem_of_dom; eauto).
  set (mgr0 := set_workflows _ mgr).
  destruct (run_loop fuel workflow_id (∅, ∅) w mgr0) as [[r1 w1] mgr1] eqn:Hloop.
  pose proof (run_loop_advances _ _ _ _ _ _ _ _ Hloop) as Hclock.
  apply run_loop_header_kept in Hloop as (Hdom & Hst & Hsa & Hca).
  assert (workflows mgr0 !! workflow_id
          = Some (Workflow.set_started_at (Some (clock w))
                    (Workflow.set_status "running" workflow))) as H0.
  { subst mgr0. cbn. by rewrite lookup_alter_eq, Hwf. }
  rewrite H0 in Hst, Hsa, Hca. cbn in Hst, Hsa, Hca.
  destruct (workflows mgr1 !! workflow_id) as [x|] eqn:Hx; [|done].
  cbn in Hst, Hsa, Hca. simplify_eq.
  destruct r1 as [loc|e|]; cbn [fst snd].
  - eexists. split; [cbn; by rewrite lookup_alter_eq, Hx|]. cbn. by repeat split.
  - eexists. split; [cbn; by rewrite lookup_alter_eq, Hx|]. cbn.
    split; [done|]. split; [done|]. split; [done|]. split; [done|].
    by rewrite last_snoc.
  - exists x. by repeat split.
Qed.

Lemma execution_outcome_is_recorded_witness :
  ∃ workflow',
    workflows (execute_workflow 3 (uuid_str 3) abort_scenario.1 abort_scenario.2).2
      !! uuid_str 3 = Some workflow'
    ∧ Workflow.started_at workflow' = Some (clock abort_scenario.1)
    ∧ (clock abort_scenario.1
       ≤ clock (execute_workflow 3 (uuid_str 3) abort_scenario.1 abort_scenario.2).1.2)%nat
    ∧ match (execute_workflow 3 (uuid_str 3) abort_scenario.1 abort_scenario.2).1.1 with
      | Ok _ =>
          Workflow.status workflow' = "completed"
          ∧ Workflow.completed_at workflow'
            = Some (clock (execute_workflow 3 (uuid_str 3)
                             abort_scenario.1 abort_scenario.2).1.2)
      | Raise e =>
          Workflow.status workflow' = "failed"
          ∧ Workflow.completed_at workflow'
            = Some (clock (execute_workflow 3 (uuid_str 3)
                             abort_scenario.1 abort_scenario.2).1.2)
          ∧ last (log (execute_workflow 3 (uuid_str 3)
                         abort_scenario.1 abort_scenario.2).1.2)
            = Some (execution_failed (uuid_str 3) e)
      | OutOfFuel =>
          Workflow.status workflow' = "running"
          ∧ Workflow.completed_at workflow'
            = Workflow.completed_at (expected_workflow one_agent.1 abort_definition)
      end.
Proof.
  apply (execution_outcome_is_recorded 3 (uuid_str 3) abort_scenario.1 abort_scenario.2
           (expected_workflow one_agent.1 abort_definition)).
  vm_compute. reflexivity.
Defined.

End execution_outcome_theorems.

(** ** Workflow execution: the first scan *)

Section first_scan_theorems.

Import base_agent agent_manager.

Lemma blocked_none_ready steps : Forall blocked steps → none_ready steps ∅ = true.
Proof.
  intros Hall. unfold none_ready. apply forallb_forall. intros step Hin.
  apply list_elem_of_In in Hin. rewrite Forall_forall in Hall.
  apply negb_true_iff. unfold ready.
  destruct (Hall step Hin) as [Hst|Hdeps].
  - destruct (String.eqb (WorkflowStep.status step) "pending") eqn:He.
    + by apply String.eqb_eq in He.
    + by rewrite andb_false_r.
  - destruct (WorkflowStep.dependencies step) as [|d deps]; [done|]. cbn.
    rewrite (bool_decide_eq_false_2 (d ∈ (∅ : gset string))) by apply not_elem_of_empty.
    cbn. by rewrite andb_false_r.
Qed.

Lemma executed_as_insert status t t' workflow_id workflow mgr :
  workflows mgr !! workflow_id = Some workflow →
  set_workflows
    (alter (Workflow.set_completed_at (Some t') ∘ Workflow.set_status status) workflow_id)
    (set_workflows
       (alter (Workflow.set_started_at (Some t) ∘ Workflow.set_status "running")
          workflow_id) mgr)
  = set_workflows (<[workflow_id := executed status t t' workflow]>) mgr.
Proof.
  intros Hwf. destruct mgr as [ags types wfs cm rn ds]. unfold set_workflows. cbn in *.
  f_equal. rewrite (alter_as_insert _ workflow_id wfs workflow) by done.
  rewrite (alter_as_insert _ _ _ _ (lookup_insert_eq _ _ _)).
  by rewrite insert_insert_eq.
Qed.

(** X18: an empty definition is not rejected: [create_workflow] stores a
    pending workflow without steps, and the execution of a stored
    workflow without steps returns the empty result map after one test
    of the loop condition: the workflow is ["completed"], started not
    before the call and completed not before it started, nothing is
    logged, no agent is asked and the rest of the manager is as it
    was. *)
Theorem empty_workflow_completes_at_once w mgr :
  (∃ workflow w' mgr',
     create_workflow [] w mgr = (Ok workflow, w', mgr')
     ∧ workflows mgr' = <[Workflow.workflow_id workflow := workflow]> (workflows mgr)
     ∧ Workflow.steps workflow = []
     ∧ Workflow.status workflow = "pending"
     ∧ Workflow.started_at workflow = None
     ∧ Workflow.completed_at workflow = None
     ∧ log w' = log w)
  ∧ ∀ fuel workflow_id workflow,
      workflows mgr !! workflow_id = Some workflow →
      Workflow.steps workflow = [] →
      ∃ w' workflow',
        execute_workflow (S fuel) workflow_id w mgr
        = (Ok ∅, w', set_workflows (<[workflow_id := workflow']>) mgr)
        ∧ log w' = log w
        ∧ Workflow.status workflow' = "completed"
        ∧ Workflow.steps workflow' = []
        ∧ (∃ started completed,
             Workflow.started_at workflow' = Some started
             ∧ Workflow.completed_at workflow' = Some completed
             ∧ (clock w ≤ started)%nat ∧ (started ≤ completed)%nat
             ∧ (completed ≤ clock w')%nat)
        ∧ Workflow.workflow_id workflow' = Workflow.workflow_id workflow
        ∧ Workflow.name workflow' = Workflow.name workflow
        ∧ Workflow.description workflow' = Workflow.description workflow
        ∧ Workflow.created_at workflow' = Workflow.created_at workflow
        ∧ Workflow.metadata workflow' = Workflow.metadata workflow.
Proof.
  split.
  - destruct (create_workflow_effect [] w mgr) as [Hok _]. cbn zeta in Hok.
    rewrite (Hok (Forall_nil_2 _)). eexists _, _, _. split; [reflexivity|].
    cbn. by rewrite app_nil_r.
  - intros fuel workflow_id workflow Hwf Hsteps.
    assert (execute_workflow (S fuel) workflow_id w mgr
            = (Ok ∅, w,
               set_workflows
                 (<[workflow_id := executed "completed" (clock w) (clock w) workflow]>)
                 mgr)) as ->.
    { rewrite execute_workflow_stored by (apply elem_of_dom; eauto).
      set (mgr0 := set_workflows _ mgr).
      assert (steps_of workflow_id mgr0 = []) as Hsteps0.
      { subst mgr0. rewrite steps_of_header_update by done.
        unfold steps_of. by rewrite Hwf. }
      rewrite run_loop_S, Hsteps0. cbn [length snd].
      rewrite bool_decide_eq_false_2 by (rewrite size_empty; lia).
      cbn [fst]. subst mgr0. by rewrite (executed_as_insert _ _ _ _ workflow). }
    eexists _, _. split; [reflexivity|]. cbn.
    repeat (split; [done|]). split; [|done].
    eexists _, _. repeat split; lia.
Qed.

(** X19: an execution whose first scan finds no step to start detects the
    deadlock.  When the stored workflow has steps and each of them is
    not pending or has a dependency, [execute_workflow] asks no agent
    and raises the deadlock exception after that scan; the workflow is
    marked ["failed"], started not before the call and ended not before
    it started, its steps are left as they are, the failure is logged,
    and the rest of the manager is as it was.  This is what a second
    execution of a workflow that completed does. *)
Theorem execution_without_ready_step_fails fuel workflow_id w mgr workflow :
  workflows mgr !! workflow_id = Some workflow →
  Workflow.steps workflow ≠ [] →
  Forall blocked (Workflow.steps workflow) →
  ∃ w' workflow',
    execute_workflow (S fuel) workflow_id w mgr
    = (Raise deadlock_error, w', set_workflows (<[workflow_id := workflow']>) mgr)
    ∧ log w' = log w ++ [execution_failed workflow_id deadlock_error]
    ∧ Workflow.status workflow' = "failed"
    ∧ Workflow.steps workflow' = Workflow.steps workflow
    ∧ (∃ started completed,
         Workflow.started_at workflow' = Some started
         ∧ Workflow.completed_at workflow' = Some completed
         ∧ (clock w ≤ started)%nat ∧ (started ≤ completed)%nat
         ∧ (completed ≤ clock w')%nat)
    ∧ Workflow.workflow_id workflow' = Workflow.workflow_id workflow
    ∧ Workflow.name workflow' = Workflow.name workflow
    ∧ Workflow.description workflow' = Workflow.description workflow
    ∧ Workflow.created_at workflow' = Workflow.created_at workflow
    ∧ Workflow.metadata workflow' = Workflow.metadata workflow.
Proof.
  intros Hwf Hne Hblocked.
  assert (execute_workflow (S fuel) workflow_id w mgr
          = (Raise deadlock_error, emit (execution_failed workflow_id deadlock_error) w,
             set_workflows
               (<[workflow_id := executed "failed" (clock w) (clock w) workflow]>) mgr))
    as ->.
  { rewrite execute_workflow_stored by (apply elem_of_dom; eauto).
    set (mgr0 := set_workflows _ mgr).
    assert (steps_of workflow_id mgr0 = Workflow.steps workflow) as Hsteps.
    { subst mgr0. rewrite steps_of_header_update by done.
      unfold steps_of. by rewrite Hwf. }
    rewrite run_loop_S, Hsteps. cbn [snd].
    rewrite bool_decide_eq_true_2.
    2:{ rewrite size_empty. destruct (Workflow.steps workflow); [done|cbn; lia]. }
    unfold scan, bind, get.
    rewrite for_each_none_ready by (rewrite Hsteps; by apply blocked_none_ready).
    cbn [snd]. rewrite bool_decide_eq_true_2 by apply size_empty.
    subst mgr0. by rewrite (executed_as_insert _ _ _ _ workflow). }
  eexists _, _. split; [reflexivity|]. cbn.
  repeat (split; [done|]). split; [|done].
  eexists _, _. repeat split; lia.
Qed.

Lemma execution_without_ready_step_fails_witness :
  ∃ w' workflow',
    execute_workflow 1 (uuid_str 3) abort_aftermath.1 abort_aftermath.2
    = (Raise deadlock_error, w',
       set_workflows (<[uuid_str 3 := workflow']>) abort_aftermath.2)
    ∧ Workflow.status workflow' = "failed".
Proof.
  destruct (execution_without_ready_step_fails 0 (uuid_str 3)
              abort_aftermath.1 abort_aftermath.2
              (default (expected_workflow world0 [])
                 (workflows abort_aftermath.2 !! uuid_str 3)))
    as (w' & workflow' & Hrun & _ & Hstatus & _).
  - vm_compute. reflexivity.
  - vm_compute. discriminate.
  - assert (Workflow.steps
              (default (expected_workflow world0 [])
                 (workflows abort_aftermath.2 !! uuid_str 3))
            = steps_of (uuid_str 3) abort_run.2) as -> by (vm_compute; reflexivity).
    assert (∀ s, s ∈ steps_of (uuid_str 3) abort_run.2 →
              WorkflowStep.status s = "completed" ∨ WorkflowStep.status s = "failed"
              ∨ WorkflowStep.dependencies s ≠ []) as Hall.
    { intros s [i Hi]%list_elem_of_lookup.
      destruct i as [|[|[|i]]]; vm_compute in Hi; simplify_eq; cbn; eauto. }
    apply Forall_forall. intros s Hs.
    destruct (Hall s Hs) as [H|[H|H]]; [left|left|by right]; rewrite H; discriminate.
  - exists w', workflow'. split; [exact Hrun | exact Hstatus].
Defined.

End first_scan_theorems.

Section results_theorems.

Import base_agent agent_manager.

Lemma same_workflow_step_ids x x' :
  same_workflow x x' →
  WorkflowStep.step_id <$> Workflow.steps x' = WorkflowStep.step_id <$> Workflow.steps x.
Proof.
  intros (_ & _ & _ & _ & _ & Hsteps).
  induction Hsteps as [|s s' l l' Hs _ IH]; [done|].
  cbn. destruct Hs as (-> & _). by rewrite IH.
Qed.

Lemma results_to_S k steps results s F v :
  NoDup (WorkflowStep.step_id <$> steps) →
  results_to k steps results →
  steps !! k = Some s →
  (∀ x, WorkflowStep.step_id (F x) = WorkflowStep.step_id x) →
  WorkflowStep.result (F s) = v →
  results_to (S k) (alter F k steps) (<[WorkflowStep.step_id s := v]> results).
Proof.
  intros Hnd Hres Hk HF Hv id v'.
  destruct (decide (WorkflowStep.step_id s = id)) as [<-|Hne].
  - rewrite lookup_insert_eq. split.
    + intros [= <-]. exists k, (F s). split; [lia|].
      rewrite list_lookup_alter_eq, Hk. done.
    + intros (j & x' & Hj & Hx' & Hid & Hr).
      destruct (decide (j = k)) as [->|Hjk].
      * rewrite list_lookup_alter_eq, Hk in Hx'. cbn in Hx'.
        injection Hx' as <-. congruence.
      * rewrite list_lookup_alter_ne in Hx' by done. exfalso. apply Hjk.
        apply (NoDup_lookup _ _ _ (WorkflowStep.step_id s) Hnd);
          rewrite list_lookup_fmap; [by rewrite Hx'; cbn; rewrite Hid | by rewrite Hk].
  - rewrite lookup_insert_ne by done. rewrite (Hres id v'). split.
    + intros (j & x & Hj & Hx & Hid & Hr). exists j, x. split; [lia|].
      rewrite list_lookup_alter_ne by lia. done.
    + intros (j & x' & Hj & Hx' & Hid & Hr).
      destruct (decide (j = k)) as [->|Hjk].
      * rewrite list_lookup_alter_eq, Hk in Hx'. cbn in Hx'.
        injection Hx' as <-. rewrite HF in Hid. done.
      * rewrite list_lookup_alter_ne in Hx' by done. exists j, x'. split; [lia|done].
Qed.

(** The first scan of a fresh workflow, from position [k] on, when it
    gets through. *)
Lemma scan_fresh_results workflow_id m : ∀ k loc w mgr loc' w' mgr',
  scanned_to k (steps_of workflow_id mgr) loc.2 →
  results_to k (steps_of workflow_id mgr) loc.1 →
  k + m = length (steps_of workflow_id mgr) →
  for_each (seq k m) (run_step workflow_id) loc w mgr = (Ok loc', w', mgr') →
  scanned_to (k + m) (steps_of workflow_id mgr') loc'.2
  ∧ results_to (k + m) (steps_of workflow_id mgr') loc'.1
  ∧ length (steps_of workflow_id mgr') = length (steps_of workflow_id mgr)
  ∧ ∃ evs,
      dispatched mgr' = dispatched mgr ++ evs
      ∧ ev_index <$> evs = seq k m
      ∧ Forall (succeeded workflow_id) evs.
Proof.
  induction m as [|m IH]; intros k loc w mgr loc' w' mgr' Hscanned Hres Hlen Hrun.
  - cbn in Hrun. unfold ret in Hrun. simplify_eq. rewrite Nat.add_0_r.
    split; [done|]. split; [done|]. split; [done|].
    exists []. by rewrite app_nil_r.
  - cbn [seq for_each] in Hrun. unfold bind at 1 in Hrun.
    destruct (lookup_lt_is_Some_2 (steps_of workflow_id mgr) k) as [s Hs]; [lia|].
    pose proof (scanned_to_ready _ _ _ _ Hscanned Hs) as Hready.
    destruct (run_step_dispatch workflow_id loc k w mgr s Hs Hready)
      as (q & w1 & mgr1 & Hstep & Hq & Hd & Hw).
    pose proof (steps_of_altered _ _ _ _ Hw (steps_of_Some _ _ _ _ Hs)) as Hsteps.
    rewrite Hstep in Hrun. unfold step_result in Hrun.
    destruct q as [response|e|]; [|by simplify_eq|done].
    destruct (AgentResponse.success response) eqn:Hsucc; [|by simplify_eq].
    pose proof Hscanned as (_ & _ & Hnd & _).
    apply IH in Hrun as (Hsc & Hrs & Hl & evs & Hd' & Hidx & Hall).
    + replace (k + S m) with (S k + m) by lia.
      split; [done|]. split; [done|].
      split; [by rewrite Hl, Hsteps, length_alter|].
      eexists (_ :: evs). split; [by rewrite Hd', Hd, <- app_assoc|].
      split; [cbn; by rewrite Hidx|].
      constructor; [|done]. split; [done|]. cbn. eauto.
    + cbn [snd]. rewrite Hsteps. apply scanned_to_S; [done..| |].
      * intros x. apply settled_step_keeps.
      * unfold settled_step. by rewrite Hsucc.
    + cbn [fst]. rewrite Hsteps. apply results_to_S; [done..| |].
      * intros x. apply settled_step_keeps.
      * unfold settled_step. by rewrite Hsucc.
    + rewrite Hsteps, length_alter. lia.
Qed.

(** X20: when the first execution of a workflow that [create_workflow]
    built returns, every step was dispatched exactly once, in the
    order of the definition, one after the other, and each dispatch
    was answered with success; every step is ["completed"]; and the
    result map returned has exactly the step ids as keys, each with
    the result stored in its step. *)
Theorem fresh_workflow_results fuel workflow_id w mgr workflow results w' mgr' :
  workflows mgr !! workflow_id = Some workflow →
  fresh_steps (Workflow.steps workflow) →
  execute_workflow fuel workflow_id w mgr = (Ok results, w', mgr') →
  dom results = list_to_set (step_ids_of workflow)
  ∧ (∀ i s,
       steps_of workflow_id mgr' !! i = Some s →
       WorkflowStep.status s = "completed"
       ∧ results !! WorkflowStep.step_id s = Some (WorkflowStep.result s))
  ∧ ∃ evs,
      dispatched mgr' = dispatched mgr ++ evs
      ∧ ev_index <$> evs = seq 0 (length (Workflow.steps workflow))
      ∧ Forall (succeeded workflow_id) evs.
Proof.
  intros Hwf Hfresh Hrun.
  pose proof (execute_workflow_execution_frame _ _ _ _ _ _ _ Hrun)
    as (_ & _ & _ & _ & _ & Hsame).
  rewrite Hwf in Hsame. inversion Hsame as [? x' Hx Heq Hx'|]. subst.
  apply same_workflow_step_ids in Hx. symmetry in Hx'.
  assert (steps_of workflow_id mgr' = Workflow.steps x') as Hfinal.
  { unfold steps_of. by rewrite Hx'. }
  rewrite execute_workflow_stored in Hrun by (apply elem_of_dom; eauto).
  set (mgr0 := set_workflows _ mgr) in *.
  assert (steps_of workflow_id mgr0 = Workflow.steps workflow) as Hsteps0.
  { subst mgr0. rewrite steps_of_header_update by done. unfold steps_of. by rewrite Hwf. }
  assert (dispatched mgr0 = dispatched mgr) as Hd0 by done.
  destruct (run_loop fuel workflow_id (∅, ∅) w mgr0) as [[r1 w1] mgr1] eqn:Hloop.
  destruct r1 as [loc|e|]; [|done..]. injection Hrun as <- <- <-.
  assert (steps_of workflow_id
            (set_workflows
               (alter (Workflow.set_completed_at (Some (clock w1))
                       ∘ Workflow.set_status "completed") workflow_id) mgr1)
          = steps_of workflow_id mgr1) as Hsteps1.
  { by rewrite steps_of_header_update. }
  rewrite Hsteps1 in Hfinal. rewrite Hsteps1. cbn [dispatched set_workflows].
  assert (scanned_to (length (Workflow.steps workflow)) (steps_of workflow_id mgr1) loc.2
          ∧ results_to (length (Workflow.steps workflow)) (steps_of workflow_id mgr1) loc.1
          ∧ length (steps_of workflow_id mgr1) = length (Workflow.steps workflow)
          ∧ ∃ evs,
              dispatched mgr1 = dispatched mgr ++ evs
              ∧ ev_index <$> evs = seq 0 (length (Workflow.steps workflow))
              ∧ Forall (succeeded workflow_id) evs) as (Hsc & Hres & Hlen & Hevs).
  { destruct fuel as [|fuel]; [done|].
    rewrite run_loop_S, Hsteps0 in Hloop. cbn [snd] in Hloop.
    rewrite size_empty in Hloop.
    case_bool_decide as Hn.
    - unfold scan, bind, get in Hloop. rewrite Hsteps0 in Hloop.
      destruct (for_each _ _ _ _ _) as [[r2 w2] mgr2] eqn:Hscan.
      destruct r2 as [loc2|e|]; [|done..].
      apply scan_fresh_results in Hscan as (Hsc & Hres & Hlen & Hevs).
      + cbn [Nat.add] in *. rewrite Hsteps0 in Hlen.
        pose proof Hsc as (Hsize & _).
        rewrite bool_decide_eq_false_2 in Hloop by lia.
        destruct fuel as [|fuel]; [done|].
        rewrite run_loop_S in Hloop.
        rewrite bool_decide_eq_false_2 in Hloop by lia.
        simplify_eq. rewrite <- Hd0. done.
      + rewrite Hsteps0. by apply fresh_steps_scanned.
      + intros id v. cbn [fst]. rewrite lookup_empty. split; [done|].
        intros (j & _ & ? & _). lia.
      + by rewrite Hsteps0.
    - simplify_eq. rewrite Hsteps0.
      assert (Workflow.steps workflow = []) as Hnil.
      { destruct (Workflow.steps workflow); [done|cbn in Hn; lia]. }
      rewrite Hnil in *. cbn [length].
      split; [by apply fresh_steps_scanned|]. split.
      { intros id v. cbn [fst]. rewrite lookup_empty. split; [done|].
        intros (j & _ & ? & _). lia. }
      split; [done|]. exists []. by rewrite app_nil_r. }
  split; [|split; [|done]].
  - apply set_eq. intros id. rewrite elem_of_dom, elem_of_list_to_set.
    unfold step_ids_of. rewrite <- Hx, <- Hfinal. rewrite list_elem_of_fmap. split.
    + intros [v Hv]. apply Hres in Hv as (j & s & _ & Hs & Hid & _).
      exists s. split; [done|]. by eapply list_elem_of_lookup_2.
    + intros (s & -> & [j Hj]%list_elem_of_lookup).
      exists (WorkflowStep.result s). apply Hres. exists j, s.
      split; [|done]. apply lookup_lt_Some in Hj. lia.
  - intros i s Hs. pose proof Hsc as (_ & _ & _ & Hsteps).
    destruct (Hsteps i s Hs) as (_ & Hdone & _).
    pose proof (lookup_lt_Some _ _ _ Hs) as Hi.
    split; [apply Hdone; lia|]. apply Hres. exists i, s. split; [lia|done].
Qed.

Lemma fresh_workflow_results_witness :
  dom (default ∅ (match chain_run.1.1 with Ok results => Some results | _ => None end))
  = list_to_set (step_ids_of (expected_workflow one_agent.1 chain_definition))
  ∧ (∀ i s,
       steps_of (uuid_str 2) chain_run.2 !! i = Some s →
       WorkflowStep.status s = "completed"
       ∧ default ∅ (match chain_run.1.1 with Ok results => Some results | _ => None end)
           !! WorkflowStep.step_id s = Some (WorkflowStep.result s))
  ∧ ∃ evs,
      dispatched chain_run.2 = dispatched chain_scenario.2 ++ evs
      ∧ ev_index <$> evs
        = seq 0 (length (Workflow.steps (expected_workflow one_agent.1 chain_definition)))
      ∧ Forall (succeeded (uuid_str 2)) evs.
Proof.
  apply (fresh_workflow_results 2 (uuid_str 2) chain_scenario.1 chain_scenario.2
           (expected_workflow one_agent.1 chain_definition) _ chain_run.1.2 chain_run.2).
  - vm_compute. reflexivity.
  - apply expected_workflow_fresh.
  - vm_compute. reflexivity.
Defined.

End results_theorems.

(** ** The monitor loop *)

Section monitor_theorems.

Import base_agent agent_manager.

Lemma health_check_cycle_returns w mgr :
  ∃ w' ags',
    health_check_cycle w mgr = (Ok tt, w', set_agents (λ _, ags') mgr)
    ∧ clock w' = clock w + size (agents mgr).
Proof.
  destruct (check_loop_effect (map_to_list (agents mgr)) w mgr)
    as (w' & ags' & Hrun & Hclock & _).
  { apply NoDup_fst_map_to_list. }
  exists w', ags'. split; [by unfold health_check_cycle, bind, get|].
  by rewrite Hclock, length_map_to_list.
Qed.

Lemma _health_check_loop_running fuel : ∀ w mgr,
  running mgr = true → (_health_check_loop fuel w mgr).1.1 = OutOfFuel.
Proof.
  induction fuel as [|fuel IH]; intros w mgr Hrun; [done|].
  cbn [_health_check_loop]. unfold bind at 1, get. rewrite Hrun.
  unfold bind at 1, try_except, bind at 1.
  destruct (health_check_cycle_returns w mgr) as (w' & ags' & -> & _).
  unfold sleep. by apply IH.
Qed.

(** X21: run on its own, the monitor ends in one way only: by the [running]
    flag being cleared.  While the manager is not running the loop
    returns at once and checks nobody; while it is running, no answer
    and no failure of an agent's health check makes the loop return or
    raise. *)
Theorem health_monitor_stops_only_when_told fuel w mgr :
  (running mgr = false → _health_check_loop (S fuel) w mgr = (Ok tt, w, mgr))
  ∧ (running mgr = true → (_health_check_loop fuel w mgr).1.1 = OutOfFuel).
Proof.
  split; intros Hrun.
  - cbn [_health_check_loop]. unfold bind, get. by rewrite Hrun.
  - by apply _health_check_loop_running.
Qed.

End monitor_theorems.

Section agent_class_theorems.

Import agent_class.

Lemma AgentResponse_new_eq {S} success data error metadata agent_id processing_time
    w (s : S) :
  AgentResponse.new success data error metadata agent_id processing_time w s
  = match data with
    | VNone | VDict _ =>
        (Ok {| AgentResponse.success := success;
               AgentResponse.data := match data with VDict d => Some d | _ => None end;
               AgentResponse.error := error;
               AgentResponse.metadata := metadata;
               AgentResponse.timestamp := clock w;
               AgentResponse.agent_id := agent_id;
               AgentResponse.processing_time := Some processing_time |}, w, s)
    | _ => (Raise (pydantic_ValidationError "AgentResponse" "data"), w, s)
    end.
Proof. by destruct data. Qed.

Lemma _update_stats_effect success start_time w a :
  ∃ average,
    _update_stats success start_time w a
    = (Ok tt, w,
       set_stats
         (λ _,
            {| Stats.total_requests := S (Stats.total_requests (stats a));
               Stats.successful_requests :=
                 (if success then S else id) (Stats.successful_requests (stats a));
               Stats.failed_requests :=
                 (if success then id else S) (Stats.failed_requests (stats a));
               Stats.average_response_time := average;
               Stats.last_request_time := Some (clock w) |}) a).
Proof.
  unfold _update_stats. destruct success; coro_simpl; eexists; reflexivity.
Qed.

(** What the [except] clause of [process_request] does with the
    exception [e]. *)
Lemma process_request_except start_time request_id e w a :
  ∃ response a',
    (_update_stats false start_time ;;;
     logger "error" "Request processing failed"
       [("request_id", VStr request_id); ("error", VStr (str_exc e));
        ("error_type", VStr (type_name e))] ;;;
     a <- get ;;
     now <- utcnow ;;
     AgentResponse.new false VNone (Some (str_exc e))
       [("request_id", VStr request_id);
        ("error_type", VStr (type_name e));
        ("agent_version", VStr (AgentConfig.version (config a)))]
       (AgentConfig.agent_id (config a)) (total_seconds start_time now)) w a
    = (Ok response,
       emit {| log_level := "error"; log_event := "Request processing failed";
               log_fields := [("request_id", VStr request_id);
                              ("error", VStr (str_exc e));
                              ("error_type", VStr (type_name e))] |} w,
       a')
    ∧ config a' = config a
    ∧ _is_healthy a' = _is_healthy a
    ∧ counted 0 1 a a'
    ∧ AgentResponse.success response = false
    ∧ AgentResponse.data response = None
    ∧ AgentResponse.error response = Some (str_exc e)
    ∧ AgentResponse.agent_id response = AgentConfig.agent_id (config a).
Proof.
  unfold bind at 1.
  destruct (_update_stats_effect false start_time w a) as [average ->].
  unfold bind, logger, get, utcnow, AgentResponse.new, bind, utcnow, ret. cbn.
  eexists _, _. split; [reflexivity|]. unfold counted. cbn. repeat split; lia.
Qed.

Lemma process_request_effect sub request context w a :
  ∃ response w' a',
    process_request sub request context w a = (Ok response, w', a')
    ∧ config a' = config a
    ∧ _is_healthy a' = _is_healthy a
    ∧ AgentResponse.agent_id response = AgentConfig.agent_id (config a)
    ∧ clock w' = (if truthy request then S (clock w) else clock w)
    ∧ match attempt sub request context (clock w) with
      | Throws e =>
          AgentResponse.success response = false
          ∧ AgentResponse.data response = None
          ∧ AgentResponse.error response = Some (str_exc e)
          ∧ counted 0 1 a a'
      | Returns (VDict d) =>
          AgentResponse.success response = true
          ∧ AgentResponse.data response = Some d
          ∧ AgentResponse.error response = None
          ∧ counted 1 0 a a'
      | Returns VNone =>
          AgentResponse.success response = true
          ∧ AgentResponse.data response = None
          ∧ AgentResponse.error response = None
          ∧ counted 1 0 a a'
      | Returns _ =>
          AgentResponse.success response = false
          ∧ AgentResponse.data response = None
          ∧ (∃ text, AgentResponse.error response = Some text)
          ∧ counted 1 1 a a'
      end.
Proof.
  unfold process_request, attempt.
  unfold bind at 1. unfold utcnow at 1. unfold bind at 1, uuid4.
  unfold try_except, bind at 1, _validate_request.
  destruct (truthy request) eqn:Htruthy.
  - unfold ret at 1. unfold bind at 1, await. cbn [clock next_uuid].
    destruct (_process_request_impl sub (clock w) request context) as [result|e].
    + unfold bind at 1.
      destruct (_update_stats_effect true (clock w) (tick (next_uuid w)) a)
        as [average ->].
      set (a1 := set_stats _ a).
      assert (config a1 = config a ∧ _is_healthy a1 = _is_healthy a ∧ counted 1 0 a a1)
        as (Hconfig & Hhealth & Hcount).
      { subst a1. unfold counted. cbn. repeat split; lia. }
      unfold bind at 1. unfold get at 1. unfold bind at 1. unfold utcnow at 1.
      rewrite AgentResponse_new_eq.
      destruct result as [|b|z|str|l|d]; cbv beta iota;
        try (destruct (process_request_except (clock w) (uuid_str (uuid_counter w))
                         (pydantic_ValidationError "AgentResponse" "data")
                         (tick (next_uuid w)) a1)
               as (response & a' & -> & Hc & Hh & (Ht & Hs & Hf) & Hsucc & Hdata & Herr & Hid);
             destruct Hcount as (Ht1 & Hs1 & Hf1);
             eexists _, _, _; (split; [reflexivity|]);
             rewrite Hc, Hh, Hid, Hconfig, Hhealth;
             repeat split; try done; [eauto|lia..]).
      * eexists _, _, _. split; [reflexivity|]. cbn. repeat (split; [done|]). exact Hcount.
      * eexists _, _, _. split; [reflexivity|]. cbn. repeat (split; [done|]). exact Hcount.
    + destruct (process_request_except (clock w) (uuid_str (uuid_counter w)) e
                  (tick (next_uuid w)) a)
        as (response & a' & -> & Hc & Hh & Hcount & Hsucc & Hdata & Herr & Hid).
      eexists _, _, _. split; [reflexivity|]. repeat (split; [done|]). exact Hcount.
  - unfold raise at 1.
    destruct (process_request_except (clock w) (uuid_str (uuid_counter w))
                (ValidationError "Request cannot be empty") (next_uuid w) a)
      as (response & a' & -> & Hc & Hh & Hcount & Hsucc & Hdata & Herr & Hid).
    eexists _, _, _. split; [reflexivity|]. repeat (split; [done|]). exact Hcount.
Qed.

(** X22: [process_request] never raises: it returns a response, with the
    agent's id, whatever the request and whatever the implementation
    does, and counts the request.  An empty request ([None], [""], [{}]
    and the like) is answered without the implementation being called,
    with [success = False] and the error ["Request cannot be empty"];
    an exception of the implementation is answered with
    [success = False] and its text as the error; an answer of the
    implementation that is a dictionary, or [None], is returned as the
    data with [success = True].  Each of these counts the request
    once, as failed or as successful.  An answer that is neither a
    dictionary nor [None] is first counted as successful, then refused
    by the response, and counted again as failed: it is answered with
    [success = False], and the request is counted twice.  The
    configuration and the health flag are left alone: whether the
    agent is enabled, or was shut down, is not looked at.  (Exceptions
    are those [except Exception] catches; a cancellation of the task
    is not modelled.) *)
Theorem process_request_never_raises sub request context w a :
  ∃ response w' a',
    process_request sub request context w a = (Ok response, w', a')
    ∧ config a' = config a
    ∧ _is_healthy a' = _is_healthy a
    ∧ AgentResponse.agent_id response = AgentConfig.agent_id (config a)
    ∧ (truthy request = false →
       AgentResponse.success response = false
       ∧ AgentResponse.error response = Some "Request cannot be empty"
       ∧ clock w' = clock w
       ∧ Stats.total_requests (stats a') = S (Stats.total_requests (stats a))
       ∧ Stats.failed_requests (stats a') = S (Stats.failed_requests (stats a))
       ∧ Stats.successful_requests (stats a') = Stats.successful_requests (stats a))
    ∧ (truthy request = true →
       match _process_request_impl sub (clock w) request context with
       | Returns result =>
           match result with
           | VDict _ | VNone =>
               AgentResponse.success response = true
               ∧ AgentResponse.data response
                 = match result with VDict d => Some d | _ => None end
               ∧ AgentResponse.error response = None
               ∧ Stats.total_requests (stats a') = S (Stats.total_requests (stats a))
               ∧ Stats.successful_requests (stats a')
                 = S (Stats.successful_requests (stats a))
               ∧ Stats.failed_requests (stats a') = Stats.failed_requests (stats a)
           | _ =>
               AgentResponse.success response = false
               ∧ AgentResponse.data response = None
               ∧ (∃ text, AgentResponse.error response = Some text)
               ∧ Stats.total_requests (stats a')
                 = S (S (Stats.total_requests (stats a)))
               ∧ Stats.successful_requests (stats a')
                 = S (Stats.successful_requests (stats a))
               ∧ Stats.failed_requests (stats a') = S (Stats.failed_requests (stats a))
           end
       | Throws e =>
           AgentResponse.success response = false
           ∧ AgentResponse.data response = None
           ∧ AgentResponse.error response = Some (str_exc e)
           ∧ Stats.total_requests (stats a') = S (Stats.total_requests (stats a))
           ∧ Stats.failed_requests (stats a') = S (Stats.failed_requests (stats a))
           ∧ Stats.successful_requests (stats a')
             = Stats.successful_requests (stats a)
       end).
Proof.
  destruct (process_request_effect sub request context w a)
    as (response & w' & a' & Hrun & Hconfig & Hhealth & Hid & Hclock & Hattempt).
  exists response, w', a'. split; [exact Hrun|].
  split; [done|]. split; [done|]. split; [done|].
  unfold attempt, counted in Hattempt. split.
  - intros Hfalsy. rewrite Hfalsy in Hattempt, Hclock.
    destruct Hattempt as (? & _ & ? & Ht & Hs & Hf).
    repeat split; try done; lia.
  - intros Htruthy. rewrite Htruthy in Hattempt.
    destruct (_process_request_impl sub (clock w) request context) as [result|e].
    + destruct result; destruct Hattempt as (? & ? & ? & Ht & Hs & Hf);
        repeat split; try done; lia.
    + destruct Hattempt as (? & ? & ? & Ht & Hs & Hf). repeat split; try done; lia.
Qed.

Lemma agent_call_stats sub c w a :
  ∃ successes failures,
    counted successes failures a (agent_call sub c w a).2
    ∧ ((if is_request c then 1 else 0) ≤ successes + failures)%nat
    ∧ (successes + failures ≤ (if is_request c then 2 else 0))%nat
    ∧ (answers_dictionaries sub → (successes + failures = if is_request c then 1 else 0)%nat).
Proof.
  assert (counted 0 0 a a) as Hsame by (unfold counted; lia).
  destruct c as [|request context| | |]; cbn.
  - exists 0, 0. unfold counted. cbn. repeat split; try done; lia.
  - unfold bind.
    destruct (process_request_effect sub request context w a)
      as (response & w' & a' & -> & _ & _ & _ & _ & Hattempt). cbn [snd].
    unfold attempt in Hattempt.
    destruct (truthy request).
    + destruct (_process_request_impl sub (clock w) request context) as [result|e] eqn:Himpl.
      * destruct result as [|b|z|str|l|d];
          destruct Hattempt as (_ & _ & _ & Hcount);
          try (exists 1, 0; (split; [exact Hcount|]); repeat split; try done; lia);
          exists 1, 1; (split; [exact Hcount|]); (split; [lia|]); (split; [lia|]);
          intros Hsub; destruct (Hsub _ _ _ _ Himpl) as [?|?]; done.
      * destruct Hattempt as (_ & _ & _ & Hcount).
        exists 0, 1. split; [exact Hcount|]. repeat split; try done; lia.
    + destruct Hattempt as (_ & _ & _ & Hcount).
      exists 0, 1. split; [exact Hcount|]. repeat split; try done; lia.
  - exists 0, 0. unfold counted. cbn. repeat split; try done; lia.
  - exists 0, 0. unfold counted. cbn. repeat split; try done; lia.
  - exists 0, 0. unfold shutdown, counted. coro_simpl.
    destruct (_cleanup sub (clock w)); cbn; repeat split; try done; lia.
Qed.

(** X23: in every state an agent reaches from its construction through
    calls of its methods, whatever they answer, the number of requests
    counted is the sum of the successes and the failures counted.  It
    is at least the number of calls of [process_request] made and at
    most twice that number, and it is that number when the
    implementation keeps to its annotation and answers dictionaries
    (or [None]): every other answer is counted twice. *)
Theorem agent_stats_add_up sub config calls w0 :
  let a := (agent_after sub calls w0 (__init__ config)).2 in
  let requests := length (filter is_request calls) in
  Stats.total_requests (stats a)
  = Stats.successful_requests (stats a) + Stats.failed_requests (stats a)
  ∧ (requests ≤ Stats.total_requests (stats a) ≤ 2 * requests)%nat
  ∧ (answers_dictionaries sub → Stats.total_requests (stats a) = requests).
Proof.
  assert (∀ w a,
            ∃ successes failures,
              counted successes failures a (agent_after sub calls w a).2
              ∧ (length (filter is_request calls) ≤ successes + failures)%nat
              ∧ (successes + failures ≤ 2 * length (filter is_request calls))%nat
              ∧ (answers_dictionaries sub →
                 successes + failures = length (filter is_request calls))) as Hgen.
  { induction calls as [|c calls IH]; intros w a.
    - exists 0, 0. unfold counted. cbn. repeat split; lia.
    - cbn [agent_after].
      destruct (agent_call_stats sub c w a)
        as (s1 & f1 & (Ht1 & Hs1 & Hf1) & Hlo1 & Hhi1 & Hexact1).
      destruct (agent_call sub c w a) as [[r w1] a1]. cbn [snd] in *.
      destruct (IH w1 a1) as (s2 & f2 & (Ht2 & Hs2 & Hf2) & Hlo2 & Hhi2 & Hexact2).
      assert (length (filter is_request (c :: calls))
              = ((if is_request c then 1 else 0) + length (filter is_request calls))%nat)
        as ->.
      { rewrite filter_cons.
        destruct (is_request c); cbn;
          [rewrite decide_True by done | rewrite decide_False by tauto]; done. }
      exists (s1 + s2), (f1 + f2). unfold counted.
      split; [lia|]. split; [lia|]. split; [destruct (is_request c); lia|].
      intros Hsub. specialize (Hexact1 Hsub). specialize (Hexact2 Hsub). lia. }
  intros a requests. subst a requests.
  destruct (Hgen w0 (__init__ config)) as (s & f & (Ht & Hs & Hf) & Hlo & Hhi & Hexact).
  cbn in Ht, Hs, Hf. split; [lia|]. split; [lia|].
  intros Hsub. specialize (Hexact Hsub). lia.
Qed.

Lemma agent_call_health sub c w a :
  config (agent_call sub c w a).2 = config a
  ∧ _is_healthy (agent_call sub c w a).2
    = match c with
      | call_agent_start => true
      | call_shutdown => false
      | _ => _is_healthy a
      end.
Proof.
  destruct c as [|request context| | |]; cbn; try done.
  - unfold bind.
    by destruct (process_request_effect sub request context w a)
      as (response & w' & a' & -> & ? & ? & _).
  - unfold shutdown. coro_simpl. by destruct (_cleanup sub (clock w)).
Qed.

(** X24: the health an agent reports follows its last [start] or
    [shutdown] and nothing else.  After any calls of its methods,
    [health_check] returns, changes nothing, and reports ["unhealthy"]
    when the last of the [start] and [shutdown] calls was a [shutdown],
    also one whose cleanup raised, and ["healthy"] otherwise.  Requests
    do not count: an agent whose every request fails reports
    ["healthy"]. *)
Theorem health_follows_start_and_shutdown sub config calls w0 :
  let '(w, a) := agent_after sub calls w0 (__init__ config) in
  ∃ report w',
    health_check w a = (Ok report, w', a)
    ∧ health_status report = (if started calls then "healthy" else "unhealthy")
    ∧ health_agent_id report = AgentConfig.agent_id config
    ∧ health_stats report = stats a.
Proof.
  assert (∀ w a,
            agent_class.config (agent_after sub calls w a).2 = agent_class.config a
            ∧ _is_healthy (agent_after sub calls w a).2
              = fold_left
                  (λ healthy c,
                     match c with
                     | call_agent_start => true
                     | call_shutdown => false
                     | _ => healthy
                     end)
                  calls (_is_healthy a)) as Hgen.
  { induction calls as [|c calls IH]; intros w a; [done|].
    cbn [agent_after fold_left].
    destruct (agent_call_health sub c w a) as [Hconfig Hhealth].
    destruct (agent_call sub c w a) as [[r w1] a1]. cbn [snd] in *.
    destruct (IH w1 a1) as [-> ->]. by rewrite Hconfig, Hhealth. }
  specialize (Hgen w0 (__init__ config)).
  destruct (agent_after sub calls w0 (__init__ config)) as [w a]. cbn [snd] in Hgen.
  destruct Hgen as [Hconfig Hhealth].
  eexists _, _. split; [reflexivity|]. cbn. rewrite Hconfig, Hhealth. done.
Qed.

(** A subclass that answers the number 3 to every request: one request
    is counted twice, as one success and one failure, and answered as
    failed. *)
Example stray_answer_is_counted_twice :
  let sub := {| class_name := "Stray";
                _process_request_impl := λ _ _ _, Returns (VInt 3);
                _get_supported_operations := [];
                _cleanup := λ _, Returns tt |} in
  let config := {| AgentConfig.agent_id := "s1"; AgentConfig.name := "stray";
                   AgentConfig.description := ""; AgentConfig.model := "gpt-4";
                   AgentConfig.enabled := true; AgentConfig.version := "1.0.0" |} in
  let run := process_request sub (VStr "go") None world0 (__init__ config) in
  (AgentResponse.success <$> match run.1.1 with Ok r => Some r | _ => None end) = Some false
  ∧ Stats.total_requests (stats run.2) = 2
  ∧ Stats.successful_requests (stats run.2) = 1
  ∧ Stats.failed_requests (stats run.2) = 1.
Proof. cbn zeta. repeat split. Qed.

End agent_class_theorems.

Section exceptions_theorems.

Import exceptions.

Lemma ERROR_MAPPING_sound code cls :
  ERROR_MAPPING !! code = Some cls → ERROR_CODE cls = code.
Proof.
  intros Hin%elem_of_list_to_map_2.
  repeat (apply elem_of_cons in Hin as [Hin|Hin]; [by simplify_eq|]).
  by apply elem_of_nil in Hin.
Qed.

Lemma ERROR_MAPPING_complete cls : ERROR_MAPPING !! ERROR_CODE cls = Some cls.
Proof. by destruct cls; vm_compute. Qed.

Lemma __init___header cls message arg :
  __class__ (__init__ cls message arg) = cls
  ∧ exceptions.message (__init__ cls message arg) = message
  ∧ error_code (__init__ cls message arg) = ERROR_CODE cls.
Proof. by destruct cls. Qed.

(** X25: an error that [create_error] returns carries the code it was
    asked for, as its [error_code] and as the [ERROR_CODE] of its
    class, and the message; the class of every code of the table has
    that code, and every class is reached by its own code.  A code that
    is the [ERROR_CODE] of no class gives [ValueError] with the text
    ["Unknown error code: "] and the code, whatever the keywords are
    (unless one is named [error_code] or [message], which the call
    refuses). *)
Theorem create_error_round_trip code message kwargs :
  (∀ e, create_error code message kwargs = inr e →
        error_code e = code ∧ ERROR_CODE (__class__ e) = code
        ∧ exceptions.message e = message
        ∧ create_error (error_code e) (exceptions.message e) kwargs = inr e)
  ∧ (∀ cls, ERROR_MAPPING !! ERROR_CODE cls = Some cls)
  ∧ ((∀ cls, ERROR_CODE cls ≠ code) →
     kwargs !! "error_code" = None → kwargs !! "message" = None →
     create_error code message kwargs = inl (ValueError ("Unknown error code: " +:+ code))).
Proof.
  split; [|split].
  - intros e He. pose proof He as He'. unfold create_error in He.
    case_bool_decide; [done|].
    destruct (ERROR_MAPPING !! code) as [cls|] eqn:Hcls; [|done].
    apply ERROR_MAPPING_sound in Hcls. unfold new in He.
    destruct (fits _ _); [|done]. injection He as <-.
    destruct (__init___header cls message (λ name, default VNone (kwargs !! name)))
      as (Hc & Hm & Hcode).
    rewrite Hc, Hm, Hcode, Hcls in *. done.
  - apply ERROR_MAPPING_complete.
  - intros Hunknown Hcode Hmessage. unfold create_error.
    rewrite bool_decide_eq_false_2.
    + destruct (ERROR_MAPPING !! code) as [cls|] eqn:Hcls; [|done].
      apply ERROR_MAPPING_sound in Hcls. by destruct (Hunknown cls).
    + rewrite Hcode, Hmessage. intros [[? ?]|[? ?]]; done.
Qed.

Local Ltac listed :=
  solve [repeat (apply list_elem_of_here || apply list_elem_of_further)].

(** X26: the call [create_error(error_code, message)] of the
    docstring, without keywords, returns an error for eight codes only,
    those of the classes whose [__init__] needs no more than the
    message.  For the eleven other codes of the table it raises
    [TypeError]: the class needs an argument ([workflow_id], [source],
    [timeout_seconds], ...) that only a keyword can give. *)
Theorem create_error_without_keywords code message :
  ((∃ e, create_error code message ∅ = inr e) ↔
   code ∈ ["AGENT_ERROR"; "AGENT_COMMUNICATION_ERROR"; "AGENT_INITIALIZATION_ERROR";
           "AGENT_CONFIGURATION_ERROR"; "VALIDATION_ERROR"; "AUTHENTICATION_ERROR";
           "RATE_LIMIT_ERROR"; "CONFIGURATION_ERROR"])
  ∧ (create_error code message ∅ = inl TypeError ↔
     code ∈ ["AGENT_TIMEOUT"; "DATA_SOURCE_ERROR"; "WORKFLOW_ERROR"; "WORKFLOW_TIMEOUT";
             "WORKFLOW_VALIDATION_ERROR"; "AUTHORIZATION_ERROR"; "RESOURCE_NOT_FOUND";
             "DATABASE_ERROR"; "EXTERNAL_SERVICE_ERROR"; "MODEL_ERROR";
             "SERIALIZATION_ERROR"]).
Proof.
  assert (create_error code message ∅
          = match ERROR_MAPPING !! code with
            | None => inl (ValueError ("Unknown error code: " +:+ code))
            | Some cls => new cls message ∅
            end) as ->.
  { unfold create_error. rewrite bool_decide_eq_false_2; [done|].
    rewrite !lookup_empty. intros [[? ?]|[? ?]]; done. }
  split; split.
  - intros [e He]. destruct (ERROR_MAPPING !! code) as [cls|] eqn:Hcls; [|done].
    apply ERROR_MAPPING_sound in Hcls. subst code. unfold new in He.
    destruct (fits (parameters cls) ∅) eqn:Hfits; [|done].
    destruct cls; try (by vm_compute in Hfits); cbn [ERROR_CODE]; listed.
  - intros Hin.
    repeat (apply elem_of_cons in Hin as [->|Hin]; [by eexists; vm_compute|]).
    by apply elem_of_nil in Hin.
  - intros He. destruct (ERROR_MAPPING !! code) as [cls|] eqn:Hcls; [|done].
    apply ERROR_MAPPING_sound in Hcls. subst code. unfold new in He.
    destruct (fits (parameters cls) ∅) eqn:Hfits; [done|].
    destruct cls; try (by vm_compute in Hfits); cbn [ERROR_CODE]; listed.
  - intros Hin.
    repeat (apply elem_of_cons in Hin as [->|Hin]; [by vm_compute|]).
    by apply elem_of_nil in Hin.
Qed.

End exceptions_theorems.
